(** * Threads Harvester: text extraction, visibility and extraction strategies

    A shallow embedding of [src/extractors/base.ts] (text normalisation,
    DOM text collection, visibility test, id hash) and of the four
    extraction strategies (generic, Reddit, Hacker News, Twitter/X; Reddit
    and Hacker News in both revisions the repository holds), followed by the
    properties of the specification that concern them.

    Conventions of the embedding:
    - a JavaScript string is the list of its UTF-16 code units ([list N]);
      [length] is then JavaScript's [.length] and [charCodeAt] is list lookup;
    - the private [textCache] of [BaseExtractor] is threaded explicitly: every
      method that reaches [cleanText] lives in the state monad [M];
    - the DOM is a finite tree of nodes; an [Element] handle is what the code
      holds when it has a reference to an element of the document: the
      element, its children, and the chain of its ancestors. *)

From Stdlib Require Import ZArith NArith List Bool Lia Ascii DecimalString QArith.
From Stdlib Require DecimalN.
From stdpp Require Import base option list numbers strings gmap.

Open Scope N_scope.
Set Warnings "-register-all".

(** ** JavaScript strings *)

Abbreviation jsstring := (list N).

(** Literals: the code units of an ASCII literal. *)
Definition js (s : string) : jsstring :=
  N_of_ascii <$> String.list_ascii_of_string s.

Definition SP : N := 32.
Definition TAB : N := 9.
Definition LF : N := 10.

(** [Array.prototype.join]. *)
Fixpoint join (sep : jsstring) (parts : list jsstring) : jsstring :=
  match parts with
  | [] => []
  | [p] => p
  | p :: rest => p ++ sep ++ join sep rest
  end.

(** The class [\s] of ECMAScript regular expressions, which is also the set
    that [String.prototype.trim] strips: WhiteSpace and LineTerminator. *)
Definition is_space (c : N) : bool :=
  (c =? 9) || (c =? 10) || (c =? 11) || (c =? 12) || (c =? 13) || (c =? 32)
  || (c =? 160) || (c =? 5760) || ((8192 <=? c) && (c <=? 8202))
  || (c =? 8232) || (c =? 8233) || (c =? 8239) || (c =? 8287)
  || (c =? 12288) || (c =? 65279).

(** The class [[ \t]]. *)
Definition is_blank (c : N) : bool := (c =? SP) || (c =? TAB).

Fixpoint trimStart (s : jsstring) : jsstring :=
  match s with
  | c :: r => if is_space c then trimStart r else s
  | [] => []
  end.

Definition trimEnd (s : jsstring) : jsstring := rev (trimStart (rev s)).

(** [String.prototype.trim]. *)
Definition trim (s : jsstring) : jsstring := trimEnd (trimStart s).

(** ** The fragment of regular expressions used by [cleanText]

    A pattern is a sequence of atoms, each a character class with a
    quantifier.  Matching is the backtracking matching of ECMAScript: a
    greedy quantifier first tries to take one more character and gives it
    back when the rest of the pattern fails. *)

Inductive quantifier := One | Star | Plus.

Record atom := Atom { atom_class : N -> bool; atom_quant : quantifier }.

(** [star c k s]: match [c*] greedily at the head of [s], then the
    continuation [k]; the result is the number of code units consumed. *)
Fixpoint star (c : N -> bool) (k : jsstring -> option nat) (s : jsstring)
  : option nat :=
  match s with
  | x :: s' =>
      if c x then
        match star c k s' with
        | Some n => Some (S n)
        | None => k s
        end
      else k s
  | [] => k s
  end.

Fixpoint match_here (re : list atom) (s : jsstring) : option nat :=
  match re with
  | [] => Some 0%nat
  | Atom c One :: re' =>
      match s with
      | x :: s' => if c x then S <$> match_here re' s' else None
      | [] => None
      end
  | Atom c Star :: re' => star c (match_here re') s
  | Atom c Plus :: re' =>
      match s with
      | x :: s' => if c x then S <$> star c (match_here re') s' else None
      | [] => None
      end
  end.

(** [s.replace(/re/g, rep)]: scan from the left; at each index try a match;
    a match is replaced by [rep] and the scan resumes behind it ([skip]
    counts the code units of the current match still to be passed over); an
    empty match inserts [rep] and moves on by one code unit. *)
Fixpoint replace_from (re : list atom) (rep : jsstring) (skip : nat)
  (s : jsstring) : jsstring :=
  match s with
  | [] =>
      match skip with
      | O => if match_here re [] is Some _ then rep else []
      | S _ => []
      end
  | x :: s' =>
      match skip with
      | S k => replace_from re rep k s'
      | O =>
          match match_here re s with
          | Some (S n) => rep ++ replace_from re rep n s'
          | Some O => rep ++ x :: replace_from re rep 0 s'
          | None => x :: replace_from re rep 0 s'
          end
      end
  end.

Definition replace_all (re : list atom) (rep s : jsstring) : jsstring :=
  replace_from re rep 0 s.

(** [/[ \t]+/g] *)
Definition re_blanks : list atom := [Atom is_blank Plus].

(** [/\n\s*\n/g] *)
Definition re_blank_lines : list atom :=
  [Atom (N.eqb LF) One; Atom is_space Star; Atom (N.eqb LF) One].

(** ** [BaseExtractor.cleanText] *)

(** The value computed by [cleanText] on a cache miss. *)
Definition cleaned (text : jsstring) : jsstring :=
  trim (replace_all re_blank_lines [LF; LF] (replace_all re_blanks [SP] text)).

(** The state monad over [textCache]. *)
Definition M (A : Type) : Type := gmap (list N) (list N) -> A * gmap (list N) (list N).

#[global] Instance M_ret : MRet M := fun A a textCache => (a, textCache).

#[global] Instance M_bind : MBind M := fun A B f m textCache =>
  let (a, textCache') := m textCache in f a textCache'.

Definition cleanText (text : jsstring) : M jsstring := fun textCache =>
  match textCache !! text with
  | Some hit => (hit, textCache)
  | None =>
      let result := cleaned text in
      let textCache :=
        if decide (100 < size textCache)%nat then ∅ else textCache in
      (result, <[text := result]> textCache)
  end.

(** [forEach] with a body that pushes zero or more items. *)
Fixpoint forEach {A B} (body : A -> M (list B)) (l : list A) : M (list B) :=
  match l with
  | [] => mret []
  | a :: rest =>
      pushed ← body a;
      more ← forEach body rest;
      mret (pushed ++ more)
  end.

(** ** The document object model *)

(** [style] (inline) and [getComputedStyle(...)]: the two properties read. *)
Record CSSStyleDeclaration := { display : jsstring; visibility : jsstring }.

(** [getBoundingClientRect()]: the two properties read; finite doubles are
    rationals, and the code only compares them with zero. *)
Record DOMRect := { width : Q; height : Q }.

(** What the code observes of one element, apart from its position in the
    tree.  [computedStyle = None] stands for a host in which
    [window.getComputedStyle] throws. *)
Record element_data := {
  tagName : jsstring;
  elem_id : jsstring;
  classList : list jsstring;
  attributes : list (jsstring * jsstring);
  href : option jsstring;
  style : CSSStyleDeclaration;
  offsetParent_is_null : bool;
  boundingClientRect : DOMRect;
  computedStyle : option CSSStyleDeclaration
}.

Inductive node :=
| TextNode (data : jsstring)
| CommentNode (data : jsstring)
| ElementNode (e : element_data) (children : list node).

(** A reference to an element: the element, its child nodes, and its
    [parentElement] chain, nearest first. *)
Record Element := {
  self : element_data;
  childNodes : list node;
  parents : list (element_data * list node);
  isConnected : bool
}.

(** The host: [window.location.href], [document.title], the document tree,
    and whether [document.createTreeWalker] is available. *)
Record window := {
  location_href : jsstring;
  document_title : jsstring;
  document_childNodes : list node;
  hasTreeWalker : bool
}.

(** [toLowerCase] on the ASCII range; code units outside [A-Z] are kept.  No
    code unit outside ASCII lower-cases to a letter of the five excluded tag
    names or of the tag names in the selectors, so the tests below are
    exact. *)
Definition toLowerCase (s : jsstring) : jsstring :=
  (fun c => if (65 <=? c) && (c <=? 90) then c + 32 else c) <$> s.

Fixpoint getAttribute (attrs : list (jsstring * jsstring)) (name : jsstring)
  : option jsstring :=
  match attrs with
  | [] => None
  | (n, v) :: rest => if bool_decide (n = name) then Some v else getAttribute rest name
  end.

(** *** Selectors *)

Inductive simple_selector :=
| ByTag (name : jsstring)
| ByClass (name : jsstring)
| ById (name : jsstring)
| ByAttr (name value : jsstring).

Inductive selector :=
| Compound (c : list simple_selector)
| Descendant (ancestor : selector) (c : list simple_selector)
| Child (parent : selector) (c : list simple_selector).

Definition matches_simple (s : simple_selector) (e : element_data) : bool :=
  match s with
  | ByTag name => bool_decide (toLowerCase (tagName e) = name)
  | ByClass name => bool_decide (name ∈ classList e)
  | ById name => bool_decide (elem_id e = name)
  | ByAttr name value => bool_decide (getAttribute (attributes e) name = Some value)
  end.

Definition matches_compound (c : list simple_selector) (e : element_data) : bool :=
  forallb (fun s => matches_simple s e) c.

Fixpoint some_ancestor (p : element_data -> list element_data -> bool)
  (chain : list element_data) : bool :=
  match chain with
  | [] => false
  | a :: up => p a up || some_ancestor p up
  end.

Fixpoint matches (sel : selector) (e : element_data) (chain : list element_data)
  : bool :=
  match sel with
  | Compound c => matches_compound c e
  | Descendant anc c => matches_compound c e && some_ancestor (matches anc) chain
  | Child par c =>
      matches_compound c e &&
      match chain with
      | p :: up => matches par p up
      | [] => false
      end
  end.

(** The elements of a subtree in document order, as references. *)
Fixpoint elements_of (connected : bool) (up : list (element_data * list node))
  (n : node) : list Element :=
  match n with
  | ElementNode e ks =>
      {| self := e; childNodes := ks; parents := up; isConnected := connected |}
      :: flat_map (elements_of connected ((e, ks) :: up)) ks
  | _ => []
  end.

Definition matches_element (sel : selector) (el : Element) : bool :=
  matches sel (self el) (fst <$> parents el).

(** [document.querySelectorAll] and [document.querySelector]. *)
Definition querySelectorAll (w : window) (sel : selector) : list Element :=
  List.filter (matches_element sel)
    (flat_map (elements_of true []) (document_childNodes w)).

Definition querySelector (w : window) (sel : selector) : option Element :=
  head (querySelectorAll w sel).

(** [element.querySelectorAll] and [element.querySelector]: the matching
    descendants of [el]; the selector is still matched against the whole
    ancestor chain. *)
Definition Element_querySelectorAll (el : Element) (sel : selector) : list Element :=
  List.filter (matches_element sel)
    (flat_map
       (elements_of (isConnected el) ((self el, childNodes el) :: parents el))
       (childNodes el)).

Definition Element_querySelector (el : Element) (sel : selector) : option Element :=
  head (Element_querySelectorAll el sel).

(** [element.closest]. *)
Fixpoint closest_from (sel : selector) (connected : bool) (e : element_data)
  (ks : list node) (up : list (element_data * list node)) : option Element :=
  if matches sel e (fst <$> up)
  then Some {| self := e; childNodes := ks; parents := up; isConnected := connected |}
  else match up with
       | [] => None
       | (p, pks) :: up' => closest_from sel connected p pks up'
       end.

Definition closest (sel : selector) (el : Element) : option Element :=
  closest_from sel (isConnected el) (self el) (childNodes el) (parents el).

(** ** [BaseExtractor.extractTextFromElement] and [extractTextRecursive] *)

Definition excluded_tags : list jsstring :=
  [js "script"; js "style"; js "noscript"; js "svg"; js "canvas"].

Definition excluded (e : element_data) : bool :=
  bool_decide (toLowerCase (tagName e) ∈ excluded_tags).

(** The [acceptNode] filter: climb the [parentElement] chain of a text node. *)
Fixpoint acceptNode (chain : list element_data) : bool :=
  match chain with
  | [] => true
  | current :: up => if excluded current then false else acceptNode up
  end.

(** The text nodes that [walker.nextNode()] yields below a node, in document
    order; [chain] is the [parentElement] chain of the node's children. *)
Fixpoint walker_nodes (chain : list element_data) (n : node) : list jsstring :=
  match n with
  | TextNode data => if acceptNode chain then [data] else []
  | CommentNode _ => []
  | ElementNode e ks => flat_map (walker_nodes (e :: chain)) ks
  end.

Definition nextNodes (element : Element) : list jsstring :=
  flat_map (walker_nodes (self element :: (fst <$> parents element)))
    (childNodes element).

(** [if (text && text.length > 0) textParts.push(text)] for [text = data.trim()]. *)
Definition push_trimmed (data : jsstring) : list jsstring :=
  let text := trim data in
  if (0 <? length text)%nat then [text] else [].

(** The loop over [element.childNodes]; [recurse] is the recursive call on a
    child element. *)
Fixpoint recursiveParts (recurse : node -> M jsstring) (nodes : list node)
  : M (list jsstring) :=
  match nodes with
  | [] => mret []
  | n :: rest =>
      pushed ← match n with
               | TextNode data => mret (push_trimmed data)
               | CommentNode _ => mret []
               | ElementNode el _ =>
                   if excluded el then mret []
                   else
                     childText ← recurse n;
                     mret (if (0 <? length childText)%nat then [childText] else [])
               end;
      more ← recursiveParts recurse rest;
      mret (pushed ++ more)
  end.

Fixpoint extractTextRecursive (element : node) : M jsstring :=
  match element with
  | ElementNode _ nodes =>
      textParts ← recursiveParts extractTextRecursive nodes;
      cleanText (join [SP] textParts)
  | _ => cleanText [] (* not reached: the argument is an element *)
  end.

Definition node_of (el : Element) : node := ElementNode (self el) (childNodes el).

Definition extractTextFromElement (w : window) (element : Element) : M jsstring :=
  if hasTreeWalker w then
    let textParts := flat_map push_trimmed (nextNodes element) in
    let result := join [SP] textParts in
    if (0 <? length result)%nat then cleanText result
    else extractTextRecursive (node_of element)
  else extractTextRecursive (node_of element).

(** ** [BaseExtractor.isElementVisible] *)

Definition isElementVisible (element : Element) : bool :=
  let htmlElement := self element in
  if negb (isConnected element) then false
  else if offsetParent_is_null htmlElement
          (* the nested [if (htmlElement.style.display === 'none')] *)
          && bool_decide (display (style htmlElement) = js "none") then false
  else if bool_decide (display (style htmlElement) = js "none")
          || bool_decide (visibility (style htmlElement) = js "hidden") then false
  else
    let rect := boundingClientRect htmlElement in
    if Qeq_bool (width rect) 0 || Qeq_bool (height rect) 0 then false
    else
      match computedStyle htmlElement with
      | Some computed =>
          negb (bool_decide (display computed = js "none"))
          && negb (bool_decide (visibility computed = js "hidden"))
      | None => true
      end.

(** ** [BaseExtractor.generateId] *)

(** ToInt32. *)
Definition toInt32 (z : Z) : Z := ((z + 2 ^ 31) mod 2 ^ 32 - 2 ^ 31)%Z.

(** [a << k] and [a & b] on numbers. *)
Definition shl (a k : Z) : Z := toInt32 (Z.shiftl (toInt32 a) k).
Definition band (a b : Z) : Z := Z.land (toInt32 a) (toInt32 b).

(** [Number.prototype.toString] on a non-negative integer below 2^53. *)
Definition toString (z : Z) : jsstring :=
  js (NilZero.string_of_uint (N.to_uint (Z.to_N z))).

(** One turn of the loop body; [char] is [content.charCodeAt(i)]. *)
Definition hash_step (hash : Z) (char : N) : Z :=
  let hash := (shl hash 5 - hash + Z.of_N char)%Z in
  band hash hash.

Definition generateId (content : jsstring) : jsstring :=
  let hash := 0%Z in
  if (length content =? 0)%nat then toString hash
  else toString (Z.abs (fold_left hash_step content hash)).

(** ** Extraction results ([types.ts]) *)

Inductive item_type := post | comment.

(** [htmlContent] is an [innerHTML] or [outerHTML] snapshot; it is kept as
    the node list that would be serialised. *)
Record ContentItem := {
  item_id : jsstring;
  element : Element;
  URL : option jsstring;
  textContent : jsstring;
  htmlContent : option (list node);
  type : item_type;
  selected : bool
}.

Record Content := {
  pageURL : jsstring;
  title : jsstring;
  items : list ContentItem
}.

(** [a || b] on strings. *)
Definition or_else (a b : jsstring) : jsstring :=
  if (0 <? length a)%nat then a else b.

(** [textContent && textContent.length > n]. *)
Definition longer_than (n : nat) (textContent : jsstring) : bool :=
  (0 <? length textContent)%nat && (n <? length textContent)%nat.

(** The [for (const selector of ...)] loop shared by the generic and the
    Twitter strategy: the elements of the first selector that matches any. *)
Fixpoint firstMatching (w : window) (selectors : list selector) : list Element :=
  match selectors with
  | [] => []
  | selector :: rest =>
      let elements := querySelectorAll w selector in
      if (0 <? length elements)%nat then elements else firstMatching w rest
  end.

(** [Array.prototype.filter] with a predicate that reads text. *)
Fixpoint filterM {A} (p : A -> M bool) (l : list A) : M (list A) :=
  match l with
  | [] => mret []
  | a :: rest =>
      keep ← p a;
      more ← filterM p rest;
      mret (if (keep : bool) then a :: more else more)
  end.

Definition innerHTML (includeHtml : bool) (el : Element) : option (list node) :=
  if includeHtml then Some (childNodes el) else None.

Definition outerHTML (includeHtml : bool) (el : Element) : option (list node) :=
  if includeHtml then Some [node_of el] else None.

(** [anchor?.href] *)
Definition href_of (anchor : option Element) : option jsstring :=
  el ← anchor; href (self el).

(** [SITE_SELECTORS] ([constants.ts]). *)
Module SITE_SELECTORS.
Module REDDIT.
Definition POST := Compound [ByAttr (js "slot") (js "text-body")].
Definition COMMENTS := Compound [ByAttr (js "slot") (js "comment")].
End REDDIT.
Module HACKER_NEWS.
Definition POST := Compound [ByClass (js "toptext")].
Definition POST_ID :=
  Child (Descendant (Compound [ByClass (js "subtext")])
           [ByTag (js "span"); ByClass (js "age")]) [ByTag (js "a")].
Definition COMMENTS := Compound [ByClass (js "commtext")].
Definition COMMENT_ID :=
  Child (Descendant (Compound [ByClass (js "comhead")])
           [ByTag (js "span"); ByClass (js "age")]) [ByTag (js "a")].
Definition COMMENT_TREE :=
  Descendant (Compound [ByClass (js "comment-tree")]) [ByClass (js "comtr")].
Definition STORY_ITEM := Compound [ByClass (js "athing")].
Definition TITLE_LINK := Child (Compound [ByClass (js "titleline")]) [ByTag (js "a")].
End HACKER_NEWS.
Module TWITTER.
Definition TWEET := Compound [ByAttr (js "data-testid") (js "tweetText")].
Definition TWEET_ARTICLE :=
  Compound [ByTag (js "article"); ByAttr (js "data-testid") (js "tweet")].
End TWITTER.
End SITE_SELECTORS.

(** ** [GenericExtractor] ([extractors/generic.ts]) *)
Module GenericExtractor.
Section extract.
Variable includeHtml : bool.
Variable w : window.

Definition contentSelectors : list selector :=
  [ Compound [ByTag (js "article")];
    Compound [ByTag (js "main")];
    Compound [ByAttr (js "role") (js "main")];
    Compound [ByClass (js "content")];
    Compound [ById (js "content")];
    Compound [ByClass (js "post")];
    Compound [ByClass (js "entry-content")] ].

(** The fallback over paragraphs. *)
Definition paragraphs : M (list Element) :=
  filterM
    (fun p : Element =>
       if isElementVisible p then
         text ← extractTextFromElement w p;
         mret (M := M) (50 <? length text)%nat
       else mret false)
    (querySelectorAll w (Compound [ByTag (js "p")])).

(** The object literal pushed onto [content.items]. *)
Definition item (el : Element) (textContent : jsstring) : ContentItem :=
  {| item_id := generateId textContent;
     element := el;
     URL := None;
     textContent := textContent;
     htmlContent := innerHTML includeHtml el;
     type := post;
     selected := false |}.

Definition item_of (el : Element) : M (list ContentItem) :=
  textContent ← extractTextFromElement w el;
  mret (if longer_than 20 textContent then [item el textContent] else []).

Definition extract : M Content :=
  let foundElements := firstMatching w contentSelectors in
  foundElements ←
    (if (length foundElements =? 0)%nat then paragraphs else mret foundElements);
  items ← forEach item_of foundElements;
  mret {| pageURL := location_href w;
          title := or_else (document_title w) (js "Untitled Page");
          items := items |}.
End extract.
End GenericExtractor.

(** ** [RedditExtractor] ([extractors/reddit.ts]) *)
Module RedditExtractor.
Section extract.
Variable includeHtml : bool.
Variable w : window.

Definition item (kind : item_type) (el : Element) (textContent : jsstring)
  : ContentItem :=
  {| item_id := generateId textContent;
     element := el;
     URL := None;
     textContent := textContent;
     htmlContent := innerHTML includeHtml el;
     type := kind;
     selected := false |}.

Definition item_of (kind : item_type) (el : Element) : M (list ContentItem) :=
  if isElementVisible el then
    textContent ← extractTextFromElement w el;
    mret (if longer_than 10 textContent then [item kind el textContent] else [])
  else mret [].

Definition extract : M Content :=
  let commentElements := querySelectorAll w SITE_SELECTORS.REDDIT.COMMENTS in
  comments ← forEach (item_of comment) commentElements;
  let postElements := querySelectorAll w SITE_SELECTORS.REDDIT.POST in
  posts ← forEach (item_of post) postElements;
  mret {| pageURL := location_href w;
          title := or_else (document_title w) (js "Reddit");
          items := comments ++ posts |}.
End extract.
End RedditExtractor.

(** ** [TwitterExtractor] *)
Module TwitterExtractor.
Section extract.
Variable includeHtml : bool.
Variable w : window.

Definition tweetSelectors : list selector :=
  [ SITE_SELECTORS.TWITTER.TWEET_ARTICLE;
    SITE_SELECTORS.TWITTER.TWEET;
    Compound [ByTag (js "article"); ByAttr (js "role") (js "article")];
    Compound [ByClass (js "tweet-text")];
    Compound [ByClass (js "twitter-tweet")] ].

(** [tweetEl.querySelector(TWEET) || tweetEl.querySelector('.tweet-text') || tweetEl] *)
Definition textElement (tweetEl : Element) : Element :=
  match Element_querySelector tweetEl SITE_SELECTORS.TWITTER.TWEET with
  | Some el => el
  | None =>
      match Element_querySelector tweetEl (Compound [ByClass (js "tweet-text")]) with
      | Some el => el
      | None => tweetEl
      end
  end.

Definition item (el : Element) (textContent : jsstring) : ContentItem :=
  {| item_id := generateId textContent;
     element := el;
     URL := None;
     textContent := textContent;
     htmlContent := innerHTML includeHtml el;
     type := post;
     selected := false |}.

Definition tweet_item (tweetEl : Element) : M (list ContentItem) :=
  if isElementVisible tweetEl then
    textContent ← extractTextFromElement w (textElement tweetEl);
    mret (if longer_than 5 textContent then [item tweetEl textContent] else [])
  else mret [].

Definition article_item (articleEl : Element) : M (list ContentItem) :=
  if isElementVisible articleEl then
    textContent ← extractTextFromElement w articleEl;
    mret (if longer_than 20 textContent && (length textContent <? 2000)%nat
          then [item articleEl textContent] else [])
  else mret [].

(** The pass over the first matching selector group. *)
Definition primary : M (list ContentItem) :=
  let tweetElements := firstMatching w tweetSelectors in
  forEach tweet_item tweetElements.

(** The pass over every [article]. *)
Definition fallback : M (list ContentItem) :=
  let articleElements := querySelectorAll w (Compound [ByTag (js "article")]) in
  forEach article_item articleElements.

Definition extract : M Content :=
  tweets ← primary;
  items ←
    (if (length tweets =? 0)%nat then
       articles ← fallback;
       mret (tweets ++ articles)
     else mret tweets);
  mret {| pageURL := location_href w;
          title := or_else (document_title w) (js "Twitter/X");
          items := items |}.
End extract.
End TwitterExtractor.

(** ** [HackerNewsExtractor] *)
Module HackerNewsExtractor.
Section extract.
Variable includeHtml : bool.
Variable w : window.

Definition title_item (titleLinkEl : Element) (textContent : jsstring) : ContentItem :=
  {| item_id := generateId textContent;
     element := default titleLinkEl
                  (closest SITE_SELECTORS.HACKER_NEWS.STORY_ITEM titleLinkEl);
     URL := href_of (querySelector w SITE_SELECTORS.HACKER_NEWS.POST_ID);
     textContent := textContent;
     htmlContent := outerHTML includeHtml titleLinkEl;
     type := post;
     selected := false |}.

Definition post_item (mainPost : Element) (textContent : jsstring) : ContentItem :=
  {| item_id := generateId textContent;
     element := mainPost;
     URL := href_of (querySelector w SITE_SELECTORS.HACKER_NEWS.POST_ID);
     textContent := textContent;
     htmlContent := innerHTML includeHtml mainPost;
     type := post;
     selected := false |}.

Definition comment_record (commentEl commentContent : Element)
  (textContent : jsstring) : ContentItem :=
  {| item_id := generateId textContent;
     element := commentEl;
     URL := href_of
              (Element_querySelector commentEl SITE_SELECTORS.HACKER_NEWS.COMMENT_ID);
     textContent := textContent;
     htmlContent := innerHTML includeHtml commentContent;
     type := comment;
     selected := false |}.

(** The [for ... of] loop over the title links, left at the first item. *)
Fixpoint firstTitle (titleLinkElements : list Element) : M (list ContentItem) :=
  match titleLinkElements with
  | [] => mret []
  | titleLinkEl :: rest =>
      if isElementVisible titleLinkEl then
        textContent ← extractTextFromElement w titleLinkEl;
        if (0 <? length textContent)%nat
        then mret [title_item titleLinkEl textContent]
        else firstTitle rest
      else firstTitle rest
  end.

Definition submission : M (list ContentItem) :=
  match querySelector w SITE_SELECTORS.HACKER_NEWS.POST with
  | Some mainPost =>
      if isElementVisible mainPost then
        textContent ← extractTextFromElement w mainPost;
        mret (if longer_than 10 textContent
              then [post_item mainPost textContent] else [])
      else firstTitle (querySelectorAll w SITE_SELECTORS.HACKER_NEWS.TITLE_LINK)
  | None => firstTitle (querySelectorAll w SITE_SELECTORS.HACKER_NEWS.TITLE_LINK)
  end.

Definition comment_item (commentEl : Element) : M (list ContentItem) :=
  match Element_querySelector commentEl SITE_SELECTORS.HACKER_NEWS.COMMENTS with
  | Some commentContent =>
      if isElementVisible commentContent then
        textContent ← extractTextFromElement w commentContent;
        mret (if longer_than 10 textContent
              then [comment_record commentEl commentContent textContent] else [])
      else mret []
  | None => mret []
  end.

Definition extract : M Content :=
  main ← submission;
  let commentElements := querySelectorAll w SITE_SELECTORS.HACKER_NEWS.COMMENT_TREE in
  comments ← forEach comment_item commentElements;
  mret {| pageURL := location_href w;
          title := or_else (document_title w) (js "Hacker News");
          items := main ++ comments |}.
End extract.
End HackerNewsExtractor.

(** ** The other revision of two strategies

    The repository holds a second revision of the Reddit strategy (a lower
    threshold, and permalinks) and of the Hacker News strategy (the comments
    first, the story rows only when no comment was admitted). *)
Module Other.

Module RedditExtractor.
Section extract.
Variable includeHtml : bool.
Variable w : window.
(** [SITE_SELECTORS.REDDIT.COMMENT_ID]: the constants at hand do not give
    its value. *)
Variable COMMENT_ID : selector.

Definition comment_record (commentEl : Element) (textContent : jsstring)
  : ContentItem :=
  {| item_id := generateId textContent;
     element := commentEl;
     URL := href_of (querySelector w COMMENT_ID);
     textContent := textContent;
     htmlContent := innerHTML includeHtml commentEl;
     type := comment;
     selected := false |}.

Definition post_record (postEl : Element) (textContent : jsstring) : ContentItem :=
  {| item_id := generateId textContent;
     element := postEl;
     URL := Some (location_href w);
     textContent := textContent;
     htmlContent := innerHTML includeHtml postEl;
     type := post;
     selected := false |}.

Definition item_of (record : Element -> jsstring -> ContentItem) (el : Element)
  : M (list ContentItem) :=
  if isElementVisible el then
    textContent ← extractTextFromElement w el;
    mret (if longer_than 5 textContent then [record el textContent] else [])
  else mret [].

Definition extract : M Content :=
  let commentElements := querySelectorAll w SITE_SELECTORS.REDDIT.COMMENTS in
  comments ← forEach (item_of comment_record) commentElements;
  let postElements := querySelectorAll w SITE_SELECTORS.REDDIT.POST in
  posts ← forEach (item_of post_record) postElements;
  mret {| pageURL := location_href w;
          title := or_else (document_title w) (js "Reddit");
          items := comments ++ posts |}.
End extract.
End RedditExtractor.

Module HackerNewsExtractor.
Section extract.
Variable includeHtml : bool.
Variable w : window.

Definition comment_record (commentEl commentContent : Element)
  (textContent : jsstring) : ContentItem :=
  {| item_id := generateId textContent;
     element := commentEl;
     URL := None;
     textContent := textContent;
     htmlContent := innerHTML includeHtml commentContent;
     type := comment;
     selected := false |}.

Definition story_record (storyEl titleEl : Element) (textContent : jsstring)
  : ContentItem :=
  {| item_id := generateId textContent;
     element := storyEl;
     URL := href (self titleEl);
     textContent := textContent;
     htmlContent := innerHTML includeHtml storyEl;
     type := post;
     selected := false |}.

Definition comment_item (commentEl : Element) : M (list ContentItem) :=
  match Element_querySelector commentEl SITE_SELECTORS.HACKER_NEWS.COMMENTS with
  | Some commentContent =>
      if isElementVisible commentContent then
        textContent ← extractTextFromElement w commentContent;
        mret (if longer_than 10 textContent
              then [comment_record commentEl commentContent textContent] else [])
      else mret []
  | None => mret []
  end.

Definition story_item (storyEl : Element) : M (list ContentItem) :=
  match Element_querySelector storyEl SITE_SELECTORS.HACKER_NEWS.TITLE_LINK with
  | Some titleEl =>
      if isElementVisible titleEl then
        textContent ← extractTextFromElement w titleEl;
        mret (if (0 <? length textContent)%nat
              then [story_record storyEl titleEl textContent] else [])
      else mret []
  | None => mret []
  end.

Definition extract : M Content :=
  let commentElements := querySelectorAll w SITE_SELECTORS.HACKER_NEWS.COMMENT_TREE in
  comments ← forEach comment_item commentElements;
  items ←
    (if (length comments =? 0)%nat then
       let storyElements := querySelectorAll w SITE_SELECTORS.HACKER_NEWS.STORY_ITEM in
       stories ← forEach story_item storyElements;
       mret (comments ++ stories)
     else mret comments);
  mret {| pageURL := location_href w;
          title := or_else (document_title w) (js "Hacker News");
          items := items |}.
End extract.
End HackerNewsExtractor.

End Other.

(** * Specification-side definitions *)

(** ** Text normalisation *)

(** The two replacement passes of [cleanText]. *)
Definition collapse_blanks (s : jsstring) : jsstring := replace_all re_blanks [SP] s.
Definition collapse_blank_lines (s : jsstring) : jsstring :=
  replace_all re_blank_lines [LF; LF] s.

(** The two passes together. *)
Definition collapse (s : jsstring) : jsstring :=
  collapse_blank_lines (collapse_blanks s).

Fixpoint skip_while (p : N -> bool) (s : jsstring) : jsstring :=
  match s with
  | c :: r => if p c then skip_while p r else s
  | [] => []
  end.

Fixpoint run_length (p : N -> bool) (s : jsstring) : nat :=
  match s with
  | c :: r => if p c then S (run_length p r) else 0%nat
  | [] => 0%nat
  end.

(** What is left of [s] behind the last line feed of its leading run of
    white space, when that run has a line feed. *)
Fixpoint rest_after_lf (s : jsstring) : option jsstring :=
  match s with
  | c :: r =>
      if is_space c then
        match rest_after_lf r with
        | Some t => Some t
        | None => if c =? LF then Some r else None
        end
      else None
  | [] => None
  end.

(** "Replace every run of space/tab characters with a single space": a
    maximal run of blanks becomes one space, every other code unit (line
    feeds included) is copied. *)
Inductive squeezes : jsstring -> jsstring -> Prop :=
| squeezes_nil : squeezes [] []
| squeezes_copy c r r' :
    is_blank c = false -> squeezes r r' -> squeezes (c :: r) (c :: r')
| squeezes_run c run r r' :
    is_blank c = true -> Forall (fun x => is_blank x = true) run ->
    head (is_blank <$> r) ≠ Some true ->
    squeezes r r' -> squeezes (c :: run ++ r) (SP :: r').

(** "Collapse any run of a newline followed by optional whitespace and
    another newline into exactly two newlines": the run reaches to the last
    line feed of the white space that follows the first one. *)
Inductive collapses : jsstring -> jsstring -> Prop :=
| collapses_nil : collapses [] []
| collapses_copy c r r' :
    (c = LF -> rest_after_lf r = None) ->
    collapses r r' -> collapses (c :: r) (c :: r')
| collapses_run ws r r' :
    Forall (fun x => is_space x = true) ws ->
    rest_after_lf r = None ->
    collapses r r' -> collapses (LF :: ws ++ LF :: r) (LF :: LF :: r').

(** A string with a first and a last code unit, neither of them white. *)
Definition solid (s : jsstring) : Prop :=
  (exists x r, s = x :: r /\ is_space x = false) /\
  (exists r y, s = r ++ [y] /\ is_space y = false).

(** "Trim leading/trailing whitespace". *)
Definition trimmed_of (s t : jsstring) : Prop :=
  exists before after,
    s = before ++ t ++ after /\
    Forall (fun x => is_space x = true) before /\
    Forall (fun x => is_space x = true) after /\
    (t = [] \/ solid t).

(** Normal forms of the two passes. *)
Fixpoint squeezed (s : jsstring) : Prop :=
  match s with
  | [] => True
  | c :: r =>
      (is_blank c = true -> c = SP /\ head (is_blank <$> r) ≠ Some true)
      /\ squeezed r
  end.

Fixpoint settled (s : jsstring) : Prop :=
  match s with
  | [] => True
  | c :: r =>
      (c = LF -> rest_after_lf r = None \/ rest_after_lf r = Some (tail r) /\ head r = Some LF)
      /\ settled r
  end.

(** ** The cache *)

(** Every entry of [textCache] is the normal form of its key. *)
Definition cache_ok (textCache : gmap (list N) (list N)) : Prop :=
  forall text hit, textCache !! text = Some hit -> hit = cleaned text.

(** [m] run from a sound cache returns a value with [Q] and leaves a sound cache. *)
Definition returns {A} (m : M A) (Q : A -> Prop) : Prop :=
  forall textCache, cache_ok textCache ->
    Q (m textCache).1 /\ cache_ok (m textCache).2.

(** ** Text collection, as the specification words it *)

(** The trimmed, non-empty text of every text node below a node, in document
    order, leaving out what lies below an element with an excluded tag. *)
Fixpoint fragments_of (n : node) : list jsstring :=
  match n with
  | TextNode data => push_trimmed data
  | CommentNode _ => []
  | ElementNode e ks => if excluded e then [] else flat_map fragments_of ks
  end.

Definition fragments (nodes : list node) : list jsstring :=
  flat_map fragments_of nodes.

(** "Join all included fragments with a single space, then run the result
    through TextNormalizer." *)
Definition collectText (nodes : list node) : jsstring :=
  cleaned (join [SP] (fragments nodes)).

(** Two lists of parts that normalise to the same text. *)
Definition same_text (parts frags : list jsstring) : Prop :=
  Forall solid parts /\
  (parts = [] <-> frags = []) /\
  join [SP] (collapse <$> parts) = join [SP] (collapse <$> frags).

(** ** The strategies without the cache *)

(** The text a strategy reads off an element. *)
Definition text_of (el : Element) : jsstring := collectText (childNodes el).

(** The items of each strategy as a function of the document: candidates in
    scan order, each admitted or not by the strategy's gate. *)
Module Pure.
Section items.
Variable includeHtml : bool.
Variable w : window.

Definition generic_candidates : list Element :=
  let found := firstMatching w GenericExtractor.contentSelectors in
  if (length found =? 0)%nat then
    List.filter (fun p => isElementVisible p && (50 <? length (text_of p))%nat)
      (querySelectorAll w (Compound [ByTag (js "p")]))
  else found.

Definition generic_admit (el : Element) : list ContentItem :=
  if longer_than 20 (text_of el)
  then [GenericExtractor.item includeHtml el (text_of el)] else [].

Definition generic : list ContentItem := flat_map generic_admit generic_candidates.

Definition reddit_admit (kind : item_type) (el : Element) : list ContentItem :=
  if isElementVisible el && longer_than 10 (text_of el)
  then [RedditExtractor.item includeHtml kind el (text_of el)] else [].

Definition reddit : list ContentItem :=
  flat_map (reddit_admit comment) (querySelectorAll w SITE_SELECTORS.REDDIT.COMMENTS)
  ++ flat_map (reddit_admit post) (querySelectorAll w SITE_SELECTORS.REDDIT.POST).

Definition tweet_admit (el : Element) : list ContentItem :=
  let text := text_of (TwitterExtractor.textElement el) in
  if isElementVisible el && longer_than 5 text
  then [TwitterExtractor.item includeHtml el text] else [].

Definition article_admit (el : Element) : list ContentItem :=
  if isElementVisible el && longer_than 20 (text_of el)
     && (length (text_of el) <? 2000)%nat
  then [TwitterExtractor.item includeHtml el (text_of el)] else [].

Definition twitter_primary : list ContentItem :=
  flat_map tweet_admit (firstMatching w TwitterExtractor.tweetSelectors).

Definition twitter_fallback : list ContentItem :=
  flat_map article_admit (querySelectorAll w (Compound [ByTag (js "article")])).

Definition twitter : list ContentItem :=
  if (length twitter_primary =? 0)%nat then twitter_fallback else twitter_primary.

Fixpoint first_title (links : list Element) : list ContentItem :=
  match links with
  | [] => []
  | link :: rest =>
      if isElementVisible link && (0 <? length (text_of link))%nat
      then [HackerNewsExtractor.title_item includeHtml w link (text_of link)]
      else first_title rest
  end.

Definition hn_titles : list ContentItem :=
  first_title (querySelectorAll w SITE_SELECTORS.HACKER_NEWS.TITLE_LINK).

Definition hn_submission : list ContentItem :=
  match querySelector w SITE_SELECTORS.HACKER_NEWS.POST with
  | Some mainPost =>
      if isElementVisible mainPost then
        if longer_than 10 (text_of mainPost)
        then [HackerNewsExtractor.post_item includeHtml w mainPost (text_of mainPost)]
        else []
      else hn_titles
  | None => hn_titles
  end.

Definition hn_comment (commentEl : Element) : list ContentItem :=
  match Element_querySelector commentEl SITE_SELECTORS.HACKER_NEWS.COMMENTS with
  | Some commentContent =>
      if isElementVisible commentContent && longer_than 10 (text_of commentContent)
      then [HackerNewsExtractor.comment_record includeHtml commentEl commentContent
              (text_of commentContent)]
      else []
  | None => []
  end.

Definition hackernews : list ContentItem :=
  hn_submission
  ++ flat_map hn_comment (querySelectorAll w SITE_SELECTORS.HACKER_NEWS.COMMENT_TREE).
Definition reddit2_admit (record : Element -> jsstring -> ContentItem)
  (el : Element) : list ContentItem :=
  if isElementVisible el && longer_than 5 (text_of el)
  then [record el (text_of el)] else [].

Definition reddit2 (COMMENT_ID : selector) : list ContentItem :=
  flat_map (reddit2_admit (Other.RedditExtractor.comment_record includeHtml w COMMENT_ID))
    (querySelectorAll w SITE_SELECTORS.REDDIT.COMMENTS)
  ++ flat_map (reddit2_admit (Other.RedditExtractor.post_record includeHtml w))
       (querySelectorAll w SITE_SELECTORS.REDDIT.POST).

Definition hn2_comment (commentEl : Element) : list ContentItem :=
  match Element_querySelector commentEl SITE_SELECTORS.HACKER_NEWS.COMMENTS with
  | Some commentContent =>
      if isElementVisible commentContent && longer_than 10 (text_of commentContent)
      then [Other.HackerNewsExtractor.comment_record includeHtml commentEl
              commentContent (text_of commentContent)]
      else []
  | None => []
  end.

Definition hn2_story (storyEl : Element) : list ContentItem :=
  match Element_querySelector storyEl SITE_SELECTORS.HACKER_NEWS.TITLE_LINK with
  | Some titleEl =>
      if isElementVisible titleEl && (0 <? length (text_of titleEl))%nat
      then [Other.HackerNewsExtractor.story_record includeHtml storyEl titleEl
              (text_of titleEl)]
      else []
  | None => []
  end.

Definition hn2_comments : list ContentItem :=
  flat_map hn2_comment (querySelectorAll w SITE_SELECTORS.HACKER_NEWS.COMMENT_TREE).

Definition hackernews2 : list ContentItem :=
  if (length hn2_comments =? 0)%nat
  then flat_map hn2_story (querySelectorAll w SITE_SELECTORS.HACKER_NEWS.STORY_ITEM)
  else hn2_comments.
End items.
End Pure.

(** ** Documents used in examples *)

Module Examples.

Definition rendered : CSSStyleDeclaration :=
  {| display := js "block"; visibility := js "visible" |}.

(** A rendered element with no inline style. *)
Definition tag (name : string) (classes : list string)
  (attrs : list (string * string)) : element_data :=
  {| tagName := js name;
     elem_id := [];
     classList := js <$> classes;
     attributes := (fun a => (js a.1, js a.2)) <$> attrs;
     href := None;
     style := {| display := []; visibility := [] |};
     offsetParent_is_null := false;
     boundingClientRect := {| width := 100; height := 50 |};
     computedStyle := Some rendered |}.

(** The same element with [style="display: none"], as a browser lays it out. *)
Definition hidden (e : element_data) : element_data :=
  {| tagName := tagName e;
     elem_id := elem_id e;
     classList := classList e;
     attributes := attributes e;
     href := href e;
     style := {| display := js "none"; visibility := [] |};
     offsetParent_is_null := true;
     boundingClientRect := {| width := 0; height := 0 |};
     computedStyle := Some {| display := js "none"; visibility := js "visible" |} |}.

Definition page (body : list node) : window :=
  {| location_href := js "https://example.com/";
     document_title := js "Example";
     document_childNodes :=
       [ElementNode (tag "HTML" [] []) [ElementNode (tag "BODY" [] []) body]];
     hasTreeWalker := true |}.

(** [<article style="display: none">This article is hidden from the reader.</article>] *)
Definition hidden_article : window :=
  page [ ElementNode (hidden (tag "ARTICLE" [] []))
           [TextNode (js "This article is hidden from the reader.")] ].

(** [<script id="content" type="application/json">{"user":"alice","token":"secret"}</script>] *)
Definition json_script : element_data :=
  {| tagName := js "SCRIPT";
     elem_id := js "content";
     classList := [];
     attributes := [(js "id", js "content"); (js "type", js "application/json")];
     href := None;
     style := {| display := []; visibility := [] |};
     offsetParent_is_null := true;
     boundingClientRect := {| width := 0; height := 0 |};
     computedStyle := Some {| display := js "none"; visibility := js "visible" |} |}.

Definition json_text : jsstring :=
  [123; 34] ++ js "user" ++ [34; 58; 34] ++ js "alice" ++ [34; 44; 34]
  ++ js "token" ++ [34; 58; 34] ++ js "secret" ++ [34; 125].

Definition script_page : window := page [ElementNode json_script [TextNode json_text]].

(** The [script] element of [script_page], as a reference. *)
Definition script_element : Element :=
  {| self := json_script;
     childNodes := [TextNode json_text];
     parents :=
       [ (tag "BODY" [] [], [ElementNode json_script [TextNode json_text]]);
         (tag "HTML" [] [],
          [ElementNode (tag "BODY" [] []) [ElementNode json_script [TextNode json_text]]]) ];
     isConnected := true |}.

(** A Hacker News story row whose title is "Hi" and no comment. *)
Definition short_title : window :=
  page [ ElementNode (tag "TR" ["athing"] [])
           [ ElementNode (tag "TD" [] [])
               [ ElementNode (tag "SPAN" ["titleline"] [])
                   [ ElementNode (tag "A" [] []) [TextNode (js "Hi")] ] ] ] ].

(** [<article>Short post</article>]: ten characters, no tweet markup. *)
Definition short_article : window :=
  page [ ElementNode (tag "ARTICLE" [] []) [TextNode (js "Short post")] ].

(** [<article>Short</article><p>...</p>] with a paragraph of 57 characters. *)
Definition short_article_long_paragraph : window :=
  page [ ElementNode (tag "ARTICLE" [] []) [TextNode (js "Short")];
         ElementNode (tag "P" [] [])
           [TextNode (js "A paragraph that is comfortably longer than fifty chars.")] ].

(** Scenario A of the specification: an [article] and a [div.content], sixty
    characters each. *)
Definition sixty_a : jsstring :=
  js "This article paragraph holds exactly sixty characters, yes!!".
Definition sixty_b : jsstring :=
  js "This content division holds exactly sixty characters too!!!!".

Definition scenario_A : window :=
  page [ ElementNode (tag "ARTICLE" [] [])
           [ElementNode (tag "P" [] []) [TextNode sixty_a]];
         ElementNode (tag "DIV" ["content"] [])
           [ElementNode (tag "P" [] []) [TextNode sixty_b]] ].

(** Scenario B: two [[slot="comment"]] elements, the first hidden by its
    inline style, and one [[slot="text-body"]]. *)
Definition scenario_B : window :=
  page [ ElementNode (hidden (tag "DIV" [] [("slot", "comment")]))
           [TextNode (js "A hidden comment of thirty....")];
         ElementNode (tag "DIV" [] [("slot", "comment")])
           [TextNode (js "A visible comment, 30 chars...")];
         ElementNode (tag "DIV" [] [("slot", "text-body")])
           [TextNode (js "The body of the post, forty characters..")] ].

(** Scenario C: no comment row, one story row titled "An Interesting Story". *)
Definition scenario_C : window :=
  page [ ElementNode (tag "TR" ["athing"] [])
           [ ElementNode (tag "TD" [] [])
               [ ElementNode (tag "SPAN" ["titleline"] [])
                   [ ElementNode (tag "A" [] [])
                       [TextNode (js "An Interesting Story")] ] ] ] ].

(** [<div>Visible <script>hidden()</script><span> text </span><style>.x{}</style> end</div>],
    attached to a document. *)
Definition mixed : Element :=
  {| self := tag "DIV" [] [];
     childNodes :=
       [ TextNode (js "Visible ");
         ElementNode (tag "SCRIPT" [] []) [TextNode (js "hidden()")];
         ElementNode (tag "SPAN" [] []) [TextNode (js " text ")];
         ElementNode (tag "STYLE" [] []) [TextNode (js ".x{}")];
         TextNode (js " end") ];
     parents := [(tag "BODY" [] [], []); (tag "HTML" [] [], [])];
     isConnected := true |}.

End Examples.

(** ** Two sentences of the specification, as they are worded *)

(** "Every strategy enforces a minimum length threshold before admitting an
    item": no item at or below the threshold of its strategy (20 for the
    generic strategy, 10 for Reddit and Hacker News, 5 for Twitter). *)
Definition length_threshold_claim : Prop :=
  forall includeHtml w textCache, cache_ok textCache ->
    (forall it, it ∈ items (GenericExtractor.extract includeHtml w textCache).1 ->
       (20 < length (textContent it))%nat) /\
    (forall it, it ∈ items (RedditExtractor.extract includeHtml w textCache).1 ->
       (10 < length (textContent it))%nat) /\
    (forall it, it ∈ items (TwitterExtractor.extract includeHtml w textCache).1 ->
       (5 < length (textContent it))%nat) /\
    (forall it, it ∈ items (HackerNewsExtractor.extract includeHtml w textCache).1 ->
       (10 < length (textContent it))%nat).

(** "If the primary selector groups produced zero items, fall back to a
    broader selector under the same visibility/length filtering": with no
    item from the primary pass, the items are those of the broader selector
    admitted by the gate of the primary pass. *)
Definition fallback_claim : Prop :=
  forall includeHtml w textCache, cache_ok textCache ->
    ((TwitterExtractor.primary includeHtml w textCache).1 = [] ->
     items (TwitterExtractor.extract includeHtml w textCache).1
     = flat_map (Pure.tweet_admit includeHtml)
         (querySelectorAll w (Compound [ByTag (js "article")]))) /\
    (flat_map (Pure.generic_admit includeHtml)
       (firstMatching w GenericExtractor.contentSelectors) = [] ->
     items (GenericExtractor.extract includeHtml w textCache).1
     = flat_map (Pure.generic_admit includeHtml)
         (querySelectorAll w (Compound [ByTag (js "p")]))).

(** ** The id hash, as the specification words it *)

(** [h = (h*31 + c) mod 2^32], kept in the signed 32-bit range. *)
Definition rolling_hash (s : jsstring) : Z :=
  fold_left (fun h c => toInt32 (h * 31 + Z.of_N c)%Z) s 0%Z.

(** The same sum without truncation. *)
Definition poly31 (s : jsstring) : Z :=
  fold_left (fun h c => (h * 31 + Z.of_N c)%Z) s 0%Z.

(** ** The visibility decision list *)

(** The ordered rules of the specification: a condition and the verdict it
    forces; the first rule whose condition holds wins, and an element that
    no rule catches is visible. *)
Definition inline_none (el : Element) : bool :=
  bool_decide (display (style (self el)) = js "none").

Definition inline_hidden (el : Element) : bool :=
  bool_decide (visibility (style (self el)) = js "hidden").

Definition zero_box (el : Element) : bool :=
  Qeq_bool (width (boundingClientRect (self el))) 0
  || Qeq_bool (height (boundingClientRect (self el))) 0.

Definition visibility_rules (el : Element) : list (bool * bool) :=
  [ (negb (isConnected el), false);
    (offsetParent_is_null (self el) && inline_none el, false);
    (inline_none el || inline_hidden el, false);
    (zero_box el, false);
    (match computedStyle (self el) with
     | Some computed =>
         bool_decide (display computed = js "none")
         || bool_decide (visibility computed = js "hidden")
     | None => false
     end, false);
    (bool_decide (computedStyle (self el) = None), true) ].

Fixpoint first_rule (rules : list (bool * bool)) (otherwise : bool) : bool :=
  match rules with
  | [] => otherwise
  | (condition, verdict) :: rest =>
      if condition then verdict else first_rule rest otherwise
  end.

(** * Definitions for the further properties *)

(** The cache after a sequence of [cleanText] calls. *)
Definition cache_after (texts : list jsstring) (textCache : gmap (list N) (list N))
  : gmap (list N) (list N) :=
  fold_left (fun c text => (cleanText text c).2) texts textCache.

(** The code units of a string that are not white space. *)
Definition ink (s : jsstring) : jsstring :=
  List.filter (fun c => negb (is_space c)) s.

Definition is_digit (c : N) : bool := (48 <=? c) && (c <=? 57).

(** The hash of [generateId] before [Math.abs]. *)
Definition hash_of (content : jsstring) : Z := fold_left hash_step content 0%Z.

(** An element reference with another value of [offsetParent]. *)
Definition with_offsetParent (null : bool) (el : Element) : Element :=
  {| self :=
       {| tagName := tagName (self el);
          elem_id := elem_id (self el);
          classList := classList (self el);
          attributes := attributes (self el);
          href := href (self el);
          style := style (self el);
          offsetParent_is_null := null;
          boundingClientRect := boundingClientRect (self el);
          computedStyle := computedStyle (self el) |};
     childNodes := childNodes el;
     parents := parents el;
     isConnected := isConnected el |}.

(** The same element with other child nodes. *)
Definition with_childNodes (kids : list node) (el : Element) : Element :=
  {| self := self el;
     childNodes := kids;
     parents := parents el;
     isConnected := isConnected el |}.

(** The same page in a host with or without [document.createTreeWalker]. *)
Definition with_treeWalker (available : bool) (w : window) : window :=
  {| location_href := location_href w;
     document_title := document_title w;
     document_childNodes := document_childNodes w;
     hasTreeWalker := available |}.

(** An item without its markup snapshot. *)
Definition without_html (it : ContentItem) : ContentItem :=
  {| item_id := item_id it;
     element := element it;
     URL := URL it;
     textContent := textContent it;
     htmlContent := None;
     type := type it;
     selected := selected it |}.

(** What every item of every strategy is built with. *)
Definition fresh_item (includeHtml : bool) (it : ContentItem) : Prop :=
  item_id it = generateId (textContent it) /\
  selected it = false /\
  (htmlContent it = None <-> includeHtml = false).

(** A result with the markup snapshots of its items taken away. *)
Definition Content_without_html (c : Content) : Content :=
  {| pageURL := pageURL c;
     title := title c;
     items := without_html <$> items c |}.

(** Items of one kind made from some of the candidates, one each at most and
    in the order of the candidates. *)
Definition drawn_from (kind : item_type) (candidates : list Element)
  (its : list ContentItem) : Prop :=
  Forall (fun it => type it = kind) its /\
  (element <$> its) `sublist_of` candidates.

(** An item's text is never empty and is in normal form. *)
Definition readable (it : ContentItem) : Prop :=
  textContent it <> [] /\ cleaned (textContent it) = textContent it.


(** * [UIManager] ([ui-manager.ts]) *)

(** The manager works on shared objects: the items it is given are the
    caller's objects and it writes their [selected] field; its [Map] is keyed
    by element, hence by identity; the check boxes are elements it makes.
    Objects are therefore known by reference, and the state holds what each
    reference stands for. *)
Module UIManager.

Abbreviation ref := nat.

(** The two fields of a [ContentItem] the manager reads: [element], which may
    be missing, and [selected], which it also writes. *)
Record item_object := {
  item_element : option ref;
  item_selected : bool
}.

(** The declarations of a [style] attribute: property, value, and whether the
    declaration is [!important]. *)
Abbreviation declarations := (gmap (list N) (list N * bool)).

(** A [div] made by [createCheckbox].  A listener is known by the item its
    closure holds. *)
Record div_element := {
  div_style : declarations;
  div_innerHTML : jsstring;
  click_listeners : list ref;
  hover_listeners : list ref
}.

Record ClientRect := { rect_top : Q; rect_left : Q }.

(** [CheckboxStyling] ([types.ts]); the three functions without argument are
    taken to return the same text at every call. *)
Record CheckboxStyling := {
  getDefaultStyles : jsstring;
  getSelectedStyles : jsstring;
  getHoverStyles : jsstring;
  getPositioningStyles : ClientRect -> jsstring * jsstring
}.

(** What the page and the browser provide: the parser behind the [cssText]
    setter, whether a value is valid for a property, the text of a number,
    the box of an element and the scroll offsets.  Numbers are rationals, as
    for the boxes above. *)
Record host := {
  parse : jsstring -> declarations;
  accepts : jsstring -> jsstring -> bool;
  Number_toString : Q -> jsstring;
  getBoundingClientRect : ref -> ClientRect;
  pageYOffset : Q;
  pageXOffset : Q;
  scrollTop : Q;
  scrollLeft : Q
}.

(** [objects]: the items; [elements] and [created]: the [div]s made so far;
    [body]: those of them that are children of [document.body], in order;
    [checkboxes]: the [Map], in insertion order; [listeners]: the callbacks
    given to [on]; [calls]: the calls of these callbacks, with their
    argument. *)
Record state := {
  objects : ref -> item_object;
  elements : ref -> div_element;
  created : nat;
  body : list ref;
  checkboxes : list (ref * (ref * ref));
  listeners : list nat;
  calls : list (nat * list ref)
}.

(** Writing to the object behind a reference. *)
Definition store {V} (r : ref) (v : V) (f : ref -> V) : ref -> V :=
  fun r' => if decide (r' = r) then v else f r'.

Definition set_selected (item : ref) (selected : bool) (s : state) : state :=
  {| objects := store item {| item_element := item_element (objects s item);
                             item_selected := selected |} (objects s);
     elements := elements s;
     created := created s;
     body := body s;
     checkboxes := checkboxes s;
     listeners := listeners s;
     calls := calls s |}.

Definition update_div (checkbox : ref) (f : div_element -> div_element) (s : state)
  : state :=
  {| objects := objects s;
     elements := store checkbox (f (elements s checkbox)) (elements s);
     created := created s;
     body := body s;
     checkboxes := checkboxes s;
     listeners := listeners s;
     calls := calls s |}.

Definition set_body (children : list ref) (s : state) : state :=
  {| objects := objects s;
     elements := elements s;
     created := created s;
     body := children;
     checkboxes := checkboxes s;
     listeners := listeners s;
     calls := calls s |}.

Definition set_checkboxes (map : list (ref * (ref * ref))) (s : state) : state :=
  {| objects := objects s;
     elements := elements s;
     created := created s;
     body := body s;
     checkboxes := map;
     listeners := listeners s;
     calls := calls s |}.

Definition with_style (f : declarations -> declarations) (d : div_element)
  : div_element :=
  {| div_style := f (div_style d);
     div_innerHTML := div_innerHTML d;
     click_listeners := click_listeners d;
     hover_listeners := hover_listeners d |}.

(** ** [Map] *)

Fixpoint Map_set {V} (key : ref) (value : V) (map : list (ref * V)) : list (ref * V) :=
  match map with
  | [] => [(key, value)]
  | (k, v) :: rest =>
      if decide (k = key) then (key, value) :: rest
      else (k, v) :: Map_set key value rest
  end.

Fixpoint Map_get {V} (key : ref) (map : list (ref * V)) : option V :=
  match map with
  | [] => None
  | (k, v) :: rest => if decide (k = key) then Some v else Map_get key rest
  end.

(** ** [CSSStyleDeclaration] *)

(** [style.property] *)
Definition getPropertyValue (property : jsstring) (style : declarations) : jsstring :=
  match style !! property with
  | Some declaration => declaration.1
  | None => []
  end.

(** [style.setProperty(property, value, 'important')], for a value that is
    valid for the property. *)
Definition setProperty_important (property value : jsstring) (style : declarations)
  : declarations :=
  <[property := (value, true)]> style.

(** A non-empty string is truthy. *)
Definition truthy (s : jsstring) : bool := (0 <? length s)%nat.

(** [a || b] on numbers. *)
Definition or_number (a b : Q) : Q := if Qeq_bool a 0 then b else a.

(** ['✓'] *)
Definition check_mark : jsstring := [10003].

(** The template literal of [createCheckbox]. *)
Definition fallbackStyles : jsstring :=
  [LF] ++ join [LF]
    [ js "        position: absolute;";
      js "        width: 18px;";
      js "        height: 18px;";
      js "        border: 1px solid currentColor;";
      js "        border-radius: 3px;";
      js "        background: transparent;";
      js "        cursor: pointer;";
      js "        z-index: 9999;";
      js "        transition: all 0.2s ease;";
      js "        opacity: 0.5;" ]
  ++ [LF] ++ js "      ".

Section manager.
Variable h : host.
(** [this.styling], set by the constructor and never written again. *)
Variable styling : option CheckboxStyling.

(** [style.property = value]: an empty value removes the declaration, a value
    that is not valid for the property is ignored. *)
Definition assign (property value : jsstring) (style : declarations) : declarations :=
  if truthy value then
    if accepts h property value then <[property := (value, false)]> style else style
  else delete property style.

Definition applyStylesPreservingLayout (cssText : jsstring) (style : declarations)
  : declarations :=
  let savedTop := getPropertyValue (js "top") style in
  let savedLeft := getPropertyValue (js "left") style in
  let savedPosition := getPropertyValue (js "position") style in
  let style := parse h cssText in
  let style := if truthy savedTop then assign (js "top") savedTop style else style in
  let style := if truthy savedLeft then assign (js "left") savedLeft style else style in
  let style :=
    if truthy savedPosition then assign (js "position") savedPosition style
    else style in
  let style := setProperty_important (js "position") (js "absolute") style in
  let style := setProperty_important (js "display") (js "flex") style in
  let style := setProperty_important (js "align-items") (js "center") style in
  let style := setProperty_important (js "justify-content") (js "center") style in
  let style := setProperty_important (js "visibility") (js "visible") style in
  setProperty_important (js "opacity") (js "1") style.

Definition updateCheckboxVisual (selected : bool) (checkbox : div_element)
  : div_element :=
  if selected then
    {| div_style := <[js "font-size" := (js "12px", false)]> (div_style checkbox);
       div_innerHTML := check_mark;
       click_listeners := click_listeners checkbox;
       hover_listeners := hover_listeners checkbox |}
  else
    {| div_style := div_style checkbox;
       div_innerHTML := [];
       click_listeners := click_listeners checkbox;
       hover_listeners := hover_listeners checkbox |}.

Definition getSelectedItems (s : state) : list ref :=
  flat_map (fun entry : ref * (ref * ref) =>
              let item := entry.2.1 in
              if item_selected (objects s item) then [item] else [])
    (checkboxes s).

(** [this.eventEmitter.dispatchEvent(new CustomEvent('selectionChanged', {detail}))] *)
Definition dispatchEvent (detail : list ref) (s : state) : state :=
  {| objects := objects s;
     elements := elements s;
     created := created s;
     body := body s;
     checkboxes := checkboxes s;
     listeners := listeners s;
     calls := calls s ++ ((fun callback => (callback, detail)) <$> listeners s) |}.

Definition toggleSelection (item : ref) (s : state) : state :=
  let s := set_selected item (negb (item_selected (objects s item))) s in
  let selected := item_selected (objects s item) in
  let checkboxData :=
    match item_element (objects s item) with
    | Some el => Map_get el (checkboxes s)
    | None => None
    end in
  let s :=
    match checkboxData with
    | Some (_, checkboxEl) =>
        let s :=
          match styling with
          | Some styling =>
              let styles :=
                if selected then getSelectedStyles styling
                else getDefaultStyles styling in
              update_div checkboxEl (with_style (applyStylesPreservingLayout styles)) s
          | None => s
          end in
        update_div checkboxEl (updateCheckboxVisual selected) s
    | None => s
    end in
  dispatchEvent (getSelectedItems s) s.

(** [document.createElement('div')] *)
Definition createElement (s : state) : ref * state :=
  (created s,
   {| objects := objects s;
      elements := store (created s) {| div_style := ∅;
                                       div_innerHTML := [];
                                       click_listeners := [];
                                       hover_listeners := [] |} (elements s);
      created := S (created s);
      body := body s;
      checkboxes := checkboxes s;
      listeners := listeners s;
      calls := calls s |}).

Definition add_hover_listeners (item : ref) (checkbox : div_element) : div_element :=
  {| div_style := div_style checkbox;
     div_innerHTML := div_innerHTML checkbox;
     click_listeners := click_listeners checkbox;
     hover_listeners := hover_listeners checkbox ++ [item] |}.

Definition add_click_listener (item : ref) (checkbox : div_element) : div_element :=
  {| div_style := div_style checkbox;
     div_innerHTML := div_innerHTML checkbox;
     click_listeners := click_listeners checkbox ++ [item];
     hover_listeners := hover_listeners checkbox |}.

Definition createCheckbox (item : ref) (s : state) : ref * state :=
  let (checkbox, s) := createElement s in
  let s :=
    match styling with
    | Some styling =>
        update_div checkbox
          (with_style (applyStylesPreservingLayout (getDefaultStyles styling))) s
    | None =>
        update_div checkbox
          (with_style (fun _ =>
             setProperty_important (js "justify-content") (js "center")
               (setProperty_important (js "align-items") (js "center")
                  (setProperty_important (js "display") (js "flex")
                     (parse h fallbackStyles))))) s
    end in
  let s := update_div checkbox
             (updateCheckboxVisual (item_selected (objects s item))) s in
  let s :=
    match styling with
    | Some _ => update_div checkbox (add_hover_listeners item) s
    | None => s
    end in
  (checkbox, s).

(** [document.body.appendChild(checkbox)]: a child is first taken from where
    it is. *)
Definition appendChild (checkbox : ref) (s : state) : state :=
  set_body (List.filter (fun child => negb (child =? checkbox)%nat) (body s) ++ [checkbox]) s.

(** [checkboxEl.parentNode.removeChild(checkboxEl)], when there is a parent. *)
Definition removeChild (checkbox : ref) (s : state) : state :=
  set_body (List.filter (fun child => negb (child =? checkbox)%nat) (body s)) s.

Definition positionCheckbox (checkbox : ref) (targetElement : option ref) (s : state)
  : state :=
  match targetElement with
  | None => s
  | Some targetElement =>
      let rect := getBoundingClientRect h targetElement in
      let s :=
        match styling with
        | Some styling =>
            let position := getPositioningStyles styling rect in
            let s := update_div checkbox (with_style (assign (js "top") position.1)) s in
            update_div checkbox (with_style (assign (js "left") position.2)) s
        | None =>
            let scrollTop := or_number (pageYOffset h) (or_number (scrollTop h) 0) in
            let scrollLeft := or_number (pageXOffset h) (or_number (scrollLeft h) 0) in
            let s :=
              update_div checkbox
                (with_style
                   (assign (js "top")
                      (Number_toString h (rect_top rect + scrollTop - 5)%Q ++ js "px")))
                s in
            update_div checkbox
              (with_style
                 (assign (js "left")
                    (Number_toString h (rect_left rect + scrollLeft - 25)%Q ++ js "px")))
              s
        end in
      appendChild checkbox s
  end.

Definition destroy (s : state) : state :=
  let s := fold_left (fun s (entry : ref * (ref * ref)) => removeChild entry.2.2 s)
             (checkboxes s) s in
  set_checkboxes [] s.

(** The body of the [items.forEach] of [displayCheckboxes]. *)
Definition display (s : state) (item : ref) : state :=
  match item_element (objects s item) with
  | None => s
  | Some el =>
      let (checkbox, s) := createCheckbox item s in
      let s := positionCheckbox checkbox (Some el) s in
      let s := set_checkboxes (Map_set el (item, checkbox) (checkboxes s)) s in
      update_div checkbox (add_click_listener item) s
  end.

Definition displayCheckboxes (items : list ref) (s : state) : state :=
  fold_left display items (destroy s).

(** [on('selectionChanged', callback)] *)
Definition on (callback : nat) (s : state) : state :=
  {| objects := objects s;
     elements := elements s;
     created := created s;
     body := body s;
     checkboxes := checkboxes s;
     listeners := listeners s ++ [callback];
     calls := calls s |}.

(** ** What the reader does *)

(** A click on a check box runs its click listeners. *)
Definition click (checkbox : ref) (s : state) : state :=
  fold_left (fun s item => toggleSelection item s)
    (click_listeners (elements s checkbox)) s.

(** The pointer enters a check box. *)
Definition mouseenter (checkbox : ref) (s : state) : state :=
  match styling with
  | Some styling =>
      fold_left
        (fun s item =>
           let s := update_div checkbox
                      (with_style (applyStylesPreservingLayout (getHoverStyles styling)))
                      s in
           update_div checkbox (updateCheckboxVisual (item_selected (objects s item))) s)
        (hover_listeners (elements s checkbox)) s
  | None => s
  end.

(** The pointer leaves a check box. *)
Definition mouseleave (checkbox : ref) (s : state) : state :=
  match styling with
  | Some styling =>
      fold_left
        (fun s item =>
           let styles :=
             if item_selected (objects s item) then getSelectedStyles styling
             else getDefaultStyles styling in
           let s := update_div checkbox
                      (with_style (applyStylesPreservingLayout styles)) s in
           update_div checkbox (updateCheckboxVisual (item_selected (objects s item))) s)
        (hover_listeners (elements s checkbox)) s
  | None => s
  end.

End manager.

(** ** States of interest *)

(** What [toggleSelection] relies on: every entry of the [Map] is filed under
    the element of its item, its check box shows the mark exactly when the
    item is selected, and its listeners are about that item: one for a
    click, none or more for the pointer; no two entries share a key or a
    check box. *)
Definition shown (s : state) : Prop :=
  NoDup (checkboxes s).*1 /\
  NoDup ((fun entry : ref * (ref * ref) => entry.2.2) <$> checkboxes s) /\
  Forall (fun entry : ref * (ref * ref) =>
            item_element (objects s entry.2.1) = Some entry.1 /\
            div_innerHTML (elements s entry.2.2)
            = (if item_selected (objects s entry.2.1) then check_mark else []) /\
            click_listeners (elements s entry.2.2) = [entry.2.1] /\
            Forall (fun item => item = entry.2.1)
              (hover_listeners (elements s entry.2.2)))
    (checkboxes s).

(** No [div] is known that has not been made yet. *)
Definition well_formed (s : state) : Prop :=
  Forall (fun child => (child < created s)%nat) (body s) /\
  Forall (fun entry : ref * (ref * ref) => (entry.2.2 < created s)%nat) (checkboxes s).

(** The elements of the items that have one, with their item. *)
Definition targets (s : state) (items : list ref) : list (ref * ref) :=
  flat_map (fun item => match item_element (objects s item) with
                        | Some el => [(el, item)]
                        | None => []
                        end) items.

(** A page whose style parser knows nothing, and a manager just made on it,
    where item [n] is about element [n] and is not selected. *)
Definition plain_host : host :=
  {| parse := fun _ => ∅;
     accepts := fun _ _ => true;
     Number_toString := fun _ => js "0";
     getBoundingClientRect := fun _ => {| rect_top := 0; rect_left := 0 |};
     pageYOffset := 0;
     pageXOffset := 0;
     scrollTop := 0;
     scrollLeft := 0 |}.

Definition fresh : state :=
  {| objects := fun n => {| item_element := Some n; item_selected := false |};
     elements := fun _ => {| div_style := ∅; div_innerHTML := [];
                             click_listeners := []; hover_listeners := [] |};
     created := 0;
     body := [];
     checkboxes := [];
     listeners := [];
     calls := [] |}.

(** The same manager after [displayCheckboxes] of items 0 and 1, and a style
    with a place. *)
Definition two_on_display : state := displayCheckboxes plain_host None [0; 1]%nat fresh.

Definition placed : declarations :=
  {[ js "top" := (js "10px", false); js "left" := (js "20px", false) ]}.

(** A page whose style parser reads every text as one [background]
    declaration, a styling whose three texts differ, and the manager made
    with that styling after [displayCheckboxes] of items 0 and 1. *)
Definition tint_host : host :=
  {| parse := fun cssText => {[ js "background" := (cssText, false) ]};
     accepts := fun _ _ => true;
     Number_toString := fun _ => js "0";
     getBoundingClientRect := fun _ => {| rect_top := 0; rect_left := 0 |};
     pageYOffset := 0;
     pageXOffset := 0;
     scrollTop := 0;
     scrollLeft := 0 |}.

Definition tints : CheckboxStyling :=
  {| getDefaultStyles := js "white";
     getSelectedStyles := js "green";
     getHoverStyles := js "yellow";
     getPositioningStyles := fun _ => (js "10px", js "20px") |}.

Definition two_styled_on_display : state :=
  displayCheckboxes tint_host (Some tints) [0; 1]%nat fresh.

End UIManager.


(** * Properties *)

#[local] Arguments N.eqb : simpl never.
#[local] Arguments N.leb : simpl never.

(** ** Character classes *)

Lemma is_blank_space c : is_blank c = true -> is_space c = true.
Proof.
  unfold is_blank, SP, TAB. rewrite orb_true_iff, !N.eqb_eq.
  intros [-> | ->]; reflexivity.
Qed.

Lemma not_space_not_blank c : is_space c = false -> is_blank c = false.
Proof.
  intros H. destruct (is_blank c) eqn:E; [|done].
  apply is_blank_space in E. congruence.
Qed.

Lemma not_space_not_lf c : is_space c = false -> c ≠ LF.
Proof. intros H ->. discriminate H. Qed.

Lemma lf_not_blank : is_blank LF = false.
Proof. reflexivity. Qed.

(** ** The matcher on the two patterns *)

Lemma replace_from_skip re rep s : forall k,
  (k <= length s)%nat ->
  replace_from re rep k s = replace_from re rep 0 (drop k s).
Proof.
  induction s as [|x s IH]; intros [|k] Hk; simpl in *; try reflexivity; try lia.
  apply IH. lia.
Qed.

Lemma run_length_le p s : (run_length p s <= length s)%nat.
Proof. induction s as [|c r IH]; simpl; [lia|]. destruct (p c); simpl; lia. Qed.

Lemma drop_run_length p s : drop (run_length p s) s = skip_while p s.
Proof. induction s as [|c r IH]; simpl; [done|]. destruct (p c); simpl; done. Qed.

Lemma star_run p s : star p (fun _ => Some 0%nat) s = Some (run_length p s).
Proof.
  induction s as [|c r IH]; simpl; [done|].
  destruct (p c); [|done]. by rewrite IH.
Qed.

Lemma collapse_blanks_nil : collapse_blanks [] = [].
Proof. reflexivity. Qed.

Lemma collapse_blanks_cons c r :
  collapse_blanks (c :: r) =
  if is_blank c then SP :: collapse_blanks (skip_while is_blank r)
  else c :: collapse_blanks r.
Proof.
  unfold collapse_blanks, replace_all. simpl.
  destruct (is_blank c); [|done].
  change (match_here []) with (fun _ : list N => Some 0%nat).
  rewrite star_run. simpl.
  rewrite replace_from_skip by apply run_length_le.
  by rewrite drop_run_length.
Qed.

Lemma star_lf s :
  match star is_space (match_here [Atom (N.eqb LF) One]) s with
  | Some n => (n <= length s)%nat /\ rest_after_lf s = Some (drop n s)
  | None => rest_after_lf s = None
  end.
Proof.
  induction s as [|c r IH]; simpl; [done|].
  destruct (is_space c) eqn:Hc.
  - destruct (star is_space _ r) as [n|].
    + destruct IH as [Hn ->]. split; [lia|done].
    + rewrite IH. rewrite (N.eqb_sym c LF).
      destruct (LF =? c); simpl; [split; [lia|done]|done].
  - destruct (N.eqb_spec LF c) as [<-|]; [discriminate Hc|done].
Qed.

Lemma collapse_blank_lines_nil : collapse_blank_lines [] = [].
Proof. reflexivity. Qed.

Lemma collapse_blank_lines_cons c r :
  collapse_blank_lines (c :: r) =
  if c =? LF then
    match rest_after_lf r with
    | Some t => LF :: LF :: collapse_blank_lines t
    | None => LF :: collapse_blank_lines r
    end
  else c :: collapse_blank_lines r.
Proof.
  unfold collapse_blank_lines, replace_all. simpl.
  rewrite (N.eqb_sym c LF).
  destruct (N.eqb_spec LF c) as [<-|]; [|done].
  pose proof (star_lf r) as H.
  destruct (star is_space _ r) as [n|]; simpl.
  - destruct H as [Hn ->]. by rewrite replace_from_skip.
  - by rewrite H.
Qed.

(** ** Induction along the scan of each pass *)

Lemma skip_while_length p s : (length (skip_while p s) <= length s)%nat.
Proof. induction s as [|c r IH]; simpl; [lia|]. destruct (p c); simpl; lia. Qed.

Lemma rest_after_lf_split s t :
  rest_after_lf s = Some t ->
  exists ws, s = ws ++ LF :: t /\ Forall (fun x => is_space x = true) ws
             /\ rest_after_lf t = None.
Proof.
  revert t. induction s as [|c r IH]; intros t; simpl; [done|].
  destruct (is_space c) eqn:Hc; [|done].
  destruct (rest_after_lf r) as [t'|] eqn:Hr.
  - intros [= <-]. destruct (IH t' eq_refl) as (ws & -> & Hws & Ht).
    exists (c :: ws). repeat split; [|done]. by constructor.
  - destruct (N.eqb_spec c LF) as [->|]; [|done].
    intros [= <-]. exists []. by repeat split.
Qed.

Lemma rest_after_lf_length s t :
  rest_after_lf s = Some t -> (length t < length s)%nat.
Proof.
  intros (ws & -> & _)%rest_after_lf_split. rewrite length_app. simpl. lia.
Qed.

Lemma rest_after_lf_lf t :
  rest_after_lf (LF :: t) = Some (default t (rest_after_lf t)).
Proof. simpl. by destruct (rest_after_lf t). Qed.

Lemma blanks_ind (P : jsstring -> Prop) :
  P [] ->
  (forall c r, is_blank c = false -> P r -> P (c :: r)) ->
  (forall c r, is_blank c = true -> P (skip_while is_blank r) -> P (c :: r)) ->
  forall s, P s.
Proof.
  intros Hnil Hcopy Hrun s.
  assert (H : forall n s, (length s <= n)%nat -> P s); [|by apply (H (length s))].
  clear s. induction n as [|n IH]; intros [|c r] Hlen; simpl in *; try done; try lia.
  destruct (is_blank c) eqn:Hc.
  - apply Hrun; [done|]. apply IH. pose proof (skip_while_length is_blank r). lia.
  - apply Hcopy; [done|]. apply IH. lia.
Qed.

Lemma blank_lines_ind (P : jsstring -> Prop) :
  P [] ->
  (forall c r, c ≠ LF -> P r -> P (c :: r)) ->
  (forall r, rest_after_lf r = None -> P r -> P (LF :: r)) ->
  (forall r t, rest_after_lf r = Some t -> P t -> P (LF :: r)) ->
  forall s, P s.
Proof.
  intros Hnil Hcopy Hone Hrun s.
  assert (H : forall n s, (length s <= n)%nat -> P s); [|by apply (H (length s))].
  clear s. induction n as [|n IH]; intros [|c r] Hlen; simpl in *; try done; try lia.
  destruct (N.eq_dec c LF) as [->|Hc].
  - destruct (rest_after_lf r) as [t|] eqn:Hr.
    + apply (Hrun r t Hr). apply IH. apply rest_after_lf_length in Hr. lia.
    + apply Hone; [done|]. apply IH. lia.
  - apply Hcopy; [done|]. apply IH. lia.
Qed.

Lemma collapse_blanks_copy c r :
  is_blank c = false -> collapse_blanks (c :: r) = c :: collapse_blanks r.
Proof. intros H. by rewrite collapse_blanks_cons, H. Qed.

Lemma collapse_blanks_run c r :
  is_blank c = true ->
  collapse_blanks (c :: r) = SP :: collapse_blanks (skip_while is_blank r).
Proof. intros H. by rewrite collapse_blanks_cons, H. Qed.

Lemma collapse_blank_lines_copy c r :
  c ≠ LF -> collapse_blank_lines (c :: r) = c :: collapse_blank_lines r.
Proof.
  intros H. rewrite collapse_blank_lines_cons.
  by destruct (N.eqb_spec c LF).
Qed.

Lemma collapse_blank_lines_one r :
  rest_after_lf r = None ->
  collapse_blank_lines (LF :: r) = LF :: collapse_blank_lines r.
Proof. intros H. by rewrite collapse_blank_lines_cons, H. Qed.

Lemma collapse_blank_lines_run r t :
  rest_after_lf r = Some t ->
  collapse_blank_lines (LF :: r) = LF :: LF :: collapse_blank_lines t.
Proof. intros H. by rewrite collapse_blank_lines_cons, H. Qed.

(** ** Normal form of the first pass *)

Lemma skip_while_head r :
  head (is_blank <$> skip_while is_blank r) ≠ Some true.
Proof.
  induction r as [|c r IH]; simpl; [done|].
  destruct (is_blank c) eqn:Hc; [done|]. simpl. rewrite Hc. done.
Qed.

Lemma skip_while_id r :
  head (is_blank <$> r) ≠ Some true -> skip_while is_blank r = r.
Proof. destruct r as [|c r]; simpl; [done|]. by destruct (is_blank c). Qed.

Lemma collapse_blanks_head s :
  head (is_blank <$> s) ≠ Some true ->
  head (is_blank <$> collapse_blanks s) ≠ Some true.
Proof.
  destruct s as [|c r]; [done|]. simpl.
  destruct (is_blank c) eqn:Hc; [done|]. intros _.
  rewrite collapse_blanks_copy by done. simpl. by rewrite Hc.
Qed.

Lemma collapse_blanks_squeezed s : squeezed (collapse_blanks s).
Proof.
  induction s as [|c r Hc IH|c r Hc IH] using blanks_ind.
  - exact I.
  - rewrite collapse_blanks_copy by done. split; [congruence|done].
  - rewrite collapse_blanks_run by done. split; [|done].
    intros _. split; [done|]. apply collapse_blanks_head, skip_while_head.
Qed.

Lemma squeezed_fixed s : squeezed s -> collapse_blanks s = s.
Proof.
  induction s as [|c r IH]; [done|]. intros [Hc Hr].
  rewrite collapse_blanks_cons. destruct (is_blank c).
  - destruct (Hc eq_refl) as [-> Hhead].
    rewrite skip_while_id by done. by rewrite IH.
  - by rewrite IH.
Qed.

Lemma squeezed_app_r a b : squeezed (a ++ b) -> squeezed b.
Proof. induction a as [|c a IH]; [done|]. intros [_ H]. by apply IH. Qed.

Lemma squeezed_app_l a b : squeezed (a ++ b) -> squeezed a.
Proof.
  induction a as [|c a IH]; [done|]. intros [Hc H]. split; [|by apply IH].
  intros Hb. destruct (Hc Hb) as [-> Hhead]. split; [done|].
  by destruct a.
Qed.

Lemma collapse_blank_lines_head s : head (collapse_blank_lines s) = head s.
Proof.
  destruct s as [|c r]; [done|]. rewrite collapse_blank_lines_cons.
  destruct (N.eqb_spec c LF) as [->|]; [|done].
  by destruct (rest_after_lf r).
Qed.

Lemma head_fmap {A B} (f : A -> B) (l : list A) : head (f <$> l) = f <$> head l.
Proof. by destruct l. Qed.

Lemma collapse_blank_lines_squeezed s :
  squeezed s -> squeezed (collapse_blank_lines s).
Proof.
  induction s as [|c r Hc IH|r Hr IH|r t Hr IH] using blank_lines_ind.
  - done.
  - intros [H Hs]. rewrite collapse_blank_lines_copy by done.
    split; [|by apply IH]. intros Hb. destruct (H Hb) as [-> Hhead].
    split; [done|]. rewrite head_fmap in *.
    by rewrite collapse_blank_lines_head.
  - intros [_ Hs]. rewrite collapse_blank_lines_one by done.
    split; [by rewrite lf_not_blank|by apply IH].
  - intros [_ Hs]. rewrite (collapse_blank_lines_run r t) by done.
    destruct (rest_after_lf_split _ _ Hr) as (ws & -> & _ & _).
    apply squeezed_app_r in Hs. destruct Hs as [_ Hs].
    split; [by rewrite lf_not_blank|]. split; [by rewrite lf_not_blank|by apply IH].
Qed.

(** ** Normal form of the second pass *)

Lemma rest_after_lf_stable s :
  rest_after_lf s = None -> rest_after_lf (collapse_blank_lines s) = None.
Proof.
  induction s as [|c r IH]; [done|]. simpl.
  destruct (is_space c) eqn:Hc.
  - destruct (rest_after_lf r); [done|].
    destruct (N.eqb_spec c LF) as [->|Hlf]; [done|]. intros _.
    rewrite collapse_blank_lines_copy by done. simpl.
    rewrite Hc, IH by done. by destruct (N.eqb_spec c LF).
  - intros _. rewrite collapse_blank_lines_copy by by apply not_space_not_lf.
    simpl. by rewrite Hc.
Qed.

Lemma collapse_blank_lines_settled s : settled (collapse_blank_lines s).
Proof.
  induction s as [|c r Hc IH|r Hr IH|r t Hr IH] using blank_lines_ind.
  - done.
  - rewrite collapse_blank_lines_copy by done. split; [done|done].
  - rewrite collapse_blank_lines_one by done. split; [|done].
    intros _. left. by apply rest_after_lf_stable.
  - rewrite (collapse_blank_lines_run r t) by done.
    destruct (rest_after_lf_split _ _ Hr) as (ws & _ & _ & Ht).
    apply rest_after_lf_stable in Ht.
    split; [|split; [|done]].
    + intros _. right. rewrite rest_after_lf_lf, Ht. done.
    + intros _. by left.
Qed.

Lemma settled_fixed s : settled s -> collapse_blank_lines s = s.
Proof.
  induction s as [|c r IH]; [done|]. intros [Hc Hr].
  destruct (N.eq_dec c LF) as [->|Hne].
  - destruct (Hc eq_refl) as [Hnone|[Hsome Hhead]].
    + rewrite collapse_blank_lines_one by done. by rewrite IH.
    + destruct r as [|d t]; [done|]. simpl in Hhead.
      injection Hhead as ->. simpl tail in Hsome.
      rewrite (collapse_blank_lines_run _ t) by done.
      specialize (IH Hr).
      assert (Ht : rest_after_lf t = None).
      { rewrite rest_after_lf_lf in Hsome.
        destruct (rest_after_lf t) as [u|] eqn:Hu; [|done].
        simpl in Hsome. injection Hsome as ->.
        apply rest_after_lf_length in Hu. lia. }
      rewrite collapse_blank_lines_one in IH by done.
      by injection IH as ->.
  - rewrite collapse_blank_lines_copy by done. by rewrite IH.
Qed.

Lemma settled_app_r a b : settled (a ++ b) -> settled b.
Proof. induction a as [|c a IH]; [done|]. intros [_ H]. by apply IH. Qed.

Lemma rest_after_lf_app_some a b t :
  rest_after_lf a = Some t -> is_Some (rest_after_lf (a ++ b)).
Proof.
  revert t. induction a as [|c a IH]; intros t; simpl; [done|].
  destruct (is_space c); [|done].
  destruct (rest_after_lf a) as [u|].
  - intros _. destruct (IH u eq_refl) as [v ->]. by eexists.
  - destruct (N.eqb_spec c LF); [|done]. intros _.
    destruct (rest_after_lf (a ++ b)); by eexists.
Qed.

Lemma rest_after_lf_app_none a b :
  rest_after_lf (a ++ b) = None -> rest_after_lf a = None.
Proof.
  intros H. destruct (rest_after_lf a) as [t|] eqn:Ha; [|done].
  destruct (rest_after_lf_app_some a b t Ha) as [v Hv]. congruence.
Qed.

Lemma settled_app_l a b : settled (a ++ b) -> settled a.
Proof.
  induction a as [|c a IH]; [done|]. intros [Hc H]. split; [|by apply IH].
  intros Hlf. destruct (Hc Hlf) as [Hnone|[Hsome Hhead]].
  - left. by apply rest_after_lf_app_none in Hnone.
  - destruct a as [|d a']; [by left|]. right.
    simpl in Hhead. injection Hhead as ->. simpl tail in *.
    split; [|done].
    change ((LF :: a') ++ b) with (LF :: (a' ++ b)) in Hsome.
    rewrite rest_after_lf_lf in Hsome. rewrite rest_after_lf_lf.
    destruct (rest_after_lf (a' ++ b)) as [u|] eqn:Hu.
    + simpl in Hsome. injection Hsome as ->.
      apply rest_after_lf_length in Hu. lia.
    + by rewrite (rest_after_lf_app_none _ _ Hu).
Qed.

(** ** Trimming *)

Lemma trimStart_split s :
  exists w, s = w ++ trimStart s /\ Forall (fun x => is_space x = true) w.
Proof.
  induction s as [|c r (w & Hr & Hw)]; [by exists []|]. simpl.
  destruct (is_space c) eqn:Hc.
  - exists (c :: w). split; [by rewrite Hr at 1|by constructor].
  - by exists [].
Qed.

Lemma trimStart_app a x b :
  is_space x = false -> trimStart (a ++ x :: b) = trimStart a ++ x :: b.
Proof.
  intros Hx. induction a as [|c a IH]; simpl; [by rewrite Hx|].
  by destruct (is_space c).
Qed.

Lemma trimStart_all s : Forall (fun x => is_space x = true) s -> trimStart s = [].
Proof. induction 1 as [|c r Hc _ IH]; [done|]. simpl. by rewrite Hc. Qed.

Lemma trimStart_head s : head (is_space <$> trimStart s) ≠ Some true.
Proof.
  induction s as [|c r IH]; [done|]. simpl.
  destruct (is_space c) eqn:Hc; [done|]. simpl. by rewrite Hc.
Qed.

Lemma trimEnd_split s :
  exists w, s = trimEnd s ++ w /\ Forall (fun x => is_space x = true) w.
Proof.
  destruct (trimStart_split (rev s)) as (w & Hs & Hw).
  exists (rev w). split; [|by apply Forall_rev].
  unfold trimEnd. rewrite <- rev_app_distr, <- Hs. by rewrite rev_involutive.
Qed.

Lemma trimEnd_cons x r :
  is_space x = false -> trimEnd (x :: r) = x :: trimEnd r.
Proof.
  intros Hx. unfold trimEnd. simpl rev.
  rewrite trimStart_app by done. by rewrite rev_app_distr.
Qed.

Lemma trimEnd_last s :
  trimEnd s = [] \/ exists r y, trimEnd s = r ++ [y] /\ is_space y = false.
Proof.
  unfold trimEnd. pose proof (trimStart_head (rev s)) as H.
  destruct (trimStart (rev s)) as [|y t]; [by left|]. right.
  exists (rev t), y. split; [done|]. simpl in H. by destruct (is_space y).
Qed.

Lemma trim_result s : trim s = [] \/ solid (trim s).
Proof.
  unfold trim. pose proof (trimStart_head s) as H.
  destruct (trimStart s) as [|x r]; [by left|]. right.
  assert (Hx : is_space x = false) by (simpl in H; by destruct (is_space x)).
  split.
  - rewrite trimEnd_cons by done. by eexists _, _.
  - destruct (trimEnd_last (x :: r)) as [Hnil|Hlast]; [|done].
    by rewrite trimEnd_cons in Hnil.
Qed.

Lemma trim_split s : trimmed_of s (trim s).
Proof.
  destruct (trimStart_split s) as (w1 & Hs1 & Hw1).
  destruct (trimEnd_split (trimStart s)) as (w2 & Hs2 & Hw2).
  exists w1, w2. split; [|split; [done|split; [done|apply trim_result]]].
  unfold trim. by rewrite <- Hs2.
Qed.

Lemma trim_solid s : solid s -> trim s = s.
Proof.
  intros [(x & r & -> & Hx) (r' & y & Hr & Hy)]. unfold trim. simpl.
  rewrite Hx, Hr. unfold trimEnd. rewrite rev_app_distr. simpl.
  rewrite Hy. simpl. by rewrite rev_involutive.
Qed.

Lemma trim_trim s : trim (trim s) = trim s.
Proof.
  destruct (trim_result s) as [->|H]; [done|by apply trim_solid].
Qed.

Lemma trim_all s : Forall (fun x => is_space x = true) s -> trim s = [].
Proof. intros H. unfold trim. by rewrite trimStart_all. Qed.

Lemma solid_head s : solid s -> exists x r, s = x :: r /\ is_space x = false.
Proof. by intros [H _]. Qed.

Lemma solid_last s : solid s -> exists r y, s = r ++ [y] /\ is_space y = false.
Proof. by intros [_ H]. Qed.

Lemma solid_nonempty s : solid s -> s ≠ [].
Proof. by intros [(x & r & -> & _) _]. Qed.

(** ** Both passes work run by run *)

Lemma skip_while_app r x b :
  is_blank x = false ->
  skip_while is_blank (r ++ x :: b) = skip_while is_blank r ++ x :: b.
Proof.
  intros Hx. induction r as [|c r IH]; simpl; [by rewrite Hx|].
  by destruct (is_blank c).
Qed.

Lemma collapse_blanks_app a x b :
  is_blank x = false ->
  collapse_blanks (a ++ x :: b) = collapse_blanks a ++ x :: collapse_blanks b.
Proof.
  intros Hx.
  induction a as [|c r Hc IH|c r Hc IH] using blanks_ind; simpl.
  - by rewrite collapse_blanks_copy.
  - by rewrite !collapse_blanks_copy, IH.
  - by rewrite !collapse_blanks_run, skip_while_app, IH.
Qed.

Lemma rest_after_lf_app r x b :
  is_space x = false ->
  rest_after_lf (r ++ x :: b) = (fun t => t ++ x :: b) <$> rest_after_lf r.
Proof.
  intros Hx. induction r as [|c r IH]; simpl; [by rewrite Hx|].
  destruct (is_space c); [|done]. rewrite IH.
  destruct (rest_after_lf r); simpl; [done|].
  by destruct (c =? LF).
Qed.

Lemma collapse_blank_lines_app a x b :
  is_space x = false ->
  collapse_blank_lines (a ++ x :: b) =
  collapse_blank_lines a ++ x :: collapse_blank_lines b.
Proof.
  intros Hx. pose proof (not_space_not_lf x Hx) as Hlf.
  induction a as [|c r Hc IH|r Hr IH|r t Hr IH] using blank_lines_ind; simpl.
  - by rewrite collapse_blank_lines_copy.
  - by rewrite !collapse_blank_lines_copy, IH.
  - rewrite !collapse_blank_lines_one, IH; [done|done|].
    by rewrite rest_after_lf_app, Hr.
  - rewrite (collapse_blank_lines_run r t) by done.
    rewrite (collapse_blank_lines_run _ (t ++ x :: b)), IH; [done|].
    by rewrite rest_after_lf_app, Hr.
Qed.

Lemma cleaned_collapse s : cleaned s = trim (collapse s).
Proof. reflexivity. Qed.

Lemma collapse_squeezed s : squeezed (collapse s).
Proof. apply collapse_blank_lines_squeezed, collapse_blanks_squeezed. Qed.

Lemma collapse_settled s : settled (collapse s).
Proof. apply collapse_blank_lines_settled. Qed.

Lemma collapse_fixed s : squeezed s -> settled s -> collapse s = s.
Proof.
  intros H1 H2. unfold collapse. by rewrite squeezed_fixed, settled_fixed.
Qed.

Lemma collapse_collapse s : collapse (collapse s) = collapse s.
Proof. apply collapse_fixed; [apply collapse_squeezed|apply collapse_settled]. Qed.

Lemma collapse_snoc a y :
  is_space y = false -> collapse (a ++ [y]) = collapse a ++ [y].
Proof.
  intros Hy. unfold collapse.
  rewrite collapse_blanks_app by by apply not_space_not_blank.
  by rewrite collapse_blank_lines_app.
Qed.

Lemma collapse_cons x r :
  is_space x = false -> collapse (x :: r) = x :: collapse r.
Proof.
  intros Hx. unfold collapse.
  rewrite collapse_blanks_copy by by apply not_space_not_blank.
  by rewrite collapse_blank_lines_copy by by apply not_space_not_lf.
Qed.

Lemma collapse_solid s : solid s -> solid (collapse s).
Proof.
  intros [(x & r & Hs & Hx) (r' & y & Hs' & Hy)]. split.
  - rewrite Hs, collapse_cons by done. by eexists _, _.
  - rewrite Hs', collapse_snoc by done. by eexists _, _.
Qed.

Lemma cleaned_solid s : solid s -> cleaned s = collapse s.
Proof. intros H. rewrite cleaned_collapse. by apply trim_solid, collapse_solid. Qed.

(** A single space between two solid strings stays as it is. *)
Lemma collapse_sep p q :
  solid p -> solid q -> collapse (p ++ SP :: q) = collapse p ++ SP :: collapse q.
Proof.
  intros (r & y & -> & Hy)%solid_last (x & q' & -> & Hx)%solid_head.
  rewrite collapse_snoc by done.
  unfold collapse. rewrite <- !app_assoc. simpl.
  rewrite collapse_blanks_app by by apply not_space_not_blank.
  rewrite collapse_blanks_run by done. simpl.
  rewrite (not_space_not_blank x) by done.
  rewrite collapse_blank_lines_app by done.
  by rewrite (collapse_blank_lines_copy SP).
Qed.

(** ** The normal form is a fixed point *)

Lemma cleaned_fixed s : cleaned (cleaned s) = cleaned s.
Proof.
  rewrite !cleaned_collapse.
  destruct (trim_split (collapse s)) as (w1 & w2 & Hs & _).
  pose proof (collapse_squeezed s) as Hq. pose proof (collapse_settled s) as Ht.
  rewrite Hs in Hq, Ht.
  apply squeezed_app_r, squeezed_app_l in Hq.
  apply settled_app_r, settled_app_l in Ht.
  by rewrite collapse_fixed, trim_trim.
Qed.

Lemma skip_while_split p s :
  exists w, s = w ++ skip_while p s /\ Forall (fun x => p x = true) w.
Proof.
  induction s as [|c r (w & Hr & Hw)]; [by exists []|]. simpl.
  destruct (p c) eqn:Hc.
  - exists (c :: w). split; [by rewrite Hr at 1|by constructor].
  - by exists [].
Qed.

Lemma skip_while_all p run r :
  Forall (fun x => p x = true) run -> skip_while p (run ++ r) = skip_while p r.
Proof. induction 1 as [|c run Hc _ IH]; [done|]. simpl. by rewrite Hc. Qed.

Lemma collapse_blanks_Forall (P : N -> Prop) s :
  P SP -> Forall P s -> Forall P (collapse_blanks s).
Proof.
  intros Hsp.
  induction s as [|c r Hc IH|c r Hc IH] using blanks_ind; [done|..].
  - intros [? ?]%Forall_cons. rewrite collapse_blanks_copy by done.
    constructor; auto.
  - intros [_ Hr]%Forall_cons. rewrite collapse_blanks_run by done.
    constructor; [done|]. apply IH.
    destruct (skip_while_split is_blank r) as (w & Hw & _).
    rewrite Hw in Hr. by apply Forall_app in Hr as [_ ?].
Qed.

Lemma collapse_blank_lines_Forall (P : N -> Prop) s :
  Forall P s -> Forall P (collapse_blank_lines s).
Proof.
  induction s as [|c r Hc IH|r Hr IH|r t Hr IH] using blank_lines_ind; [done|..].
  - intros [? ?]%Forall_cons. rewrite collapse_blank_lines_copy by done.
    constructor; auto.
  - intros [? ?]%Forall_cons. rewrite collapse_blank_lines_one by done.
    constructor; auto.
  - intros [Hlf H]%Forall_cons. rewrite (collapse_blank_lines_run r t) by done.
    do 2 (constructor; [done|]). apply IH.
    destruct (rest_after_lf_split _ _ Hr) as (ws & -> & _).
    apply Forall_app in H as [_ H]. by apply Forall_cons in H as [_ ?].
Qed.

Lemma cleaned_all_space s :
  Forall (fun x => is_space x = true) s -> cleaned s = [].
Proof.
  intros H. rewrite cleaned_collapse. apply trim_all.
  by apply collapse_blank_lines_Forall, collapse_blanks_Forall.
Qed.

(** ** The two passes against their description *)

Lemma collapse_blanks_squeezes s : squeezes s (collapse_blanks s).
Proof.
  induction s as [|c r Hc IH|c r Hc IH] using blanks_ind.
  - constructor.
  - rewrite collapse_blanks_copy by done. by constructor.
  - rewrite collapse_blanks_run by done.
    destruct (skip_while_split is_blank r) as (run & Hr & Hrun).
    rewrite Hr at 1. constructor; try done. apply skip_while_head.
Qed.

Lemma squeezes_fun s a : squeezes s a -> a = collapse_blanks s.
Proof.
  induction 1 as [|c r r' Hc _ ->|c run r r' Hc Hrun Hhead _ ->]; [done|..].
  - by rewrite collapse_blanks_copy.
  - rewrite collapse_blanks_run by done.
    by rewrite skip_while_all, skip_while_id.
Qed.

Lemma rest_after_lf_run ws t :
  Forall (fun x => is_space x = true) ws -> rest_after_lf t = None ->
  rest_after_lf (ws ++ LF :: t) = Some t.
Proof.
  intros Hws Ht. induction Hws as [|c ws Hc _ IH]; simpl.
  - by rewrite Ht.
  - by rewrite Hc, IH.
Qed.

Lemma collapse_blank_lines_collapses s : collapses s (collapse_blank_lines s).
Proof.
  induction s as [|c r Hc IH|r Hr IH|r t Hr IH] using blank_lines_ind.
  - constructor.
  - rewrite collapse_blank_lines_copy by done. by constructor.
  - rewrite collapse_blank_lines_one by done. by constructor.
  - rewrite (collapse_blank_lines_run r t) by done.
    destruct (rest_after_lf_split _ _ Hr) as (ws & -> & Hws & Ht).
    by constructor.
Qed.

Lemma collapses_fun s a : collapses s a -> a = collapse_blank_lines s.
Proof.
  induction 1 as [|c r r' Hc _ ->|ws r r' Hws Hr _ ->]; [done|..].
  - destruct (N.eq_dec c LF) as [->|Hne].
    + by rewrite collapse_blank_lines_one by auto.
    + by rewrite collapse_blank_lines_copy.
  - by rewrite (collapse_blank_lines_run _ r) by by apply rest_after_lf_run.
Qed.

(** ** The cache is transparent *)

Lemma cache_ok_empty : cache_ok ∅.
Proof. intros text hit. by rewrite lookup_empty. Qed.

Lemma cache_ok_insert textCache text :
  cache_ok textCache -> cache_ok (<[text := cleaned text]> textCache).
Proof.
  intros H k v. rewrite lookup_insert. case_decide as Hk.
  - subst. by intros [= <-].
  - apply H.
Qed.

Lemma returns_cleanText text : returns (cleanText text) (fun r => r = cleaned text).
Proof.
  intros textCache Hok. unfold cleanText.
  destruct (textCache !! text) as [hit|] eqn:Hhit; simpl.
  - split; [by apply Hok|done].
  - split; [done|]. apply cache_ok_insert.
    case_decide; [apply cache_ok_empty|done].
Qed.

Lemma returns_ret {A} (a : A) (Q : A -> Prop) : Q a -> returns (mret a) Q.
Proof. intros H textCache Hok. by split. Qed.

Lemma returns_bind {A B} (m : M A) (f : A -> M B) (P : A -> Prop) (Q : B -> Prop) :
  returns m P -> (forall a, P a -> returns (f a) Q) -> returns (m ≫= f) Q.
Proof.
  intros Hm Hf textCache Hok. unfold mbind, M_bind.
  destruct (Hm textCache Hok) as [Ha Hok'].
  destruct (m textCache) as [a textCache']. by apply Hf.
Qed.

Lemma returns_mono {A} (m : M A) (P Q : A -> Prop) :
  returns m P -> (forall a, P a -> Q a) -> returns m Q.
Proof. intros Hm HPQ textCache Hok. destruct (Hm textCache Hok). auto. Qed.

Lemma returns_value {A} (m : M A) (Q : A -> Prop) textCache :
  returns m Q -> cache_ok textCache -> Q (m textCache).1.
Proof. intros Hm Hok. by destruct (Hm textCache Hok). Qed.

(** C8. For every string and every sound cache, [cleanText] returns the
    string obtained by replacing each run of space/tab characters by a single
    space (every other code unit, line feeds included, is kept), then
    collapsing each run of a line feed, optional white space and another
    line feed into exactly two line feeds, then trimming: the two passes have
    a result, any result of them trimmed is what [cleanText] returns, that
    value is the input of the third pass stripped of white space at both
    ends, and a string of white space only (the empty string included)
    normalises to the empty string.  The cache stays sound. *)
Theorem cleanText_normalises text textCache :
  cache_ok textCache ->
  (exists s1 s2, squeezes text s1 /\ collapses s1 s2) /\
  (forall s1 s2, squeezes text s1 -> collapses s1 s2 ->
     (cleanText text textCache).1 = trim s2 /\
     trimmed_of s2 (cleanText text textCache).1) /\
  (Forall (fun c => is_space c = true) text -> (cleanText text textCache).1 = []) /\
  cache_ok (cleanText text textCache).2.
Proof.
  intros Hok. destruct (returns_cleanText text textCache Hok) as [-> Hok'].
  split; [|split; [|split; [|done]]].
  - exists (collapse_blanks text), (collapse_blank_lines (collapse_blanks text)).
    split; [apply collapse_blanks_squeezes|apply collapse_blank_lines_collapses].
  - intros s1 s2 ->%squeezes_fun ->%collapses_fun.
    split; [done|apply trim_split].
  - apply cleaned_all_space.
Qed.

(** C9. Normalisation is idempotent: normalising the result of [cleanText]
    again, with the cache the first call left, returns it unchanged. *)
Theorem cleanText_idempotent text textCache :
  cache_ok textCache ->
  (cleanText (cleanText text textCache).1 (cleanText text textCache).2).1
  = (cleanText text textCache).1.
Proof.
  intros Hok. destruct (returns_cleanText text textCache Hok) as [-> Hok'].
  destruct (returns_cleanText (cleaned text) _ Hok') as [-> _].
  apply cleaned_fixed.
Qed.

(** ** The id hash *)

Lemma toInt32_range z : (- 2 ^ 31 <= toInt32 z < 2 ^ 31)%Z.
Proof.
  unfold toInt32. pose proof (Z.mod_pos_bound (z + 2 ^ 31) (2 ^ 32)). lia.
Qed.

Lemma toInt32_mod z : (toInt32 z mod 2 ^ 32 = z mod 2 ^ 32)%Z.
Proof.
  unfold toInt32. rewrite Zminus_mod_idemp_l. f_equal. lia.
Qed.

Lemma toInt32_cong a b :
  (a mod 2 ^ 32 = b mod 2 ^ 32)%Z -> toInt32 a = toInt32 b.
Proof.
  intros H. unfold toInt32.
  rewrite <- (Zplus_mod_idemp_l a), <- (Zplus_mod_idemp_l b). by rewrite H.
Qed.

Lemma hash_step_spec hash char :
  hash_step hash char = toInt32 (hash * 31 + Z.of_N char).
Proof.
  unfold hash_step, band, shl. rewrite Z.land_diag.
  apply toInt32_cong. rewrite Z.shiftl_mul_pow2 by lia.
  rewrite <- Zplus_mod_idemp_l, <- Zminus_mod_idemp_l, toInt32_mod.
  rewrite Zminus_mod_idemp_l.
  rewrite <- (Zminus_mod_idemp_l (_ * _)), <- (Zmult_mod_idemp_l (toInt32 hash)).
  rewrite toInt32_mod, Zmult_mod_idemp_l, Zminus_mod_idemp_l, Zplus_mod_idemp_l.
  f_equal. lia.
Qed.

Lemma fold_hash_step s h :
  fold_left hash_step s h
  = fold_left (fun h c => toInt32 (h * 31 + Z.of_N c)%Z) s h.
Proof.
  revert h. induction s as [|c r IH]; intros h; [done|]. simpl.
  by rewrite hash_step_spec, IH.
Qed.

Lemma rolling_hash_poly s h k :
  (h mod 2 ^ 32 = k mod 2 ^ 32)%Z ->
  (fold_left (fun h c => toInt32 (h * 31 + Z.of_N c)%Z) s h mod 2 ^ 32
   = fold_left (fun h c => (h * 31 + Z.of_N c)%Z) s k mod 2 ^ 32)%Z.
Proof.
  revert h k. induction s as [|c r IH]; intros h k Hhk; [done|]. simpl.
  apply IH. rewrite toInt32_mod.
  rewrite <- Zplus_mod_idemp_l, <- Zmult_mod_idemp_l, Hhk.
  by rewrite Zmult_mod_idemp_l, Zplus_mod_idemp_l.
Qed.

Lemma rolling_hash_range s : (- 2 ^ 31 <= rolling_hash s < 2 ^ 31)%Z.
Proof.
  unfold rolling_hash.
  assert (H : forall h, (- 2 ^ 31 <= h < 2 ^ 31)%Z ->
    (- 2 ^ 31 <= fold_left (fun h c => toInt32 (h * 31 + Z.of_N c)%Z) s h < 2 ^ 31)%Z).
  { induction s as [|c r IH]; intros h Hh; [done|]. simpl.
    apply IH, toInt32_range. }
  apply H. lia.
Qed.

(** C7. [generateId] returns the decimal digits of the absolute value of
    the rolling hash [h = ((h << 5) - h) + c] truncated to 32 bits at every
    character code, which is [h = h*31 + c] kept in the signed 32-bit range
    and congruent modulo 2^32 to the untruncated sum; the empty string maps
    to "0"; the id is a function of the string alone.  *)
Theorem generateId_rolling_hash s :
  generateId s = toString (Z.abs (rolling_hash s)) /\
  fold_left hash_step s 0%Z = rolling_hash s /\
  (rolling_hash s mod 2 ^ 32 = poly31 s mod 2 ^ 32)%Z /\
  (- 2 ^ 31 <= rolling_hash s < 2 ^ 31)%Z /\
  generateId [] = js "0" /\
  (forall t, t = s -> generateId t = generateId s).
Proof.
  split; [|split; [|split; [|split; [|split]]]].
  - unfold generateId. destruct s as [|c r]; [done|].
    change (length (c :: r) =? 0)%nat with false. cbv iota.
    by rewrite fold_hash_step.
  - apply fold_hash_step.
  - by apply rolling_hash_poly.
  - apply rolling_hash_range.
  - reflexivity.
  - by intros t ->.
Qed.

(** ** Visibility *)

(** C6. [isElementVisible] decides by the ordered rules of the
    specification, the first matching one winning: not connected, no;
    no layout box and inline [display: none], no; inline [display: none] or
    [visibility: hidden], no; a bounding box of zero width or height, no;
    computed [display: none] or [visibility: hidden], no; computed style not
    available, yes; otherwise yes. *)
Theorem isElementVisible_decision_list el :
  isElementVisible el = first_rule (visibility_rules el) true.
Proof.
  unfold isElementVisible, visibility_rules, inline_none, inline_hidden, zero_box.
  cbn [first_rule].
  destruct (isConnected el); cbn [negb]; [|done].
  destruct (_ && _); [done|].
  destruct (_ || _); [done|].
  destruct (_ || _); [done|].
  destruct (computedStyle (self el)) as [computed|].
  - rewrite (bool_decide_eq_false_2 (Some computed = None)) by done.
    by destruct (bool_decide (display computed = _)),
                (bool_decide (visibility computed = _)).
  - by rewrite (bool_decide_eq_true_2 (None = None)).
Qed.

(** ** Joining solid parts *)

Lemma join_cons sep p l : l ≠ [] -> join sep (p :: l) = p ++ sep ++ join sep l.
Proof. by destruct l. Qed.

Lemma join_app sep a b :
  a ≠ [] -> b ≠ [] -> join sep (a ++ b) = join sep a ++ sep ++ join sep b.
Proof.
  intros Ha Hb. induction a as [|p a IH]; [done|].
  destruct a as [|q a].
  - simpl app. by rewrite join_cons.
  - change ((p :: q :: a) ++ b) with (p :: ((q :: a) ++ b)).
    rewrite !join_cons, IH by done. by rewrite <- !app_assoc.
Qed.

Lemma join_solid l : Forall solid l -> l ≠ [] -> solid (join [SP] l).
Proof.
  induction 1 as [|p l Hp Hl IH]; [done|]. intros _.
  destruct l as [|q l]; [done|]. rewrite join_cons by done.
  destruct (IH ltac:(done)) as [_ (r & y & Hr & Hy)].
  destruct Hp as [(x & p' & -> & Hx) _]. split.
  - by eexists _, _.
  - exists ((x :: p') ++ [SP] ++ r), y. split; [|done].
    rewrite Hr. by rewrite <- !app_assoc.
Qed.

Lemma collapse_join l :
  Forall solid l -> collapse (join [SP] l) = join [SP] (collapse <$> l).
Proof.
  induction 1 as [|p l Hp Hl IH]; [done|].
  destruct l as [|q l]; [done|].
  change (join [SP] (p :: q :: l)) with (p ++ SP :: join [SP] (q :: l)).
  change (join [SP] (collapse <$> p :: q :: l))
    with (collapse p ++ SP :: join [SP] (collapse <$> q :: l)).
  rewrite <- IH. apply collapse_sep; [done|by apply join_solid].
Qed.

Lemma Forall_solid_collapse l : Forall solid l -> Forall solid (collapse <$> l).
Proof. intros H. apply Forall_fmap. eapply Forall_impl; [done|]. apply collapse_solid. Qed.

Lemma cleaned_join l :
  Forall solid l -> cleaned (join [SP] l) = join [SP] (collapse <$> l).
Proof.
  intros H. destruct l as [|p l]; [done|].
  rewrite cleaned_solid by by apply join_solid. by apply collapse_join.
Qed.

Lemma same_text_refl l : Forall solid l -> same_text l l.
Proof. by intros H. Qed.

Lemma same_text_app p1 f1 p2 f2 :
  same_text p1 f1 -> same_text p2 f2 -> same_text (p1 ++ p2) (f1 ++ f2).
Proof.
  intros (Hs1 & He1 & Hj1) (Hs2 & He2 & Hj2). split; [by apply Forall_app|].
  destruct (decide (p1 = [])) as [->|Hp1].
  { rewrite (proj1 He1 eq_refl). done. }
  destruct (decide (p2 = [])) as [->|Hp2].
  { rewrite (proj1 He2 eq_refl), !app_nil_r. done. }
  assert (f1 ≠ []) by (intros ?; by apply Hp1, He1).
  assert (f2 ≠ []) by (intros ?; by apply Hp2, He2).
  split.
  - split; intros [? ?]%app_eq_nil; done.
  - rewrite !fmap_app, !join_app, Hj1, Hj2; try done;
      by intros ?%fmap_nil_inv.
Qed.

Lemma same_text_child frags :
  Forall solid frags ->
  same_text
    (if (0 <? length (cleaned (join [SP] frags)))%nat
     then [cleaned (join [SP] frags)] else [])
    frags.
Proof.
  intros H. destruct frags as [|f frags]; [done|].
  rewrite cleaned_join by done.
  pose proof (join_solid _ (Forall_solid_collapse _ H) ltac:(done)) as Hsolid.
  destruct (solid_head _ Hsolid) as (x & r & Hxr & _).
  rewrite Hxr at 1. simpl length. change (0 <? S _)%nat with true. cbv iota.
  split; [by constructor|]. split; [done|].
  change (join [SP] (collapse <$> [join [SP] (collapse <$> f :: frags)]))
    with (collapse (join [SP] (collapse <$> f :: frags))).
  rewrite collapse_join by by apply Forall_solid_collapse.
  f_equal. rewrite <- list_fmap_compose. apply list_fmap_ext.
  intros _ s _. apply collapse_collapse.
Qed.

Lemma push_trimmed_solid data : Forall solid (push_trimmed data).
Proof.
  unfold push_trimmed. destruct (trim_result data) as [->|H]; [done|].
  destruct (0 <? _)%nat; [constructor; [done|constructor]|constructor].
Qed.

(** ** The recursive walk *)

Lemma node_nested_ind (P : node -> Prop) :
  (forall data, P (TextNode data)) ->
  (forall data, P (CommentNode data)) ->
  (forall e ks, Forall P ks -> P (ElementNode e ks)) ->
  forall n, P n.
Proof.
  intros Htext Hcomment Helem. fix IH 1.
  intros [data|data|e ks]; [apply Htext|apply Hcomment|].
  apply Helem. induction ks as [|k ks IHks]; constructor; [apply IH|apply IHks].
Qed.

Lemma fragments_of_solid n : Forall solid (fragments_of n).
Proof.
  induction n as [data|data|e ks IH] using node_nested_ind; simpl.
  - apply push_trimmed_solid.
  - done.
  - destruct (excluded e); [done|].
    induction IH as [|k ks Hk _ IHks]; [done|]. simpl. by apply Forall_app.
Qed.

Lemma fragments_solid nodes : Forall solid (fragments nodes).
Proof.
  induction nodes as [|n nodes IH]; [done|]. simpl.
  apply Forall_app. split; [apply fragments_of_solid|done].
Qed.

Lemma returns_recursiveParts recurse nodes :
  Forall (fun n => forall e ks, n = ElementNode e ks ->
            returns (recurse n) (fun r => r = collectText ks)) nodes ->
  returns (recursiveParts recurse nodes)
    (fun parts => same_text parts (fragments nodes)).
Proof.
  induction 1 as [|n nodes Hn _ IH]; simpl.
  { apply returns_ret. by apply same_text_refl. }
  eapply returns_bind with (P := fun pushed => same_text pushed (fragments_of n)).
  - destruct n as [data|data|e ks]; simpl.
    + apply returns_ret, same_text_refl, push_trimmed_solid.
    + by apply returns_ret.
    + destruct (excluded e); [by apply returns_ret|].
      eapply returns_bind; [apply (Hn e ks eq_refl)|].
      intros childText ->. apply returns_ret.
      apply same_text_child, fragments_solid.
  - intros pushed Hpushed. eapply returns_bind; [apply IH|].
    intros more Hmore. apply returns_ret. by apply same_text_app.
Qed.

Lemma returns_extractTextRecursive e ks :
  returns (extractTextRecursive (ElementNode e ks)) (fun r => r = collectText ks).
Proof.
  assert (H : forall n e ks, n = ElementNode e ks ->
            returns (extractTextRecursive n) (fun r => r = collectText ks));
    [|by apply (H _ e ks)].
  clear e ks. intros n.
  induction n as [data|data|e ks IH] using node_nested_ind; intros e' ks' [=]; subst.
  simpl. eapply returns_bind; [by apply returns_recursiveParts|].
  intros parts (Hsolid & _ & Hjoin).
  eapply returns_mono; [apply returns_cleanText|].
  intros r ->. unfold collectText.
  rewrite !cleaned_join; [done|apply fragments_solid|done].
Qed.

(** ** The tree walker *)

Lemma walker_rejects chain n : acceptNode chain = false -> walker_nodes chain n = [].
Proof.
  revert chain.
  induction n as [data|data|e ks IH] using node_nested_ind; intros chain Hc; simpl.
  - by rewrite Hc.
  - done.
  - induction IH as [|k ks Hk _ IHks]; [done|]. simpl.
    rewrite Hk, IHks; [done|]. simpl. by destruct (excluded e).
Qed.

Lemma walker_accepts chain n :
  acceptNode chain = true ->
  flat_map push_trimmed (walker_nodes chain n) = fragments_of n.
Proof.
  revert chain.
  induction n as [data|data|e ks IH] using node_nested_ind; intros chain Hc; simpl.
  - rewrite Hc. simpl. by rewrite app_nil_r.
  - done.
  - destruct (excluded e) eqn:He.
    + assert (Hrej : acceptNode (e :: chain) = false) by (simpl; by rewrite He).
      clear IH. induction ks as [|k ks IHks]; [done|]. simpl.
      by rewrite (walker_rejects _ _ Hrej).
    + assert (Hacc : acceptNode (e :: chain) = true) by (simpl; by rewrite He).
      induction IH as [|k ks Hk _ IHks]; [done|]. simpl.
      by rewrite flat_map_app, Hk, IHks.
Qed.

Lemma walker_parts el :
  flat_map push_trimmed (nextNodes el) =
  if acceptNode (self el :: (fst <$> parents el))
  then fragments (childNodes el) else [].
Proof.
  unfold nextNodes, fragments.
  destruct (acceptNode _) eqn:Hc.
  - induction (childNodes el) as [|k ks IH]; [done|]. simpl.
    by rewrite flat_map_app, walker_accepts, IH.
  - induction (childNodes el) as [|k ks IH]; [done|]. simpl.
    by rewrite walker_rejects.
Qed.

Lemma returns_extractTextFromElement w el :
  returns (extractTextFromElement w el) (fun r => r = collectText (childNodes el)).
Proof.
  unfold extractTextFromElement.
  destruct (hasTreeWalker w); [|apply returns_extractTextRecursive].
  destruct (0 <? _)%nat eqn:Hlen; [|apply returns_extractTextRecursive].
  eapply returns_mono; [apply returns_cleanText|]. intros r ->.
  rewrite walker_parts in *. destruct (acceptNode _); [done|done].
Qed.

Lemma collectText_empty_iff nodes : collectText nodes = [] <-> fragments nodes = [].
Proof.
  unfold collectText. split; [|by intros ->].
  intros Hnil. destruct (fragments nodes) as [|f fs] eqn:Hf; [done|].
  pose proof (fragments_solid nodes) as Hsolid. rewrite Hf in Hsolid.
  rewrite cleaned_join in Hnil by done.
  pose proof (join_solid _ (Forall_solid_collapse _ Hsolid) ltac:(done)) as Hj.
  rewrite Hnil in Hj. by apply solid_nonempty in Hj.
Qed.



(** ** The strategies compute the items of [Pure] *)

Lemma returns_text w el :
  returns (extractTextFromElement w el) (fun r => r = text_of el).
Proof. apply returns_extractTextFromElement. Qed.

Lemma returns_forEach {A B} (body : A -> M (list B)) (pure : A -> list B) l :
  (forall a, returns (body a) (fun out => out = pure a)) ->
  returns (forEach body l) (fun out => out = flat_map pure l).
Proof.
  intros Hbody. induction l as [|a l IH]; simpl.
  { by apply returns_ret. }
  eapply returns_bind; [apply Hbody|]. intros pushed ->.
  eapply returns_bind; [apply IH|]. intros more ->.
  by apply returns_ret.
Qed.

Lemma returns_filterM {A} (p : A -> M bool) (q : A -> bool) l :
  (forall a, returns (p a) (fun keep => keep = q a)) ->
  returns (filterM p l) (fun out => out = List.filter q l).
Proof.
  intros Hp. induction l as [|a l IH]; simpl.
  { by apply returns_ret. }
  eapply returns_bind; [apply Hp|]. intros keep ->.
  eapply returns_bind; [apply IH|]. intros more ->.
  by apply returns_ret.
Qed.

Lemma returns_generic includeHtml w :
  returns (GenericExtractor.extract includeHtml w)
    (fun content => items content = Pure.generic includeHtml w).
Proof.
  unfold GenericExtractor.extract, Pure.generic, Pure.generic_candidates.
  eapply returns_bind
    with (P := fun found => found = Pure.generic_candidates w).
  - unfold Pure.generic_candidates. destruct (_ =? _)%nat; [|by apply returns_ret].
    apply returns_filterM. intros p.
    destruct (isElementVisible p); [|by apply returns_ret].
    eapply returns_bind; [apply returns_text|]. intros text ->.
    by apply returns_ret.
  - intros found ->. eapply returns_bind.
    + apply returns_forEach with (pure := Pure.generic_admit includeHtml).
      intros el. eapply returns_bind; [apply returns_text|]. intros text ->.
      by apply returns_ret.
    + intros out ->. by apply returns_ret.
Qed.

Lemma returns_reddit_item includeHtml w kind el :
  returns (RedditExtractor.item_of includeHtml w kind el)
    (fun out => out = Pure.reddit_admit includeHtml kind el).
Proof.
  unfold RedditExtractor.item_of, Pure.reddit_admit.
  destruct (isElementVisible el); [|by apply returns_ret].
  eapply returns_bind; [apply returns_text|]. intros text ->.
  by apply returns_ret.
Qed.

Lemma returns_reddit includeHtml w :
  returns (RedditExtractor.extract includeHtml w)
    (fun content => items content = Pure.reddit includeHtml w).
Proof.
  unfold RedditExtractor.extract, Pure.reddit.
  eapply returns_bind; [apply returns_forEach, returns_reddit_item|].
  intros comments ->.
  eapply returns_bind; [apply returns_forEach, returns_reddit_item|].
  intros posts ->. by apply returns_ret.
Qed.

Lemma returns_twitter_primary includeHtml w :
  returns (TwitterExtractor.primary includeHtml w)
    (fun out => out = Pure.twitter_primary includeHtml w).
Proof.
  apply returns_forEach. intros el.
  unfold TwitterExtractor.tweet_item, Pure.tweet_admit.
  destruct (isElementVisible el); [|by apply returns_ret].
  eapply returns_bind; [apply returns_text|]. intros text ->.
  by apply returns_ret.
Qed.

Lemma returns_twitter_fallback includeHtml w :
  returns (TwitterExtractor.fallback includeHtml w)
    (fun out => out = Pure.twitter_fallback includeHtml w).
Proof.
  apply returns_forEach. intros el.
  unfold TwitterExtractor.article_item, Pure.article_admit.
  destruct (isElementVisible el); [|by apply returns_ret].
  eapply returns_bind; [apply returns_text|]. intros text ->.
  by apply returns_ret.
Qed.

Lemma returns_twitter includeHtml w :
  returns (TwitterExtractor.extract includeHtml w)
    (fun content => items content = Pure.twitter includeHtml w).
Proof.
  unfold TwitterExtractor.extract, Pure.twitter.
  eapply returns_bind; [apply returns_twitter_primary|]. intros tweets ->.
  eapply returns_bind with (P := fun out => out = Pure.twitter includeHtml w).
  - unfold Pure.twitter. destruct (_ =? _)%nat eqn:Hlen; [|by apply returns_ret].
    eapply returns_bind; [apply returns_twitter_fallback|]. intros articles ->.
    apply returns_ret. apply Nat.eqb_eq, nil_length_inv in Hlen. by rewrite Hlen.
  - intros out ->. by apply returns_ret.
Qed.

Lemma returns_firstTitle includeHtml w links :
  returns (HackerNewsExtractor.firstTitle includeHtml w links)
    (fun out => out = Pure.first_title includeHtml w links).
Proof.
  induction links as [|link rest IH]; simpl.
  { by apply returns_ret. }
  destruct (isElementVisible link); [|done].
  eapply returns_bind; [apply returns_text|]. intros text ->.
  simpl. destruct (0 <? _)%nat; [by apply returns_ret|done].
Qed.

Lemma returns_hackernews includeHtml w :
  returns (HackerNewsExtractor.extract includeHtml w)
    (fun content => items content = Pure.hackernews includeHtml w).
Proof.
  unfold HackerNewsExtractor.extract, Pure.hackernews.
  eapply returns_bind with (P := fun out => out = Pure.hn_submission includeHtml w).
  - unfold HackerNewsExtractor.submission, Pure.hn_submission, Pure.hn_titles.
    destruct (querySelector w _) as [mainPost|]; [|apply returns_firstTitle].
    destruct (isElementVisible mainPost); [|apply returns_firstTitle].
    eapply returns_bind; [apply returns_text|]. intros text ->.
    by apply returns_ret.
  - intros main ->. eapply returns_bind.
    + apply returns_forEach with (pure := Pure.hn_comment includeHtml).
      intros commentEl.
      unfold HackerNewsExtractor.comment_item, Pure.hn_comment.
      destruct (Element_querySelector commentEl _) as [commentContent|];
        [|by apply returns_ret].
      destruct (isElementVisible commentContent); [|by apply returns_ret].
      eapply returns_bind; [apply returns_text|]. intros text ->.
      by apply returns_ret.
    + intros comments ->. by apply returns_ret.
Qed.

Lemma returns_reddit2 includeHtml w COMMENT_ID :
  returns (Other.RedditExtractor.extract includeHtml w COMMENT_ID)
    (fun content => items content = Pure.reddit2 includeHtml w COMMENT_ID).
Proof.
  assert (Hitem : forall record el,
    returns (Other.RedditExtractor.item_of w record el)
      (fun out => out = Pure.reddit2_admit record el)).
  { intros record el. unfold Other.RedditExtractor.item_of, Pure.reddit2_admit.
    destruct (isElementVisible el); [|by apply returns_ret].
    eapply returns_bind; [apply returns_text|]. intros text ->.
    by apply returns_ret. }
  unfold Other.RedditExtractor.extract, Pure.reddit2.
  eapply returns_bind; [apply returns_forEach, Hitem|]. intros comments ->.
  eapply returns_bind; [apply returns_forEach, Hitem|]. intros posts ->.
  by apply returns_ret.
Qed.

Lemma returns_hackernews2 includeHtml w :
  returns (Other.HackerNewsExtractor.extract includeHtml w)
    (fun content => items content = Pure.hackernews2 includeHtml w).
Proof.
  unfold Other.HackerNewsExtractor.extract, Pure.hackernews2, Pure.hn2_comments.
  eapply returns_bind.
  { apply returns_forEach with (pure := Pure.hn2_comment includeHtml).
    intros commentEl.
    unfold Other.HackerNewsExtractor.comment_item, Pure.hn2_comment.
    destruct (Element_querySelector commentEl _) as [commentContent|];
      [|by apply returns_ret].
    destruct (isElementVisible commentContent); [|by apply returns_ret].
    eapply returns_bind; [apply returns_text|]. intros text ->.
    by apply returns_ret. }
  intros comments ->.
  eapply returns_bind with (P := fun out => out = Pure.hackernews2 includeHtml w).
  - unfold Pure.hackernews2, Pure.hn2_comments.
    destruct (_ =? _)%nat eqn:Hlen; [|by apply returns_ret].
    apply Nat.eqb_eq, nil_length_inv in Hlen. rewrite Hlen.
    eapply returns_bind.
    { apply returns_forEach with (pure := Pure.hn2_story includeHtml).
      intros storyEl.
      unfold Other.HackerNewsExtractor.story_item, Pure.hn2_story.
      destruct (Element_querySelector storyEl _) as [titleEl|];
        [|by apply returns_ret].
      destruct (isElementVisible titleEl); [|by apply returns_ret].
      eapply returns_bind; [apply returns_text|]. intros text ->.
      by apply returns_ret. }
    intros stories ->. by apply returns_ret.
  - intros out ->. by apply returns_ret.
Qed.

(** ** Selector priority *)

Lemma elem_of_flat_map {A B} (f : A -> list B) (l : list A) (y : B) :
  y ∈ flat_map f l <-> exists x, x ∈ l /\ y ∈ f x.
Proof.
  rewrite list_elem_of_In, in_flat_map.
  by setoid_rewrite list_elem_of_In.
Qed.

Lemma firstMatching_first w pre sel post :
  Forall (fun s => querySelectorAll w s = []) pre ->
  querySelectorAll w sel ≠ [] ->
  firstMatching w (pre ++ sel :: post) = querySelectorAll w sel.
Proof.
  intros Hpre Hsel. induction Hpre as [|s pre Hs _ IH]; simpl.
  - by destruct (querySelectorAll w sel).
  - by rewrite Hs.
Qed.

Lemma generic_admit_element includeHtml el it :
  it ∈ Pure.generic_admit includeHtml el ->
  element it = el /\ textContent it = text_of el /\
  (20 < length (text_of el))%nat.
Proof.
  unfold Pure.generic_admit, longer_than.
  destruct (0 <? _)%nat; [|by intros ?%elem_of_nil].
  destruct (20 <? _)%nat eqn:Hlen; [|by intros ?%elem_of_nil].
  intros ->%list_elem_of_singleton. apply Nat.ltb_lt in Hlen. done.
Qed.

Lemma tweet_admit_element includeHtml el it :
  it ∈ Pure.tweet_admit includeHtml el ->
  element it = el /\ isElementVisible el = true /\
  textContent it = text_of (TwitterExtractor.textElement el) /\
  (5 < length (textContent it))%nat.
Proof.
  unfold Pure.tweet_admit, longer_than.
  destruct (isElementVisible el); [|by intros ?%elem_of_nil].
  destruct (0 <? _)%nat; [|by intros ?%elem_of_nil].
  destruct (5 <? _)%nat eqn:Hlen; [|by intros ?%elem_of_nil].
  intros ->%list_elem_of_singleton. apply Nat.ltb_lt in Hlen. done.
Qed.

Lemma article_admit_element includeHtml el it :
  it ∈ Pure.article_admit includeHtml el ->
  element it = el /\ isElementVisible el = true /\
  textContent it = text_of el /\
  (20 < length (textContent it) < 2000)%nat.
Proof.
  unfold Pure.article_admit, longer_than.
  destruct (isElementVisible el); [|by intros ?%elem_of_nil].
  destruct (0 <? _)%nat; [|by intros ?%elem_of_nil].
  destruct (20 <? _)%nat eqn:Hlen; [|by intros ?%elem_of_nil].
  destruct (_ <? 2000)%nat eqn:Hmax; [|by intros ?%elem_of_nil].
  intros ->%list_elem_of_singleton.
  apply Nat.ltb_lt in Hlen. apply Nat.ltb_lt in Hmax. done.
Qed.

(** C10. In the generic strategy and in the Twitter strategy, when [sel] is
    the first selector group of the declared order that matches any element,
    the pass over the selector groups reads the matches of [sel] and nothing
    else, whatever the later groups match: its items are the admitted ones
    among those matches, in their order, and every item's element is one of
    them.  For Twitter, as soon as that pass has an item, the result is that
    pass alone. *)
Theorem selector_priority includeHtml w textCache pre sel post :
  cache_ok textCache ->
  Forall (fun s => querySelectorAll w s = []) pre ->
  querySelectorAll w sel ≠ [] ->
  (GenericExtractor.contentSelectors = pre ++ sel :: post ->
   items (GenericExtractor.extract includeHtml w textCache).1
   = flat_map (Pure.generic_admit includeHtml) (querySelectorAll w sel) /\
   forall it, it ∈ items (GenericExtractor.extract includeHtml w textCache).1 ->
     element it ∈ querySelectorAll w sel) /\
  (TwitterExtractor.tweetSelectors = pre ++ sel :: post ->
   (TwitterExtractor.primary includeHtml w textCache).1
   = flat_map (Pure.tweet_admit includeHtml) (querySelectorAll w sel) /\
   (forall it, it ∈ (TwitterExtractor.primary includeHtml w textCache).1 ->
     element it ∈ querySelectorAll w sel) /\
   ((TwitterExtractor.primary includeHtml w textCache).1 ≠ [] ->
    items (TwitterExtractor.extract includeHtml w textCache).1
    = (TwitterExtractor.primary includeHtml w textCache).1)).
Proof.
  intros Hok Hpre Hsel.
  pose proof (firstMatching_first w pre sel post Hpre Hsel) as Hfirst.
  split; intros Hsels.
  - rewrite (returns_value _ _ _ (returns_generic includeHtml w) Hok).
    unfold Pure.generic, Pure.generic_candidates.
    rewrite Hsels, Hfirst.
    destruct (querySelectorAll w sel) as [|el0 els] eqn:Hq; [done|].
    simpl length. change (S _ =? 0)%nat with false. cbv iota. split; [done|].
    intros it (el & Hel & Hit)%elem_of_flat_map.
    by apply generic_admit_element in Hit as (-> & _).
  - rewrite (returns_value _ _ _ (returns_twitter includeHtml w) Hok).
    rewrite (returns_value _ _ _ (returns_twitter_primary includeHtml w) Hok).
    unfold Pure.twitter, Pure.twitter_primary. rewrite Hsels, Hfirst.
    split; [done|]. split.
    + intros it (el & Hel & Hit)%elem_of_flat_map.
      by apply tweet_admit_element in Hit as (-> & _).
    + intros Hne. by destruct (flat_map _ _).
Qed.

Lemma selector_priority_witness :
  cache_ok ∅ /\
  Forall (fun s => querySelectorAll Examples.scenario_A s = []) [] /\
  querySelectorAll Examples.scenario_A (Compound [ByTag (js "article")]) ≠ [] /\
  items (GenericExtractor.extract false Examples.scenario_A ∅).1
  = flat_map (Pure.generic_admit false)
      (querySelectorAll Examples.scenario_A (Compound [ByTag (js "article")])).
Proof.
  assert (H : querySelectorAll Examples.scenario_A (Compound [ByTag (js "article")]) ≠ []).
  { intros H. vm_compute in H. discriminate H. }
  split; [apply cache_ok_empty|]. split; [constructor|]. split; [exact H|].
  apply (selector_priority false Examples.scenario_A ∅ []
           (Compound [ByTag (js "article")])
           (tail GenericExtractor.contentSelectors)
           cache_ok_empty (List.Forall_nil _) H).
  reflexivity.
Defined.

(** ** Gates of the strategies *)

Lemma reddit_admit_element includeHtml kind el it :
  it ∈ Pure.reddit_admit includeHtml kind el ->
  element it = el /\ isElementVisible el = true /\
  textContent it = text_of el /\ type it = kind /\
  (10 < length (textContent it))%nat.
Proof.
  unfold Pure.reddit_admit, longer_than.
  destruct (isElementVisible el); [|by intros ?%elem_of_nil].
  destruct (0 <? _)%nat; [|by intros ?%elem_of_nil].
  destruct (10 <? _)%nat eqn:Hlen; [|by intros ?%elem_of_nil].
  intros ->%list_elem_of_singleton. apply Nat.ltb_lt in Hlen. done.
Qed.

Lemma first_title_element includeHtml w links it :
  it ∈ Pure.first_title includeHtml w links ->
  exists link, link ∈ links /\ isElementVisible link = true /\
    textContent it = text_of link /\ type it = post /\
    (0 < length (textContent it))%nat.
Proof.
  induction links as [|link rest IH]; simpl; [by intros ?%elem_of_nil|].
  destruct (isElementVisible link) eqn:Hvis; simpl.
  - destruct (0 <? _)%nat eqn:Hlen.
    + intros ->%list_elem_of_singleton. apply Nat.ltb_lt in Hlen.
      exists link. repeat split; [left|done..].
    + intros (l & Hl & H)%IH. exists l. split; [by right|done].
  - intros (l & Hl & H)%IH. exists l. split; [by right|done].
Qed.

Lemma hn_comment_element includeHtml commentEl it :
  it ∈ Pure.hn_comment includeHtml commentEl ->
  element it = commentEl /\ type it = comment /\
  (10 < length (textContent it))%nat /\
  exists commentContent,
    Element_querySelector commentEl SITE_SELECTORS.HACKER_NEWS.COMMENTS
    = Some commentContent /\
    isElementVisible commentContent = true /\
    textContent it = text_of commentContent.
Proof.
  unfold Pure.hn_comment, longer_than.
  destruct (Element_querySelector _ _) as [content|]; [|by intros ?%elem_of_nil].
  destruct (isElementVisible content) eqn:Hvis; [|by intros ?%elem_of_nil].
  destruct (0 <? _)%nat; [|by intros ?%elem_of_nil].
  destruct (10 <? _)%nat eqn:Hlen; [|by intros ?%elem_of_nil].
  intros ->%list_elem_of_singleton. apply Nat.ltb_lt in Hlen.
  repeat split; [done|]. by exists content.
Qed.

Lemma hn_submission_element includeHtml w it :
  it ∈ Pure.hn_submission includeHtml w ->
  type it = post /\ (0 < length (textContent it))%nat /\
  (exists src, isElementVisible src = true /\ textContent it = text_of src) /\
  (forall mainPost,
     querySelector w SITE_SELECTORS.HACKER_NEWS.POST = Some mainPost ->
     isElementVisible mainPost = true -> (10 < length (textContent it))%nat).
Proof.
  unfold Pure.hn_submission, Pure.hn_titles, longer_than.
  assert (Htitle : forall links, it ∈ Pure.first_title includeHtml w links ->
    type it = post /\ (0 < length (textContent it))%nat /\
    (exists src, isElementVisible src = true /\ textContent it = text_of src)).
  { intros links (l & _ & Hv & Ht & Hp & Hl)%first_title_element.
    repeat split; [done..|]. by exists l. }
  destruct (querySelector w _) as [mainPost|].
  - destruct (isElementVisible mainPost) eqn:Hvis.
    + destruct (0 <? _)%nat; [|by intros ?%elem_of_nil].
      destruct (10 <? _)%nat eqn:Hlen; [|by intros ?%elem_of_nil].
      intros ->%list_elem_of_singleton. apply Nat.ltb_lt in Hlen. simpl.
      repeat split; [lia| |done]. by exists mainPost.
    + intros (? & ? & ?)%Htitle. repeat split; [done..|].
      intros ? [= <-]. congruence.
  - intros (? & ? & ?)%Htitle. repeat split; done.
Qed.

Lemma reddit2_admit_element record el it :
  it ∈ Pure.reddit2_admit record el ->
  it = record el (text_of el) /\ isElementVisible el = true /\
  (5 < length (text_of el))%nat.
Proof.
  unfold Pure.reddit2_admit, longer_than.
  destruct (isElementVisible el); [|by intros ?%elem_of_nil].
  destruct (0 <? _)%nat; [|by intros ?%elem_of_nil].
  destruct (5 <? _)%nat eqn:Hlen; [|by intros ?%elem_of_nil].
  intros ->%list_elem_of_singleton. apply Nat.ltb_lt in Hlen. done.
Qed.

Lemma hn2_comment_element includeHtml commentEl it :
  it ∈ Pure.hn2_comment includeHtml commentEl ->
  type it = comment /\ (10 < length (textContent it))%nat /\
  exists src, isElementVisible src = true /\ textContent it = text_of src.
Proof.
  unfold Pure.hn2_comment, longer_than.
  destruct (Element_querySelector _ _) as [content|]; [|by intros ?%elem_of_nil].
  destruct (isElementVisible content) eqn:Hvis; [|by intros ?%elem_of_nil].
  destruct (0 <? _)%nat; [|by intros ?%elem_of_nil].
  destruct (10 <? _)%nat eqn:Hlen; [|by intros ?%elem_of_nil].
  intros ->%list_elem_of_singleton. apply Nat.ltb_lt in Hlen.
  repeat split; [done|]. by exists content.
Qed.

Lemma hn2_story_element includeHtml storyEl it :
  it ∈ Pure.hn2_story includeHtml storyEl ->
  type it = post /\ (0 < length (textContent it))%nat /\
  exists src, isElementVisible src = true /\ textContent it = text_of src.
Proof.
  unfold Pure.hn2_story.
  destruct (Element_querySelector _ _) as [titleEl|]; [|by intros ?%elem_of_nil].
  destruct (isElementVisible titleEl) eqn:Hvis; [|by intros ?%elem_of_nil].
  destruct (0 <? _)%nat eqn:Hlen; [|by intros ?%elem_of_nil].
  intros ->%list_elem_of_singleton. apply Nat.ltb_lt in Hlen.
  repeat split; [done|]. by exists titleEl.
Qed.

Lemma visible_not_hidden el :
  isElementVisible el = true ->
  display (style (self el)) ≠ js "none" /\
  Qeq_bool (width (boundingClientRect (self el))) 0 = false /\
  Qeq_bool (height (boundingClientRect (self el))) 0 = false.
Proof.
  unfold isElementVisible.
  destruct (isConnected el); cbn [negb]; [|done].
  destruct (_ && _); [done|].
  destruct (bool_decide (display _ = _)) eqn:Hd; [done|].
  apply bool_decide_eq_false in Hd. cbn [orb].
  destruct (bool_decide (visibility _ = _)); [done|].
  destruct (Qeq_bool (width _) 0); [done|].
  destruct (Qeq_bool (height _) 0); [done|]. done.
Qed.

(** The gate that the primary pass of the generic strategy lacks is in
    place everywhere else: every other item stems from an element that
    passed [isElementVisible]. *)
Lemma visibility_gate includeHtml w COMMENT_ID textCache :
  cache_ok textCache ->
  (forall it, it ∈ items (RedditExtractor.extract includeHtml w textCache).1 ->
     isElementVisible (element it) = true) /\
  (forall it,
     it ∈ items (Other.RedditExtractor.extract includeHtml w COMMENT_ID textCache).1 ->
     isElementVisible (element it) = true) /\
  (forall it, it ∈ items (TwitterExtractor.extract includeHtml w textCache).1 ->
     isElementVisible (element it) = true) /\
  (forall it, it ∈ items (HackerNewsExtractor.extract includeHtml w textCache).1 ->
     exists src, isElementVisible src = true /\ textContent it = text_of src) /\
  (forall it,
     it ∈ items (Other.HackerNewsExtractor.extract includeHtml w textCache).1 ->
     exists src, isElementVisible src = true /\ textContent it = text_of src) /\
  (firstMatching w GenericExtractor.contentSelectors = [] ->
   forall it, it ∈ items (GenericExtractor.extract includeHtml w textCache).1 ->
     isElementVisible (element it) = true).
Proof.
  intros Hok.
  rewrite (returns_value _ _ _ (returns_reddit includeHtml w) Hok).
  rewrite (returns_value _ _ _ (returns_reddit2 includeHtml w COMMENT_ID) Hok).
  rewrite (returns_value _ _ _ (returns_twitter includeHtml w) Hok).
  rewrite (returns_value _ _ _ (returns_hackernews includeHtml w) Hok).
  rewrite (returns_value _ _ _ (returns_hackernews2 includeHtml w) Hok).
  rewrite (returns_value _ _ _ (returns_generic includeHtml w) Hok).
  split; [|split; [|split; [|split; [|split]]]].
  - unfold Pure.reddit.
    intros it [(el & _ & H)%elem_of_flat_map|(el & _ & H)%elem_of_flat_map]%elem_of_app;
      by apply reddit_admit_element in H as (-> & ? & _).
  - unfold Pure.reddit2.
    intros it [(el & _ & H)%elem_of_flat_map|(el & _ & H)%elem_of_flat_map]%elem_of_app;
      by apply reddit2_admit_element in H as (-> & ? & _).
  - unfold Pure.twitter, Pure.twitter_primary, Pure.twitter_fallback.
    intros it. destruct (_ =? _)%nat; intros (el & _ & H)%elem_of_flat_map.
    + by apply article_admit_element in H as (-> & ? & _).
    + by apply tweet_admit_element in H as (-> & ? & _).
  - unfold Pure.hackernews.
    intros it [H|(el & _ & H)%elem_of_flat_map]%elem_of_app.
    + by apply hn_submission_element in H as (_ & _ & ? & _).
    + apply hn_comment_element in H as (_ & _ & _ & src & _ & ? & ?).
      by exists src.
  - unfold Pure.hackernews2, Pure.hn2_comments.
    intros it. destruct (_ =? _)%nat; intros (el & _ & H)%elem_of_flat_map.
    + by apply hn2_story_element in H as (_ & _ & ?).
    + by apply hn2_comment_element in H as (_ & _ & ?).
  - intros Hnone it. unfold Pure.generic, Pure.generic_candidates.
    rewrite Hnone. simpl.
    intros (el & Hel & H)%elem_of_flat_map.
    apply generic_admit_element in H as (-> & _).
    apply list_elem_of_In, filter_In in Hel as [_ Hel].
    by apply andb_true_iff in Hel as [? _].
Qed.

(** C1. A page whose only content is
    [<article style="display: none">...</article>], laid out as a browser
    does (no offset parent, an empty box, computed [display: none]): the
    generic strategy returns one item, made from that article. *)
Theorem generic_primary_takes_hidden_element :
  exists it,
    items (GenericExtractor.extract false Examples.hidden_article ∅).1 = [it] /\
    display (style (self (element it))) = js "none" /\
    Qeq_bool (width (boundingClientRect (self (element it)))) 0 = true /\
    isElementVisible (element it) = false /\
    textContent it = js "This article is hidden from the reader.".
Proof. eexists. split; [by vm_compute|]. by vm_compute. Qed.

Lemma first_title_first includeHtml w before link after :
  Forall (fun l => isElementVisible l = false \/ text_of l = []) before ->
  isElementVisible link = true -> text_of link ≠ [] ->
  Pure.first_title includeHtml w (before ++ link :: after)
  = [HackerNewsExtractor.title_item includeHtml w link (text_of link)].
Proof.
  intros Hbefore Hvis Hne.
  induction Hbefore as [|l before [Hl|Hl] _ IH]; simpl.
  - rewrite Hvis. destruct (text_of link); done.
  - by rewrite Hl.
  - rewrite Hl, andb_false_r. done.
Qed.

(** C2, as amended. Every item of every strategy has non-empty text.  An
    item of the generic strategy is longer than 20, an item of Reddit longer
    than 10 (than 5 in the other revision of that strategy), an item of
    Twitter longer than 5 and, when the pass over the tweet selectors gave
    nothing, longer than 20 and shorter than 2000.  A Hacker News comment is
    longer than 10, and so is the submission when the page has a visible
    [.toptext].  A Hacker News item taken from a title link is admitted as
    soon as its text is not empty: when the page has no visible [.toptext],
    the first title link that is visible and has a text that is not empty
    gives the first item of the result, whatever the length of that text;
    and in the other revision of the strategy, when no comment is admitted,
    every [.athing] row whose title link is visible and has a text that is
    not empty gives an item. *)
Theorem length_thresholds includeHtml w COMMENT_ID textCache :
  cache_ok textCache ->
  (forall it, it ∈ items (GenericExtractor.extract includeHtml w textCache).1 ->
     (20 < length (textContent it))%nat) /\
  (forall it, it ∈ items (RedditExtractor.extract includeHtml w textCache).1 ->
     (10 < length (textContent it))%nat) /\
  (forall it,
     it ∈ items (Other.RedditExtractor.extract includeHtml w COMMENT_ID textCache).1 ->
     (5 < length (textContent it))%nat) /\
  (forall it, it ∈ items (TwitterExtractor.extract includeHtml w textCache).1 ->
     (5 < length (textContent it))%nat /\
     ((TwitterExtractor.primary includeHtml w textCache).1 = [] ->
      (20 < length (textContent it) < 2000)%nat)) /\
  (forall it, it ∈ items (HackerNewsExtractor.extract includeHtml w textCache).1 ->
     (0 < length (textContent it))%nat /\
     (type it = comment -> (10 < length (textContent it))%nat) /\
     (forall mainPost,
        querySelector w SITE_SELECTORS.HACKER_NEWS.POST = Some mainPost ->
        isElementVisible mainPost = true ->
        (10 < length (textContent it))%nat)) /\
  (forall it,
     it ∈ items (Other.HackerNewsExtractor.extract includeHtml w textCache).1 ->
     (0 < length (textContent it))%nat /\
     (type it = comment -> (10 < length (textContent it))%nat)) /\
  (forall before link after,
     (forall mainPost,
        querySelector w SITE_SELECTORS.HACKER_NEWS.POST = Some mainPost ->
        isElementVisible mainPost = false) ->
     querySelectorAll w SITE_SELECTORS.HACKER_NEWS.TITLE_LINK
     = before ++ link :: after ->
     Forall (fun l => isElementVisible l = false \/
                      (extractTextFromElement w l textCache).1 = []) before ->
     isElementVisible link = true ->
     (extractTextFromElement w link textCache).1 ≠ [] ->
     head (items (HackerNewsExtractor.extract includeHtml w textCache).1)
     = Some (HackerNewsExtractor.title_item includeHtml w link
               (extractTextFromElement w link textCache).1)) /\
  (forall storyEl titleEl,
     Forall (fun it => type it = post)
       (items (Other.HackerNewsExtractor.extract includeHtml w textCache).1) ->
     storyEl ∈ querySelectorAll w SITE_SELECTORS.HACKER_NEWS.STORY_ITEM ->
     Element_querySelector storyEl SITE_SELECTORS.HACKER_NEWS.TITLE_LINK
     = Some titleEl ->
     isElementVisible titleEl = true ->
     (extractTextFromElement w titleEl textCache).1 ≠ [] ->
     Other.HackerNewsExtractor.story_record includeHtml storyEl titleEl
       (extractTextFromElement w titleEl textCache).1
     ∈ items (Other.HackerNewsExtractor.extract includeHtml w textCache).1).
Proof.
  intros Hok.
  assert (Htext : forall l, (extractTextFromElement w l textCache).1 = text_of l).
  { intros l. apply (returns_value _ _ _ (returns_text w l) Hok). }
  rewrite (returns_value _ _ _ (returns_reddit includeHtml w) Hok).
  rewrite (returns_value _ _ _ (returns_reddit2 includeHtml w COMMENT_ID) Hok).
  rewrite (returns_value _ _ _ (returns_twitter includeHtml w) Hok).
  rewrite (returns_value _ _ _ (returns_twitter_primary includeHtml w) Hok).
  rewrite (returns_value _ _ _ (returns_hackernews includeHtml w) Hok).
  rewrite (returns_value _ _ _ (returns_hackernews2 includeHtml w) Hok).
  rewrite (returns_value _ _ _ (returns_generic includeHtml w) Hok).
  split; [|split; [|split; [|split; [|split; [|split; [|split]]]]]].
  - intros it (el & _ & H)%elem_of_flat_map.
    apply generic_admit_element in H as (_ & -> & ?). done.
  - unfold Pure.reddit.
    intros it [(el & _ & H)%elem_of_flat_map|(el & _ & H)%elem_of_flat_map]%elem_of_app;
      by apply reddit_admit_element in H as (_ & _ & _ & _ & ?).
  - unfold Pure.reddit2.
    intros it [(el & _ & H)%elem_of_flat_map|(el & _ & H)%elem_of_flat_map]%elem_of_app;
      by apply reddit2_admit_element in H as (-> & _ & ?).
  - unfold Pure.twitter, Pure.twitter_fallback. intros it.
    destruct (_ =? _)%nat eqn:Hlen.
    + intros (el & _ & H)%elem_of_flat_map.
      apply article_admit_element in H as (_ & _ & _ & ?). split; [lia|done].
    + intros Hit. split.
      * apply elem_of_flat_map in Hit as (el & _ & H).
        by apply tweet_admit_element in H as (_ & _ & _ & ?).
      * intros Hnil. by rewrite Hnil in Hlen.
  - unfold Pure.hackernews.
    intros it [H|(el & _ & H)%elem_of_flat_map]%elem_of_app.
    + apply hn_submission_element in H as (Hpost & ? & _ & ?).
      split; [done|]. split; [|done]. intros Hc. congruence.
    + apply hn_comment_element in H as (_ & _ & ? & _).
      split; [lia|]. split; [done|]. done.
  - unfold Pure.hackernews2, Pure.hn2_comments.
    intros it. destruct (_ =? _)%nat; intros (el & _ & H)%elem_of_flat_map.
    + apply hn2_story_element in H as (Hpost & ? & _).
      split; [done|]. intros Hc. congruence.
    + apply hn2_comment_element in H as (_ & ? & _). split; [lia|done].
  - intros before link after Hpost Hlinks Hbefore Hvis Hne.
    rewrite Htext in *.
    assert (Hbefore' : Forall (fun l => isElementVisible l = false \/ text_of l = [])
                         before).
    { eapply Forall_impl; [exact Hbefore|]. intros l Hl. cbv beta in Hl.
      by rewrite (Htext l) in Hl. }
    assert (Hmain : Pure.hn_submission includeHtml w
                    = [HackerNewsExtractor.title_item includeHtml w link (text_of link)]).
    { unfold Pure.hn_submission, Pure.hn_titles. rewrite Hlinks.
      destruct (querySelector w SITE_SELECTORS.HACKER_NEWS.POST) as [mainPost|].
      - rewrite (Hpost mainPost eq_refl). by apply first_title_first.
      - by apply first_title_first. }
    unfold Pure.hackernews. by rewrite Hmain.
  - intros storyEl titleEl Hposts Hrow Htitle Hvis Hne.
    rewrite Htext in *. unfold Pure.hackernews2, Pure.hn2_comments in *.
    destruct (_ =? _)%nat eqn:Hlen.
    + apply elem_of_flat_map. exists storyEl. split; [done|].
      unfold Pure.hn2_story. rewrite Htitle, Hvis. simpl.
      destruct (text_of titleEl); [done|]. simpl. by left.
    + destruct (flat_map _ _) as [|c cs] eqn:Hcomments; [done|].
      apply Forall_cons in Hposts as [Hc _].
      assert (Hin : c ∈ flat_map (Pure.hn2_comment includeHtml)
                      (querySelectorAll w SITE_SELECTORS.HACKER_NEWS.COMMENT_TREE))
        by (rewrite Hcomments; by left).
      apply elem_of_flat_map in Hin as (el & _ & H).
      apply hn2_comment_element in H as (Hkind & _). congruence.
Qed.

Lemma length_thresholds_witness :
  cache_ok ∅ /\
  exists link,
    querySelectorAll Examples.short_title SITE_SELECTORS.HACKER_NEWS.TITLE_LINK = [link] /\
    isElementVisible link = true /\
    (extractTextFromElement Examples.short_title link ∅).1 = js "Hi" /\
    head (items (HackerNewsExtractor.extract false Examples.short_title ∅).1)
    = Some (HackerNewsExtractor.title_item false Examples.short_title link (js "Hi")).
Proof.
  split; [apply cache_ok_empty|].
  assert (Hlink : exists link,
            querySelectorAll Examples.short_title SITE_SELECTORS.HACKER_NEWS.TITLE_LINK
            = [link] /\
            isElementVisible link = true /\
            (extractTextFromElement Examples.short_title link ∅).1 = js "Hi").
  { eexists. split; [by vm_compute|]. split; by vm_compute. }
  destruct Hlink as (link & Hlinks & Hvis & Htext).
  exists link. split; [done|]. split; [done|]. split; [done|].
  destruct (length_thresholds false Examples.short_title
              SITE_SELECTORS.HACKER_NEWS.COMMENT_ID ∅ cache_ok_empty)
    as (_ & _ & _ & _ & _ & _ & Hadmitted & _).
  rewrite <- Htext.
  apply (Hadmitted [] link []).
  - intros mainPost Hpost. vm_compute in Hpost. discriminate Hpost.
  - exact Hlinks.
  - constructor.
  - exact Hvis.
  - rewrite Htext. discriminate.
Defined.

(** C2, as worded, fails on a Hacker News story titled "Hi": the item is
    admitted with two characters. *)
Lemma hn_title_below_threshold : ~ length_threshold_claim.
Proof.
  intros H.
  destruct (H false Examples.short_title ∅ cache_ok_empty) as (_ & _ & _ & Hhn).
  assert (Hit : exists it,
            it ∈ items (HackerNewsExtractor.extract false Examples.short_title ∅).1
            /\ length (textContent it) = 2%nat).
  { eexists. split; [vm_compute; left|by vm_compute]. }
  destruct Hit as (it & Hin & Hlen). specialize (Hhn it Hin). lia.
Qed.

(** ** Fallback passes *)

Lemma tweet_admit_gate includeHtml el :
  Pure.tweet_admit includeHtml el ≠ [] <->
  isElementVisible el = true /\
  (5 < length (text_of (TwitterExtractor.textElement el)))%nat.
Proof.
  unfold Pure.tweet_admit, longer_than.
  destruct (isElementVisible el); [|split; [done|by intros [? _]]].
  destruct (Nat.ltb_spec 5 (length (text_of (TwitterExtractor.textElement el))))
    as [Hlen|Hlen].
  - destruct (Nat.ltb_spec 0 (length (text_of (TwitterExtractor.textElement el))));
      [done|lia].
  - rewrite andb_false_r. simpl. split; [done|lia].
Qed.

Lemma article_admit_gate includeHtml el :
  Pure.article_admit includeHtml el ≠ [] <->
  isElementVisible el = true /\ (20 < length (text_of el) < 2000)%nat.
Proof.
  unfold Pure.article_admit, longer_than.
  destruct (isElementVisible el); [|split; [done|by intros [? _]]].
  destruct (Nat.ltb_spec 20 (length (text_of el))) as [Hlen|Hlen].
  - destruct (Nat.ltb_spec 0 (length (text_of el))); [|lia].
    destruct (Nat.ltb_spec (length (text_of el)) 2000); simpl.
    + done.
    + split; [done|lia].
  - rewrite andb_false_r. simpl. split; [done|lia].
Qed.

Lemma long_paragraphs_admitted includeHtml (l : list Element) :
  flat_map (Pure.generic_admit includeHtml)
    (List.filter (fun p => isElementVisible p && (50 <? length (text_of p))%nat) l)
  = (fun p => GenericExtractor.item includeHtml p (text_of p))
    <$> List.filter (fun p => isElementVisible p && (50 <? length (text_of p))%nat) l.
Proof.
  induction l as [|p l IH]; [done|]. simpl.
  destruct (isElementVisible p); simpl; [|done].
  destruct (Nat.ltb_spec 50 (length (text_of p))) as [Hlen|Hlen]; [|done].
  simpl. rewrite IH. unfold Pure.generic_admit, longer_than.
  destruct (Nat.ltb_spec 0 (length (text_of p))); [|lia].
  destruct (Nat.ltb_spec 20 (length (text_of p))); [done|lia].
Qed.

Lemma visible_items_of_matches includeHtml (l : list Element) :
  List.filter (fun it => isElementVisible (element it))
    (flat_map (Pure.generic_admit includeHtml) l)
  = flat_map
      (fun el => if isElementVisible el && longer_than 20 (text_of el)
                 then [GenericExtractor.item includeHtml el (text_of el)] else [])
      l.
Proof.
  induction l as [|el l IH]; [done|]. simpl.
  rewrite List.filter_app, IH. f_equal.
  unfold Pure.generic_admit. destruct (longer_than 20 (text_of el)); simpl.
  - by destruct (isElementVisible el).
  - by rewrite andb_false_r.
Qed.

(** C3, as amended. Twitter: the pass over the tweet selectors admits a
    visible element whose text is longer than 5; when it gave no item, the
    result is the pass over every [article], which admits a visible element
    whose text is longer than 20 and shorter than 2000; otherwise the result
    is the first pass.  Generic: the paragraphs are looked at only when no
    content selector matched any element, and then every visible paragraph
    with a text longer than 50 gives an item; when a selector matched, a
    visible match of the first matching selector gives an item exactly when
    its text is longer than 20, the same length filter.  (The statement is
    about the visible matches; it says nothing of a match that is not
    visible.) *)
Theorem fallback_passes includeHtml w textCache :
  cache_ok textCache ->
  (TwitterExtractor.primary includeHtml w textCache).1
  = flat_map (Pure.tweet_admit includeHtml)
      (firstMatching w TwitterExtractor.tweetSelectors) /\
  ((TwitterExtractor.primary includeHtml w textCache).1 = [] ->
   items (TwitterExtractor.extract includeHtml w textCache).1
   = flat_map (Pure.article_admit includeHtml)
       (querySelectorAll w (Compound [ByTag (js "article")]))) /\
  ((TwitterExtractor.primary includeHtml w textCache).1 ≠ [] ->
   items (TwitterExtractor.extract includeHtml w textCache).1
   = (TwitterExtractor.primary includeHtml w textCache).1) /\
  (firstMatching w GenericExtractor.contentSelectors = [] ->
   items (GenericExtractor.extract includeHtml w textCache).1
   = (fun p => GenericExtractor.item includeHtml p (text_of p))
     <$> List.filter
           (fun p => isElementVisible p && (50 <? length (text_of p))%nat)
           (querySelectorAll w (Compound [ByTag (js "p")]))) /\
  (firstMatching w GenericExtractor.contentSelectors ≠ [] ->
   List.filter (fun it => isElementVisible (element it))
     (items (GenericExtractor.extract includeHtml w textCache).1)
   = flat_map
       (fun el => if isElementVisible el && longer_than 20 (text_of el)
                  then [GenericExtractor.item includeHtml el (text_of el)] else [])
       (firstMatching w GenericExtractor.contentSelectors)) /\
  (forall el, Pure.tweet_admit includeHtml el ≠ [] <->
     isElementVisible el = true /\
     (5 < length (text_of (TwitterExtractor.textElement el)))%nat) /\
  (forall el, Pure.article_admit includeHtml el ≠ [] <->
     isElementVisible el = true /\ (20 < length (text_of el) < 2000)%nat).
Proof.
  intros Hok.
  rewrite (returns_value _ _ _ (returns_twitter includeHtml w) Hok).
  rewrite (returns_value _ _ _ (returns_twitter_primary includeHtml w) Hok).
  rewrite (returns_value _ _ _ (returns_generic includeHtml w) Hok).
  unfold Pure.twitter, Pure.generic, Pure.generic_candidates.
  split; [done|].
  split; [by intros ->|].
  split; [intros Hne; by destruct (Pure.twitter_primary includeHtml w)|].
  split; [intros ->; apply long_paragraphs_admitted|].
  split.
  { intros Hne.
    destruct (firstMatching w GenericExtractor.contentSelectors) as [|el l] eqn:Hfound;
      [done|].
    apply visible_items_of_matches. }
  split; [apply tweet_admit_gate|apply article_admit_gate].
Qed.

Lemma fallback_passes_witness :
  cache_ok ∅ /\
  (TwitterExtractor.primary false Examples.short_article ∅).1 = [] /\
  items (TwitterExtractor.extract false Examples.short_article ∅).1
  = flat_map (Pure.article_admit false)
      (querySelectorAll Examples.short_article (Compound [ByTag (js "article")])).
Proof.
  assert (H : (TwitterExtractor.primary false Examples.short_article ∅).1 = []).
  { by vm_compute. }
  split; [apply cache_ok_empty|]. split; [exact H|].
  destruct (fallback_passes false Examples.short_article ∅ cache_ok_empty)
    as (_ & Hfallback & _).
  exact (Hfallback H).
Defined.

(** C3, as worded, fails on a page whose only content is
    [<article>Short post</article>]: no tweet selector matches, the article is
    visible and its ten characters pass the gate of the first pass, yet the
    pass over the articles does not admit it.  It fails for the generic
    strategy too, on [<article>Short</article><p>...</p>]: the article is
    matched and gives no item, and the paragraph, visible and long enough, is
    never looked at. *)
Lemma fallback_gate_differs :
  ~ fallback_claim /\
  (flat_map (Pure.generic_admit false)
     (firstMatching Examples.short_article_long_paragraph
        GenericExtractor.contentSelectors) = [] /\
   items (GenericExtractor.extract false Examples.short_article_long_paragraph ∅).1
   = [] /\
   flat_map (Pure.generic_admit false)
     (querySelectorAll Examples.short_article_long_paragraph
        (Compound [ByTag (js "p")])) ≠ []).
Proof.
  split.
  - intros H.
    destruct (H false Examples.short_article ∅ cache_ok_empty) as [Htwitter _].
    assert (Hprimary :
      (TwitterExtractor.primary false Examples.short_article ∅).1 = []).
    { by vm_compute. }
    specialize (Htwitter Hprimary). vm_compute in Htwitter. discriminate Htwitter.
  - split; [by vm_compute|]. split; [by vm_compute|].
    intros H. vm_compute in H. discriminate H.
Qed.

(** ** Text collection on the edge cases *)

(** The collected text is the normal form of the joined fragments below the
    element; the tag of the element itself and of its ancestors plays no
    part. *)
Lemma collected_text w el textCache :
  cache_ok textCache ->
  (extractTextFromElement w el textCache).1
  = cleaned (join [SP] (fragments (childNodes el))).
Proof. intros Hok. apply (returns_value _ _ _ (returns_text w el) Hok). Qed.

Lemma collectText_no_fragment nodes : fragments nodes = [] -> collectText nodes = [].
Proof. intros H. unfold collectText. by rewrite H. Qed.

Lemma push_trimmed_white data :
  Forall (fun c => is_space c = true) data -> push_trimmed data = [].
Proof. intros H. unfold push_trimmed. by rewrite trim_all. Qed.

(** C5. The [script] element of a page that holds
    [<script id="content" type="application/json">...</script>]: the tree
    walker rejects its text node, whose parent is the [script]; the empty
    result hands over to the recursive walk, which never looks at the tag of
    the element it is called on; the text of the script is returned, and the
    generic strategy, whose [#content] selector matches the element, makes an
    item of it. *)
Theorem script_text_is_collected :
  excluded (self Examples.script_element) = true /\
  flat_map push_trimmed (nextNodes Examples.script_element) = [] /\
  (extractTextFromElement Examples.script_page Examples.script_element ∅).1
  = Examples.json_text /\
  exists it,
    items (GenericExtractor.extract false Examples.script_page ∅).1 = [it] /\
    textContent it = Examples.json_text /\
    element it = Examples.script_element.
Proof.
  split; [by vm_compute|]. split; [by vm_compute|]. split; [by vm_compute|].
  eexists. split; [by vm_compute|]. by vm_compute.
Qed.

(** ** Witnesses and scenarios *)

Lemma cleanText_normalises_witness :
  cache_ok ∅ /\
  (cleanText (js "   " ++ [LF; LF] ++ js "   ") ∅).1 = [].
Proof.
  split; [apply cache_ok_empty|].
  apply (cleanText_normalises (js "   " ++ [LF; LF] ++ js "   ") ∅ cache_ok_empty).
  vm_compute. repeat constructor.
Defined.

Lemma cleanText_idempotent_witness :
  cache_ok ∅ /\
  (cleanText
     (cleanText (js "Hello    world" ++ [LF; LF; LF] ++ js "test   text") ∅).1
     (cleanText (js "Hello    world" ++ [LF; LF; LF] ++ js "test   text") ∅).2).1
  = (cleanText (js "Hello    world" ++ [LF; LF; LF] ++ js "test   text") ∅).1.
Proof.
  split; [apply cache_ok_empty|].
  apply (cleanText_idempotent _ ∅ cache_ok_empty).
Defined.

(** "Whitespace collapse" of the specification. *)
Example whitespace_collapse :
  (cleanText (js "Hello    world" ++ [LF; LF; LF] ++ js "test   text") ∅).1
  = js "Hello world" ++ [LF; LF] ++ js "test text".
Proof. by vm_compute. Qed.

(** "Exclusion correctness" of the specification. *)
Example exclusion_correctness :
  (extractTextFromElement Examples.scenario_A Examples.mixed ∅).1
  = js "Visible text end".
Proof. by vm_compute. Qed.

(** End-to-end scenarios A, B and C of the specification. *)
Example scenario_A_one_post :
  (fun it => (textContent it, type it))
    <$> items (GenericExtractor.extract false Examples.scenario_A ∅).1
  = [(Examples.sixty_a, post)].
Proof. by vm_compute. Qed.

Example scenario_B_comment_then_post :
  (fun it => (textContent it, type it))
    <$> items (RedditExtractor.extract false Examples.scenario_B ∅).1
  = [(js "A visible comment, 30 chars...", comment);
     (js "The body of the post, forty characters..", post)].
Proof. by vm_compute. Qed.

Example scenario_C_title :
  (fun it => (textContent it, type it))
    <$> items (HackerNewsExtractor.extract false Examples.scenario_C ∅).1
  = [(js "An Interesting Story", post)].
Proof. by vm_compute. Qed.

(** * Further properties *)

#[local] Set Warnings "-clear-no-such-hyp".

(** ** The cache of [cleanText] *)

Lemma cleanText_cache_size text textCache :
  (size textCache <= 101)%nat -> (size (cleanText text textCache).2 <= 101)%nat.
Proof.
  intros Hsize. unfold cleanText.
  destruct (textCache !! text) as [hit|] eqn:Hhit; simpl; [done|].
  case_decide as Hfull.
  - rewrite map_size_insert_None by apply lookup_empty.
    rewrite map_size_empty. lia.
  - rewrite map_size_insert_None by done. lia.
Qed.

Lemma cache_after_app texts text textCache :
  cache_after (texts ++ [text]) textCache
  = (cleanText text (cache_after texts textCache)).2.
Proof. unfold cache_after. by rewrite fold_left_app. Qed.

Lemma cache_after_ok texts : cache_ok (cache_after texts ∅).
Proof.
  induction texts as [|text texts IH] using rev_ind; [apply cache_ok_empty|].
  rewrite cache_after_app. by apply returns_cleanText.
Qed.

(** X1. However many strings a new extractor has normalised, its cache never
    holds more than 101 entries. *)
Theorem textCache_bounded texts : (size (cache_after texts ∅) <= 101)%nat.
Proof.
  induction texts as [|text texts IH] using rev_ind.
  - unfold cache_after. simpl. rewrite map_size_empty. lia.
  - rewrite cache_after_app. by apply cleanText_cache_size.
Qed.

(** X2. The cache is transparent: whatever a new extractor has normalised
    before, [cleanText] returns what it returns with an empty cache. *)
Theorem textCache_transparent texts text :
  (cleanText text (cache_after texts ∅)).1 = (cleanText text ∅).1.
Proof.
  rewrite (returns_value _ _ _ (returns_cleanText text) (cache_after_ok texts)).
  by rewrite (returns_value _ _ _ (returns_cleanText text) cache_ok_empty).
Qed.

(** X3. A repeated call is a cache hit: after a call, whatever the cache
    held before, the cache holds the text with the string that was returned;
    a call that finds the text in the cache returns what is stored and leaves
    the cache untouched; so calling [cleanText] again on the same text returns
    the same string and leaves the cache as the first call left it. *)
Theorem cleanText_repeated text textCache :
  (cleanText text textCache).2 !! text = Some (cleanText text textCache).1 /\
  (forall hit, textCache !! text = Some hit ->
     cleanText text textCache = (hit, textCache)) /\
  cleanText text (cleanText text textCache).2
  = ((cleanText text textCache).1, (cleanText text textCache).2).
Proof.
  assert (Hstored : (cleanText text textCache).2 !! text
                    = Some (cleanText text textCache).1).
  { unfold cleanText. destruct (textCache !! text) as [hit|] eqn:Hhit; simpl;
      [done|by rewrite lookup_insert_eq]. }
  assert (Hhits : forall cache hit, cache !! text = Some hit ->
                    cleanText text cache = (hit, cache)).
  { intros cache hit Hhit. unfold cleanText. by rewrite Hhit. }
  split; [done|]. split; [apply Hhits|]. by apply Hhits.
Qed.

(** ** The shape of a normalised string *)

Lemma squeezed_no_tab s : squeezed s -> TAB ∉ s.
Proof.
  induction s as [|c r IH]; [intros _ ?%elem_of_nil; done|].
  intros [Hc Hr] [<-|Hin]%elem_of_cons; [|by apply IH].
  by destruct (Hc eq_refl).
Qed.

Lemma squeezed_no_double_space s a b : squeezed s -> s ≠ a ++ SP :: SP :: b.
Proof.
  intros Hs ->. apply squeezed_app_r in Hs. destruct Hs as [Hc _].
  by destruct (Hc eq_refl) as [_ Hhead].
Qed.

Lemma rest_after_lf_behind ws b :
  Forall (fun x => is_space x = true) ws ->
  exists t, rest_after_lf (ws ++ LF :: b) = Some t /\ (length t <= length b)%nat.
Proof.
  induction 1 as [|c ws Hc _ (t & Ht & Hlen)]; simpl app.
  - rewrite rest_after_lf_lf.
    destruct (rest_after_lf b) as [u|] eqn:Hu; simpl.
    + exists u. split; [done|]. apply rest_after_lf_length in Hu. lia.
    + by exists b.
  - exists t. split; [|done]. simpl. by rewrite Hc, Ht.
Qed.

Lemma settled_no_blank_line s a ws b :
  settled s -> Forall (fun x => is_space x = true) ws -> ws ≠ [] ->
  s ≠ a ++ LF :: ws ++ LF :: b.
Proof.
  intros Hs Hws Hne ->. apply settled_app_r in Hs. destruct Hs as [Hc _].
  destruct (rest_after_lf_behind ws b Hws) as (t & Ht & Hlen).
  destruct (Hc eq_refl) as [Hnone|[Hsome _]]; [congruence|].
  rewrite Ht in Hsome. injection Hsome as ->.
  destruct ws as [|c ws]; [done|]. simpl in Hlen.
  rewrite length_app in Hlen. simpl in Hlen. lia.
Qed.

Lemma cleaned_squeezed s : squeezed (cleaned s).
Proof.
  rewrite cleaned_collapse.
  destruct (trim_split (collapse s)) as (w1 & w2 & Hs & _).
  pose proof (collapse_squeezed s) as Hq. rewrite Hs in Hq.
  by apply squeezed_app_r, squeezed_app_l in Hq.
Qed.

Lemma cleaned_settled s : settled (cleaned s).
Proof.
  rewrite cleaned_collapse.
  destruct (trim_split (collapse s)) as (w1 & w2 & Hs & _).
  pose proof (collapse_settled s) as Hq. rewrite Hs in Hq.
  by apply settled_app_r, settled_app_l in Hq.
Qed.

(** X4. What [cleanText] returns holds no tab, no two spaces in a row, no
    line feed that is followed by further white space and another line feed
    (so never three line feeds in a row), and neither starts nor ends with
    white space. *)
Theorem cleanText_shape text textCache :
  cache_ok textCache ->
  (TAB ∉ (cleanText text textCache).1) /\
  (forall a b, (cleanText text textCache).1 ≠ a ++ SP :: SP :: b) /\
  (forall a ws b, Forall (fun c => is_space c = true) ws -> ws ≠ [] ->
     (cleanText text textCache).1 ≠ a ++ LF :: ws ++ LF :: b) /\
  (forall c r, (cleanText text textCache).1 = c :: r -> is_space c = false) /\
  (forall r c, (cleanText text textCache).1 = r ++ [c] -> is_space c = false).
Proof.
  intros Hok. rewrite (returns_value _ _ _ (returns_cleanText text) Hok).
  split; [apply squeezed_no_tab, cleaned_squeezed|].
  split; [intros a b; apply squeezed_no_double_space, cleaned_squeezed|].
  split; [intros a ws b; apply settled_no_blank_line, cleaned_settled|].
  rewrite cleaned_collapse.
  destruct (trim_result (collapse text)) as [->|[(x & r' & Hx & Hsp) (r'' & y & Hy & Hsp')]].
  - split; [done|]. intros r c H. by destruct r.
  - split.
    + intros c r Hc. rewrite Hc in Hx. by injection Hx as -> _.
    + intros r c Hc. rewrite Hc in Hy. by apply app_inj_tail in Hy as [_ ->].
Qed.

Lemma cleanText_shape_witness :
  cache_ok ∅ /\ (TAB ∉ (cleanText (js "a" ++ [TAB; TAB] ++ js "b") ∅).1).
Proof.
  split; [apply cache_ok_empty|].
  apply (cleanText_shape (js "a" ++ [TAB; TAB] ++ js "b") ∅ cache_ok_empty).
Defined.

(** ** Normalisation only removes white space *)

Lemma collapse_blanks_length s : (length (collapse_blanks s) <= length s)%nat.
Proof.
  induction s as [|c r Hc IH|c r Hc IH] using blanks_ind; [done|..].
  - rewrite collapse_blanks_copy by done. simpl. lia.
  - rewrite collapse_blanks_run by done. simpl.
    pose proof (skip_while_length is_blank r). lia.
Qed.

Lemma collapse_blank_lines_length s :
  (length (collapse_blank_lines s) <= length s)%nat.
Proof.
  induction s as [|c r Hc IH|r Hr IH|r t Hr IH] using blank_lines_ind; [done|..].
  - rewrite collapse_blank_lines_copy by done. simpl. lia.
  - rewrite collapse_blank_lines_one by done. simpl. lia.
  - rewrite (collapse_blank_lines_run r t) by done. simpl.
    apply rest_after_lf_length in Hr. lia.
Qed.

Lemma trim_length s : (length (trim s) <= length s)%nat.
Proof.
  destruct (trim_split s) as (w1 & w2 & Hs & _).
  rewrite Hs at 2. rewrite !length_app. lia.
Qed.

Lemma ink_app a b : ink (a ++ b) = ink a ++ ink b.
Proof. apply List.filter_app. Qed.

Lemma ink_cons c l : ink (c :: l) = ink [c] ++ ink l.
Proof. apply (ink_app [c] l). Qed.

Lemma ink_white w : Forall (fun x => is_space x = true) w -> ink w = [].
Proof.
  induction 1 as [|c w Hc _ IH]; [done|]. unfold ink in *. simpl. by rewrite Hc.
Qed.

Lemma Forall_blank_space w :
  Forall (fun x => is_blank x = true) w -> Forall (fun x => is_space x = true) w.
Proof. intros H. eapply Forall_impl; [exact H|]. apply is_blank_space. Qed.

Lemma ink_collapse_blanks s : ink (collapse_blanks s) = ink s.
Proof.
  induction s as [|c r Hc IH|c r Hc IH] using blanks_ind; [done|..].
  - rewrite collapse_blanks_copy by done.
    by rewrite (ink_cons c r), (ink_cons c (collapse_blanks r)), IH.
  - rewrite collapse_blanks_run by done.
    destruct (skip_while_split is_blank r) as (run & Hr & Hrun).
    rewrite Hr at 2.
    change (ink (SP :: ?l)) with (ink l).
    rewrite IH, (ink_cons c), ink_app, (ink_white run)
      by by apply Forall_blank_space.
    rewrite (ink_white [c]); [done|]. constructor; [by apply is_blank_space|done].
Qed.

Lemma ink_collapse_blank_lines s : ink (collapse_blank_lines s) = ink s.
Proof.
  induction s as [|c r Hc IH|r Hr IH|r t Hr IH] using blank_lines_ind; [done|..].
  - rewrite collapse_blank_lines_copy by done.
    by rewrite (ink_cons c r), (ink_cons c (collapse_blank_lines r)), IH.
  - rewrite collapse_blank_lines_one by done.
    change (ink (LF :: ?l)) with (ink l). by rewrite IH.
  - rewrite (collapse_blank_lines_run r t) by done.
    destruct (rest_after_lf_split _ _ Hr) as (ws & -> & Hws & _).
    change (ink (LF :: LF :: ?l)) with (ink l).
    change (ink (LF :: ?l)) with (ink l).
    rewrite IH, ink_app, (ink_white ws) by done. done.
Qed.

Lemma ink_trim s : ink (trim s) = ink s.
Proof.
  destruct (trim_split s) as (w1 & w2 & Hs & Hw1 & Hw2 & _).
  rewrite Hs at 2. rewrite !ink_app, (ink_white w1), (ink_white w2) by done.
  by rewrite app_nil_r.
Qed.

(** X5. Normalisation touches white space only and never lengthens: the
    code units of the result that are not white space are those of the input,
    in the same order, and the result is not longer than the input. *)
Theorem cleanText_keeps_ink text textCache :
  cache_ok textCache ->
  ink (cleanText text textCache).1 = ink text /\
  (length (cleanText text textCache).1 <= length text)%nat.
Proof.
  intros Hok. rewrite (returns_value _ _ _ (returns_cleanText text) Hok).
  unfold cleaned. split.
  - by rewrite ink_trim, ink_collapse_blank_lines, ink_collapse_blanks.
  - change (replace_all re_blank_lines [LF; LF]) with collapse_blank_lines.
    change (replace_all re_blanks [SP]) with collapse_blanks.
    pose proof (trim_length (collapse_blank_lines (collapse_blanks text))).
    pose proof (collapse_blank_lines_length (collapse_blanks text)).
    pose proof (collapse_blanks_length text). lia.
Qed.

Lemma cleanText_keeps_ink_witness :
  cache_ok ∅ /\
  ink (cleanText (js " a  b " ++ [LF; LF; LF] ++ js "c ") ∅).1 = js "abc".
Proof.
  split; [apply cache_ok_empty|].
  destruct (cleanText_keeps_ink (js " a  b " ++ [LF; LF; LF] ++ js "c ") ∅
              cache_ok_empty) as [H _].
  rewrite H. reflexivity.
Defined.

(** ** The id is a decimal number *)

Lemma generateId_toString s : generateId s = toString (Z.abs (hash_of s)).
Proof. by destruct s. Qed.

Lemma hash_of_range s : (- 2 ^ 31 <= hash_of s < 2 ^ 31)%Z.
Proof.
  unfold hash_of. rewrite fold_hash_step. apply rolling_hash_range.
Qed.

Lemma js_inj a b : js a = js b -> a = b.
Proof.
  unfold js. intros H.
  rewrite <- (String.string_of_list_ascii_of_string a),
    <- (String.string_of_list_ascii_of_string b).
  f_equal. revert H.
  generalize (String.list_ascii_of_string a) (String.list_ascii_of_string b).
  induction l as [|x l IH]; intros [|y l']; simpl; try done.
  intros [= Hxy Hl]. f_equal; [|by apply IH].
  by rewrite <- (ascii_N_embedding x), <- (ascii_N_embedding y), Hxy.
Qed.

Lemma to_uint_nonnil n : N.to_uint n ≠ Decimal.Nil.
Proof.
  intros H. assert (Hn : n = 0%N).
  { rewrite <- (DecimalN.Unsigned.of_to n), H. reflexivity. }
  subst n. discriminate H.
Qed.

Lemma toString_inj a b :
  (0 <= a)%Z -> (0 <= b)%Z -> toString a = toString b -> a = b.
Proof.
  intros Ha Hb H%js_inj.
  assert (Hu : N.to_uint (Z.to_N a) = N.to_uint (Z.to_N b)).
  { pose proof (NilZero.usu _ (to_uint_nonnil (Z.to_N a))) as H1.
    pose proof (NilZero.usu _ (to_uint_nonnil (Z.to_N b))) as H2.
    rewrite H in H1. congruence. }
  apply (f_equal N.of_uint) in Hu. rewrite !DecimalN.Unsigned.of_to in Hu. lia.
Qed.

Lemma digits_of_uint d :
  Forall (fun c => is_digit c = true) (js (NilEmpty.string_of_uint d)).
Proof. induction d; simpl; constructor; done. Qed.

(** X6. An id is a non-empty string of decimal digits. *)
Theorem generateId_digits content :
  generateId content ≠ [] /\
  Forall (fun c => is_digit c = true) (generateId content).
Proof.
  rewrite generateId_toString. unfold toString, NilZero.string_of_uint.
  pose proof (digits_of_uint (N.to_uint (Z.to_N (Z.abs (hash_of content))))) as Hd.
  pose proof (to_uint_nonnil (Z.to_N (Z.abs (hash_of content)))) as Hn.
  destruct (N.to_uint _) as [| | | | | | | | | |] eqn:Hu; done.
Qed.

(** X7. Two texts get the same id exactly when their 32-bit hashes have the
    same absolute value: the id loses the sign of the hash and nothing
    else. *)
Theorem generateId_same_id a b :
  generateId a = generateId b <-> Z.abs (hash_of a) = Z.abs (hash_of b).
Proof.
  rewrite !generateId_toString. split; [|by intros ->].
  apply toString_inj; lia.
Qed.

(** ** Visibility *)

(** X8. The test of [offsetParent] never decides: an element is reported
    visible or not whatever its [offsetParent] is. *)
Theorem isElementVisible_ignores_offsetParent null el :
  isElementVisible (with_offsetParent null el) = isElementVisible el.
Proof.
  unfold isElementVisible, with_offsetParent. simpl.
  destruct (isConnected el); simpl; [|done].
  destruct (bool_decide (display (style (self el)) = js "none")).
  - by rewrite !andb_true_r, !Tauto.if_same.
  - by rewrite !andb_false_r.
Qed.

(** X9. An element is reported visible exactly when it is connected, its
    inline style says neither [display: none] nor [visibility: hidden], its
    bounding box has a width and a height other than zero, and its computed
    style, when the host gives one, says neither of the two. *)
Theorem isElementVisible_iff el :
  isElementVisible el = true <->
  isConnected el = true /\
  display (style (self el)) ≠ js "none" /\
  visibility (style (self el)) ≠ js "hidden" /\
  ~ (width (boundingClientRect (self el)) == 0)%Q /\
  ~ (height (boundingClientRect (self el)) == 0)%Q /\
  (forall computed, computedStyle (self el) = Some computed ->
     display computed ≠ js "none" /\ visibility computed ≠ js "hidden").
Proof.
  unfold isElementVisible. rewrite <- !Qeq_bool_iff.
  destruct (isConnected el); simpl; [|naive_solver].
  destruct (bool_decide_reflect (display (style (self el)) = js "none")) as [Hd|Hd].
  { rewrite andb_true_r, Tauto.if_same. naive_solver. }
  rewrite andb_false_r. simpl.
  destruct (bool_decide_reflect (visibility (style (self el)) = js "hidden")) as [Hv|Hv];
    [naive_solver|].
  destruct (Qeq_bool (width _) 0); simpl; [naive_solver|].
  destruct (Qeq_bool (height _) 0); simpl; [naive_solver|].
  destruct (computedStyle (self el)) as [computed|]; [|naive_solver].
  destruct (bool_decide_reflect (display computed = js "none")); simpl;
    [naive_solver|].
  destruct (bool_decide_reflect (visibility computed = js "hidden")); simpl;
    naive_solver.
Qed.

(** ** What the collected text depends on *)

(** X10. The collected text is a function of the child nodes of the element
    alone: neither the host (tree walker or not), nor the tag, attributes
    and ancestors of the element, nor the content of the cache change it. *)
Theorem collected_text_depends_on_children w w' el el' textCache textCache' :
  cache_ok textCache -> cache_ok textCache' ->
  childNodes el = childNodes el' ->
  (extractTextFromElement w el textCache).1
  = (extractTextFromElement w' el' textCache').1.
Proof.
  intros Hok Hok' Hkids.
  rewrite (returns_value _ _ _ (returns_text w el) Hok).
  rewrite (returns_value _ _ _ (returns_text w' el') Hok').
  unfold text_of. by rewrite Hkids.
Qed.

Lemma collected_text_depends_on_children_witness :
  cache_ok ∅ /\
  (extractTextFromElement Examples.scenario_A Examples.mixed ∅).1
  = (extractTextFromElement Examples.script_page
       (with_offsetParent true Examples.mixed) ∅).1.
Proof.
  split; [apply cache_ok_empty|].
  apply (collected_text_depends_on_children Examples.scenario_A
           Examples.script_page Examples.mixed
           (with_offsetParent true Examples.mixed) ∅ ∅
           cache_ok_empty cache_ok_empty eq_refl).
Defined.

(** X11. The collected text is in normal form: normalising it again changes
    nothing. *)
Theorem collected_text_normal w el textCache textCache' :
  cache_ok textCache -> cache_ok textCache' ->
  (cleanText (extractTextFromElement w el textCache).1 textCache').1
  = (extractTextFromElement w el textCache).1.
Proof.
  intros Hok Hok'.
  rewrite (returns_value _ _ _ (returns_text w el) Hok).
  rewrite (returns_value _ _ _ (returns_cleanText _) Hok').
  apply cleaned_fixed.
Qed.

Lemma collected_text_normal_witness :
  cache_ok ∅ /\
  (cleanText (extractTextFromElement Examples.scenario_A Examples.mixed ∅).1 ∅).1
  = (extractTextFromElement Examples.scenario_A Examples.mixed ∅).1.
Proof.
  split; [apply cache_ok_empty|].
  apply (collected_text_normal Examples.scenario_A Examples.mixed ∅ ∅
           cache_ok_empty cache_ok_empty).
Defined.

Lemma fragments_app a b : fragments (a ++ b) = fragments a ++ fragments b.
Proof. apply flat_map_app. Qed.

(** X12. What lies below a descendant [script], [style], [noscript], [svg]
    or [canvas] element, and any comment node, has no part in the collected
    text: taking the element or the comment out of the children leaves the
    text as it is. *)
Theorem collected_text_skips_excluded w el el' before n after textCache :
  cache_ok textCache ->
  childNodes el = before ++ n :: after ->
  childNodes el' = before ++ after ->
  (exists data, n = CommentNode data) \/
  (exists e ks, n = ElementNode e ks /\ excluded e = true) ->
  (extractTextFromElement w el textCache).1
  = (extractTextFromElement w el' textCache).1.
Proof.
  intros Hok Hel Hel' Hn.
  rewrite (returns_value _ _ _ (returns_text w el) Hok).
  rewrite (returns_value _ _ _ (returns_text w el') Hok).
  unfold text_of, collectText. rewrite Hel, Hel'.
  rewrite !fragments_app. f_equal. f_equal. f_equal.
  change (fragments (n :: after)) with (fragments_of n ++ fragments after).
  destruct Hn as [[data ->]|(e & ks & -> & He)]; simpl; [done|by rewrite He].
Qed.

Lemma collected_text_skips_excluded_witness :
  cache_ok ∅ /\ excluded (Examples.tag "SCRIPT" [] []) = true /\
  (extractTextFromElement Examples.scenario_A Examples.mixed ∅).1
  = (extractTextFromElement Examples.scenario_A
       (with_childNodes
          [ TextNode (js "Visible ");
            ElementNode (Examples.tag "SPAN" [] []) [TextNode (js " text ")];
            ElementNode (Examples.tag "STYLE" [] []) [TextNode (js ".x{}")];
            TextNode (js " end") ] Examples.mixed) ∅).1.
Proof.
  split; [apply cache_ok_empty|]. split; [reflexivity|].
  apply (collected_text_skips_excluded Examples.scenario_A Examples.mixed
           (with_childNodes
              [ TextNode (js "Visible ");
                ElementNode (Examples.tag "SPAN" [] []) [TextNode (js " text ")];
                ElementNode (Examples.tag "STYLE" [] []) [TextNode (js ".x{}")];
                TextNode (js " end") ] Examples.mixed)
           [TextNode (js "Visible ")]
           (ElementNode (Examples.tag "SCRIPT" [] []) [TextNode (js "hidden()")])
           [ ElementNode (Examples.tag "SPAN" [] []) [TextNode (js " text ")];
             ElementNode (Examples.tag "STYLE" [] []) [TextNode (js ".x{}")];
             TextNode (js " end") ]
           ∅ cache_ok_empty eq_refl eq_refl).
  right. exists (Examples.tag "SCRIPT" [] []), [TextNode (js "hidden()")].
  split; reflexivity.
Defined.

(** X13. An element whose tag is not excluded is transparent: the collected
    text is the same as if the children of that element stood in its
    place. *)
Theorem collected_text_flattens w el el' before e ks after textCache :
  cache_ok textCache ->
  childNodes el = before ++ ElementNode e ks :: after ->
  childNodes el' = before ++ ks ++ after ->
  excluded e = false ->
  (extractTextFromElement w el textCache).1
  = (extractTextFromElement w el' textCache).1.
Proof.
  intros Hok Hel Hel' He.
  rewrite (returns_value _ _ _ (returns_text w el) Hok).
  rewrite (returns_value _ _ _ (returns_text w el') Hok).
  unfold text_of, collectText. rewrite Hel, Hel'.
  rewrite !fragments_app. f_equal. f_equal. f_equal.
  change (fragments (ElementNode e ks :: after))
    with (fragments_of (ElementNode e ks) ++ fragments after).
  simpl. by rewrite He.
Qed.

Lemma collected_text_flattens_witness :
  cache_ok ∅ /\ excluded (Examples.tag "SPAN" [] []) = false /\
  (extractTextFromElement Examples.scenario_A Examples.mixed ∅).1
  = (extractTextFromElement Examples.scenario_A
       (with_childNodes
          [ TextNode (js "Visible ");
            ElementNode (Examples.tag "SCRIPT" [] []) [TextNode (js "hidden()")];
            TextNode (js " text ");
            ElementNode (Examples.tag "STYLE" [] []) [TextNode (js ".x{}")];
            TextNode (js " end") ] Examples.mixed) ∅).1.
Proof.
  split; [apply cache_ok_empty|]. split; [reflexivity|].
  apply (collected_text_flattens Examples.scenario_A Examples.mixed
           (with_childNodes
              [ TextNode (js "Visible ");
                ElementNode (Examples.tag "SCRIPT" [] []) [TextNode (js "hidden()")];
                TextNode (js " text ");
                ElementNode (Examples.tag "STYLE" [] []) [TextNode (js ".x{}")];
                TextNode (js " end") ] Examples.mixed)
           [ TextNode (js "Visible ");
             ElementNode (Examples.tag "SCRIPT" [] []) [TextNode (js "hidden()")] ]
           (Examples.tag "SPAN" [] []) [TextNode (js " text ")]
           [ ElementNode (Examples.tag "STYLE" [] []) [TextNode (js ".x{}")];
             TextNode (js " end") ]
           ∅ cache_ok_empty eq_refl eq_refl eq_refl).
Defined.

(** X14. The collected text is empty exactly when no text node that counts
    (none below an excluded descendant) holds anything but white space. *)
Theorem collected_text_empty_iff w el textCache :
  cache_ok textCache ->
  (extractTextFromElement w el textCache).1 = [] <->
  fragments (childNodes el) = [].
Proof.
  intros Hok. rewrite (returns_value _ _ _ (returns_text w el) Hok).
  unfold text_of, collectText. split; [|by intros ->].
  intros Hnil. destruct (fragments (childNodes el)) as [|f fs] eqn:Hf; [done|].
  pose proof (fragments_solid (childNodes el)) as Hsolid. rewrite Hf in Hsolid.
  rewrite cleaned_join in Hnil by done.
  pose proof (join_solid _ (Forall_solid_collapse _ Hsolid) ltac:(done)) as Hj.
  rewrite Hnil in Hj. by apply solid_nonempty in Hj.
Qed.

Lemma collected_text_empty_iff_witness :
  cache_ok ∅ /\
  ((extractTextFromElement Examples.scenario_A Examples.mixed ∅).1 = [] <->
   fragments (childNodes Examples.mixed) = []).
Proof.
  split; [apply cache_ok_empty|].
  apply (collected_text_empty_iff Examples.scenario_A Examples.mixed ∅ cache_ok_empty).
Defined.

(** ** What every item is built with *)

Lemma Forall_if_singleton {A} (P : A -> Prop) (c : bool) (x : A) :
  (c = true -> P x) -> Forall P (if c then [x] else []).
Proof. destruct c; [|done]. intros H. constructor; [by apply H|done]. Qed.

Lemma Forall_flat_map_all {A B} (P : B -> Prop) (f : A -> list B) l :
  (forall a, Forall P (f a)) -> Forall P (flat_map f l).
Proof.
  intros H. induction l as [|a l IH]; [done|]. simpl. by apply Forall_app.
Qed.

Lemma fresh_html (includeHtml : bool) (nodes : list node) :
  (if includeHtml then Some nodes else None) = None <-> includeHtml = false.
Proof. by destruct includeHtml. Qed.

Lemma first_title_Forall includeHtml w (P : ContentItem -> Prop) links :
  (forall link text, P (HackerNewsExtractor.title_item includeHtml w link text)) ->
  Forall P (Pure.first_title includeHtml w links).
Proof.
  intros H. induction links as [|link rest IH]; [done|]. simpl.
  destruct (_ && _); [|done]. constructor; [apply H|done].
Qed.

Lemma hn_submission_Forall includeHtml w (P : ContentItem -> Prop) :
  (forall link text, P (HackerNewsExtractor.title_item includeHtml w link text)) ->
  (forall el text, P (HackerNewsExtractor.post_item includeHtml w el text)) ->
  Forall P (Pure.hn_submission includeHtml w).
Proof.
  intros Ht Hp. unfold Pure.hn_submission, Pure.hn_titles.
  destruct (querySelector w _) as [mainPost|]; [|by apply first_title_Forall].
  destruct (isElementVisible mainPost); [|by apply first_title_Forall].
  apply Forall_if_singleton. intros _. apply Hp.
Qed.

Lemma hn_comment_Forall includeHtml (P : ContentItem -> Prop) commentEl :
  (forall el content text,
     P (HackerNewsExtractor.comment_record includeHtml el content text)) ->
  Forall P (Pure.hn_comment includeHtml commentEl).
Proof.
  intros H. unfold Pure.hn_comment.
  destruct (Element_querySelector _ _); [|done].
  apply Forall_if_singleton. intros _. apply H.
Qed.

Lemma hn2_comment_Forall includeHtml (P : ContentItem -> Prop) commentEl :
  (forall el content text,
     P (Other.HackerNewsExtractor.comment_record includeHtml el content text)) ->
  Forall P (Pure.hn2_comment includeHtml commentEl).
Proof.
  intros H. unfold Pure.hn2_comment.
  destruct (Element_querySelector _ _); [|done].
  apply Forall_if_singleton. intros _. apply H.
Qed.

Lemma hn2_story_Forall includeHtml (P : ContentItem -> Prop) storyEl :
  (forall el title text,
     P (Other.HackerNewsExtractor.story_record includeHtml el title text)) ->
  Forall P (Pure.hn2_story includeHtml storyEl).
Proof.
  intros H. unfold Pure.hn2_story.
  destruct (Element_querySelector _ _); [|done].
  apply Forall_if_singleton. intros _. apply H.
Qed.

(** X15. In every strategy (both revisions of Reddit and Hacker News
    included), every item is built the same way: its id is [generateId] of its
    text, it is not selected, and it carries a markup snapshot exactly when
    the extractor was made with [includeHtml]. *)
Theorem items_are_fresh includeHtml w COMMENT_ID textCache :
  cache_ok textCache ->
  Forall (fresh_item includeHtml)
    (items (GenericExtractor.extract includeHtml w textCache).1) /\
  Forall (fresh_item includeHtml)
    (items (RedditExtractor.extract includeHtml w textCache).1) /\
  Forall (fresh_item includeHtml)
    (items (Other.RedditExtractor.extract includeHtml w COMMENT_ID textCache).1) /\
  Forall (fresh_item includeHtml)
    (items (TwitterExtractor.extract includeHtml w textCache).1) /\
  Forall (fresh_item includeHtml)
    (items (HackerNewsExtractor.extract includeHtml w textCache).1) /\
  Forall (fresh_item includeHtml)
    (items (Other.HackerNewsExtractor.extract includeHtml w textCache).1).
Proof.
  intros Hok.
  rewrite (returns_value _ _ _ (returns_generic includeHtml w) Hok).
  rewrite (returns_value _ _ _ (returns_reddit includeHtml w) Hok).
  rewrite (returns_value _ _ _ (returns_reddit2 includeHtml w COMMENT_ID) Hok).
  rewrite (returns_value _ _ _ (returns_twitter includeHtml w) Hok).
  rewrite (returns_value _ _ _ (returns_hackernews includeHtml w) Hok).
  rewrite (returns_value _ _ _ (returns_hackernews2 includeHtml w) Hok).
  assert (Hfresh : forall nodes : list node,
            (if includeHtml then Some nodes else None) = None
            <-> includeHtml = false)
    by apply fresh_html.
  split; [|split; [|split; [|split; [|split]]]].
  - apply Forall_flat_map_all. intros el. apply Forall_if_singleton. intros _.
    repeat split; apply Hfresh.
  - apply Forall_app. split; apply Forall_flat_map_all; intros el;
      apply Forall_if_singleton; intros _; repeat split; apply Hfresh.
  - apply Forall_app. split; apply Forall_flat_map_all; intros el;
      apply Forall_if_singleton; intros _; repeat split; apply Hfresh.
  - unfold Pure.twitter. destruct (_ =? _)%nat; apply Forall_flat_map_all;
      intros el; apply Forall_if_singleton; intros _; repeat split; apply Hfresh.
  - apply Forall_app. split.
    + apply hn_submission_Forall; intros; repeat split; apply Hfresh.
    + apply Forall_flat_map_all. intros el.
      apply hn_comment_Forall; intros; repeat split; apply Hfresh.
  - unfold Pure.hackernews2, Pure.hn2_comments.
    destruct (_ =? _)%nat; apply Forall_flat_map_all; intros el.
    + apply hn2_story_Forall; intros; repeat split; apply Hfresh.
    + apply hn2_comment_Forall; intros; repeat split; apply Hfresh.
Qed.

Lemma items_are_fresh_witness :
  cache_ok ∅ /\
  Forall (fresh_item true)
    (items (RedditExtractor.extract true Examples.scenario_B ∅).1).
Proof.
  split; [apply cache_ok_empty|].
  destruct (items_are_fresh true Examples.scenario_B
              SITE_SELECTORS.HACKER_NEWS.COMMENT_ID ∅ cache_ok_empty)
    as (_ & H & _).
  exact H.
Defined.

(** ** The whole result of each strategy *)

Lemma returns_generic_content includeHtml w :
  returns (GenericExtractor.extract includeHtml w)
    (fun content => content =
       {| pageURL := location_href w;
          title := or_else (document_title w) (js "Untitled Page");
          items := Pure.generic includeHtml w |}).
Proof.
  unfold GenericExtractor.extract, Pure.generic, Pure.generic_candidates.
  eapply returns_bind
    with (P := fun found => found = Pure.generic_candidates w).
  - unfold Pure.generic_candidates. destruct (_ =? _)%nat; [|by apply returns_ret].
    apply returns_filterM. intros p.
    destruct (isElementVisible p); [|by apply returns_ret].
    eapply returns_bind; [apply returns_text|]. intros text ->.
    by apply returns_ret.
  - intros found ->. eapply returns_bind.
    + apply returns_forEach with (pure := Pure.generic_admit includeHtml).
      intros el. eapply returns_bind; [apply returns_text|]. intros text ->.
      by apply returns_ret.
    + intros out ->. by apply returns_ret.
Qed.

Lemma returns_reddit_content includeHtml w :
  returns (RedditExtractor.extract includeHtml w)
    (fun content => content =
       {| pageURL := location_href w;
          title := or_else (document_title w) (js "Reddit");
          items := Pure.reddit includeHtml w |}).
Proof.
  unfold RedditExtractor.extract, Pure.reddit.
  eapply returns_bind; [apply returns_forEach, returns_reddit_item|].
  intros comments ->.
  eapply returns_bind; [apply returns_forEach, returns_reddit_item|].
  intros posts ->. by apply returns_ret.
Qed.

Lemma returns_reddit2_content includeHtml w COMMENT_ID :
  returns (Other.RedditExtractor.extract includeHtml w COMMENT_ID)
    (fun content => content =
       {| pageURL := location_href w;
          title := or_else (document_title w) (js "Reddit");
          items := Pure.reddit2 includeHtml w COMMENT_ID |}).
Proof.
  assert (Hitem : forall record el,
    returns (Other.RedditExtractor.item_of w record el)
      (fun out => out = Pure.reddit2_admit record el)).
  { intros record el. unfold Other.RedditExtractor.item_of, Pure.reddit2_admit.
    destruct (isElementVisible el); [|by apply returns_ret].
    eapply returns_bind; [apply returns_text|]. intros text ->.
    by apply returns_ret. }
  unfold Other.RedditExtractor.extract, Pure.reddit2.
  eapply returns_bind; [apply returns_forEach, Hitem|]. intros comments ->.
  eapply returns_bind; [apply returns_forEach, Hitem|]. intros posts ->.
  by apply returns_ret.
Qed.

Lemma returns_twitter_content includeHtml w :
  returns (TwitterExtractor.extract includeHtml w)
    (fun content => content =
       {| pageURL := location_href w;
          title := or_else (document_title w) (js "Twitter/X");
          items := Pure.twitter includeHtml w |}).
Proof.
  unfold TwitterExtractor.extract, Pure.twitter.
  eapply returns_bind; [apply returns_twitter_primary|]. intros tweets ->.
  eapply returns_bind with (P := fun out => out = Pure.twitter includeHtml w).
  - unfold Pure.twitter. destruct (_ =? _)%nat eqn:Hlen; [|by apply returns_ret].
    eapply returns_bind; [apply returns_twitter_fallback|]. intros articles ->.
    apply returns_ret. apply Nat.eqb_eq, nil_length_inv in Hlen. by rewrite Hlen.
  - intros out ->. by apply returns_ret.
Qed.

Lemma returns_hackernews_content includeHtml w :
  returns (HackerNewsExtractor.extract includeHtml w)
    (fun content => content =
       {| pageURL := location_href w;
          title := or_else (document_title w) (js "Hacker News");
          items := Pure.hackernews includeHtml w |}).
Proof.
  unfold HackerNewsExtractor.extract, Pure.hackernews.
  eapply returns_bind with (P := fun out => out = Pure.hn_submission includeHtml w).
  - unfold HackerNewsExtractor.submission, Pure.hn_submission, Pure.hn_titles.
    destruct (querySelector w _) as [mainPost|]; [|apply returns_firstTitle].
    destruct (isElementVisible mainPost); [|apply returns_firstTitle].
    eapply returns_bind; [apply returns_text|]. intros text ->.
    by apply returns_ret.
  - intros main ->. eapply returns_bind.
    + apply returns_forEach with (pure := Pure.hn_comment includeHtml).
      intros commentEl.
      unfold HackerNewsExtractor.comment_item, Pure.hn_comment.
      destruct (Element_querySelector commentEl _) as [commentContent|];
        [|by apply returns_ret].
      destruct (isElementVisible commentContent); [|by apply returns_ret].
      eapply returns_bind; [apply returns_text|]. intros text ->.
      by apply returns_ret.
    + intros comments ->. by apply returns_ret.
Qed.

Lemma returns_hackernews2_content includeHtml w :
  returns (Other.HackerNewsExtractor.extract includeHtml w)
    (fun content => content =
       {| pageURL := location_href w;
          title := or_else (document_title w) (js "Hacker News");
          items := Pure.hackernews2 includeHtml w |}).
Proof.
  unfold Other.HackerNewsExtractor.extract, Pure.hackernews2, Pure.hn2_comments.
  eapply returns_bind.
  { apply returns_forEach with (pure := Pure.hn2_comment includeHtml).
    intros commentEl.
    unfold Other.HackerNewsExtractor.comment_item, Pure.hn2_comment.
    destruct (Element_querySelector commentEl _) as [commentContent|];
      [|by apply returns_ret].
    destruct (isElementVisible commentContent); [|by apply returns_ret].
    eapply returns_bind; [apply returns_text|]. intros text ->.
    by apply returns_ret. }
  intros comments ->.
  eapply returns_bind with (P := fun out => out = Pure.hackernews2 includeHtml w).
  - unfold Pure.hackernews2, Pure.hn2_comments.
    destruct (_ =? _)%nat eqn:Hlen; [|by apply returns_ret].
    apply Nat.eqb_eq, nil_length_inv in Hlen. rewrite Hlen.
    eapply returns_bind.
    { apply returns_forEach with (pure := Pure.hn2_story includeHtml).
      intros storyEl.
      unfold Other.HackerNewsExtractor.story_item, Pure.hn2_story.
      destruct (Element_querySelector storyEl _) as [titleEl|];
        [|by apply returns_ret].
      destruct (isElementVisible titleEl); [|by apply returns_ret].
      eapply returns_bind; [apply returns_text|]. intros text ->.
      by apply returns_ret. }
    intros stories ->. by apply returns_ret.
  - intros out ->. by apply returns_ret.
Qed.

Lemma returns_same {A} (m m' : M A) (v : A) textCache textCache' :
  returns m (fun r => r = v) -> returns m' (fun r => r = v) ->
  cache_ok textCache -> cache_ok textCache' ->
  (m textCache).1 = (m' textCache').1 /\
  cache_ok (m textCache).2 /\ cache_ok (m' textCache').2.
Proof.
  intros Hm Hm' Hok Hok'.
  destruct (Hm textCache Hok) as [-> ?]. destruct (Hm' textCache' Hok') as [-> ?].
  done.
Qed.

(** X16. Extraction does not depend on the host's tree walker nor on what
    the cache holds: in every strategy, from any two caches left by earlier
    normalisations, with or without [document.createTreeWalker], [extract]
    returns the same result; and it leaves the cache sound. *)
Theorem extract_independent_of_host_and_cache
  includeHtml w COMMENT_ID available textCache textCache' :
  cache_ok textCache -> cache_ok textCache' ->
  ((GenericExtractor.extract includeHtml w textCache).1
   = (GenericExtractor.extract includeHtml (with_treeWalker available w) textCache').1
   /\ cache_ok (GenericExtractor.extract includeHtml w textCache).2) /\
  ((RedditExtractor.extract includeHtml w textCache).1
   = (RedditExtractor.extract includeHtml (with_treeWalker available w) textCache').1
   /\ cache_ok (RedditExtractor.extract includeHtml w textCache).2) /\
  ((Other.RedditExtractor.extract includeHtml w COMMENT_ID textCache).1
   = (Other.RedditExtractor.extract includeHtml (with_treeWalker available w)
        COMMENT_ID textCache').1
   /\ cache_ok (Other.RedditExtractor.extract includeHtml w COMMENT_ID textCache).2) /\
  ((TwitterExtractor.extract includeHtml w textCache).1
   = (TwitterExtractor.extract includeHtml (with_treeWalker available w) textCache').1
   /\ cache_ok (TwitterExtractor.extract includeHtml w textCache).2) /\
  ((HackerNewsExtractor.extract includeHtml w textCache).1
   = (HackerNewsExtractor.extract includeHtml (with_treeWalker available w) textCache').1
   /\ cache_ok (HackerNewsExtractor.extract includeHtml w textCache).2) /\
  ((Other.HackerNewsExtractor.extract includeHtml w textCache).1
   = (Other.HackerNewsExtractor.extract includeHtml (with_treeWalker available w)
        textCache').1
   /\ cache_ok (Other.HackerNewsExtractor.extract includeHtml w textCache).2).
Proof.
  intros Hok Hok'.
  split; [|split; [|split; [|split; [|split]]]].
  - destruct (returns_same _ _ _ _ _ (returns_generic_content includeHtml w)
      (returns_generic_content includeHtml (with_treeWalker available w)) Hok Hok')
      as (? & ? & _); done.
  - destruct (returns_same _ _ _ _ _ (returns_reddit_content includeHtml w)
      (returns_reddit_content includeHtml (with_treeWalker available w)) Hok Hok')
      as (? & ? & _); done.
  - destruct (returns_same _ _ _ _ _
      (returns_reddit2_content includeHtml w COMMENT_ID)
      (returns_reddit2_content includeHtml (with_treeWalker available w) COMMENT_ID)
      Hok Hok') as (? & ? & _); done.
  - destruct (returns_same _ _ _ _ _ (returns_twitter_content includeHtml w)
      (returns_twitter_content includeHtml (with_treeWalker available w)) Hok Hok')
      as (? & ? & _); done.
  - destruct (returns_same _ _ _ _ _ (returns_hackernews_content includeHtml w)
      (returns_hackernews_content includeHtml (with_treeWalker available w)) Hok Hok')
      as (? & ? & _); done.
  - destruct (returns_same _ _ _ _ _ (returns_hackernews2_content includeHtml w)
      (returns_hackernews2_content includeHtml (with_treeWalker available w)) Hok Hok')
      as (? & ? & _); done.
Qed.

Lemma extract_independent_of_host_and_cache_witness :
  cache_ok ∅ /\ cache_ok (cache_after [js " a  b "] ∅) /\
  (GenericExtractor.extract false Examples.scenario_A ∅).1
  = (GenericExtractor.extract false (with_treeWalker false Examples.scenario_A)
       (cache_after [js " a  b "] ∅)).1.
Proof.
  split; [apply cache_ok_empty|]. split; [apply cache_after_ok|].
  destruct (extract_independent_of_host_and_cache false Examples.scenario_A
              SITE_SELECTORS.HACKER_NEWS.COMMENT_ID false ∅
              (cache_after [js " a  b "] ∅) cache_ok_empty
              (cache_after_ok [js " a  b "])) as ([H _] & _).
  exact H.
Defined.

(** ** What [includeHtml] changes *)

Lemma fmap_flat_map_ext {A B C} (h : B -> C) (f g : A -> list B) l :
  (forall a, h <$> f a = h <$> g a) ->
  h <$> flat_map f l = h <$> flat_map g l.
Proof.
  intros H. induction l as [|a l IH]; [done|]. simpl.
  rewrite !fmap_app. by rewrite H, IH.
Qed.

Lemma fmap_length_eq {A B} (h : A -> B) (l l' : list A) :
  h <$> l = h <$> l' -> length l = length l'.
Proof. intros H. by rewrite <- (length_fmap h l), H, length_fmap. Qed.

Lemma generic_without_html w :
  without_html <$> Pure.generic true w = without_html <$> Pure.generic false w.
Proof.
  apply fmap_flat_map_ext. intros el. unfold Pure.generic_admit.
  by destruct (longer_than _ _).
Qed.

Lemma reddit_without_html w :
  without_html <$> Pure.reddit true w = without_html <$> Pure.reddit false w.
Proof.
  unfold Pure.reddit. rewrite !fmap_app.
  f_equal; apply fmap_flat_map_ext; intros el; unfold Pure.reddit_admit;
    by destruct (_ && _).
Qed.

Lemma reddit2_without_html w COMMENT_ID :
  without_html <$> Pure.reddit2 true w COMMENT_ID
  = without_html <$> Pure.reddit2 false w COMMENT_ID.
Proof.
  unfold Pure.reddit2. rewrite !fmap_app.
  f_equal; apply fmap_flat_map_ext; intros el; unfold Pure.reddit2_admit;
    by destruct (_ && _).
Qed.

Lemma twitter_without_html w :
  without_html <$> Pure.twitter true w = without_html <$> Pure.twitter false w.
Proof.
  assert (Hp : without_html <$> Pure.twitter_primary true w
               = without_html <$> Pure.twitter_primary false w).
  { apply fmap_flat_map_ext. intros el. unfold Pure.tweet_admit.
    by destruct (_ && _). }
  unfold Pure.twitter. rewrite (fmap_length_eq _ _ _ Hp).
  destruct (_ =? _)%nat; [|done].
  apply fmap_flat_map_ext. intros el. unfold Pure.article_admit.
  by destruct (_ && _).
Qed.

Lemma first_title_without_html w links :
  without_html <$> Pure.first_title true w links
  = without_html <$> Pure.first_title false w links.
Proof.
  induction links as [|link rest IH]; [done|]. simpl. by destruct (_ && _).
Qed.

Lemma hackernews_without_html w :
  without_html <$> Pure.hackernews true w = without_html <$> Pure.hackernews false w.
Proof.
  unfold Pure.hackernews. rewrite !fmap_app. f_equal.
  - unfold Pure.hn_submission, Pure.hn_titles.
    destruct (querySelector w _) as [mainPost|]; [|apply first_title_without_html].
    destruct (isElementVisible mainPost); [|apply first_title_without_html].
    by destruct (longer_than _ _).
  - apply fmap_flat_map_ext. intros el. unfold Pure.hn_comment.
    destruct (Element_querySelector _ _); [|done]. by destruct (_ && _).
Qed.

Lemma hackernews2_without_html w :
  without_html <$> Pure.hackernews2 true w = without_html <$> Pure.hackernews2 false w.
Proof.
  assert (Hc : without_html <$> Pure.hn2_comments true w
               = without_html <$> Pure.hn2_comments false w).
  { apply fmap_flat_map_ext. intros el. unfold Pure.hn2_comment.
    destruct (Element_querySelector _ _); [|done]. by destruct (_ && _). }
  unfold Pure.hackernews2. rewrite (fmap_length_eq _ _ _ Hc).
  destruct (_ =? _)%nat; [|done].
  apply fmap_flat_map_ext. intros el. unfold Pure.hn2_story.
  destruct (Element_querySelector _ _); [|done]. by destruct (_ && _).
Qed.

(** X17. The [includeHtml] option decides nothing but the markup snapshot:
    in every strategy the same elements are admitted, in the same order, with
    the same ids, texts, kinds and addresses, whether it is set or not. *)
Theorem includeHtml_changes_html_only w COMMENT_ID textCache :
  cache_ok textCache ->
  Content_without_html (GenericExtractor.extract true w textCache).1
  = Content_without_html (GenericExtractor.extract false w textCache).1 /\
  Content_without_html (RedditExtractor.extract true w textCache).1
  = Content_without_html (RedditExtractor.extract false w textCache).1 /\
  Content_without_html (Other.RedditExtractor.extract true w COMMENT_ID textCache).1
  = Content_without_html (Other.RedditExtractor.extract false w COMMENT_ID textCache).1 /\
  Content_without_html (TwitterExtractor.extract true w textCache).1
  = Content_without_html (TwitterExtractor.extract false w textCache).1 /\
  Content_without_html (HackerNewsExtractor.extract true w textCache).1
  = Content_without_html (HackerNewsExtractor.extract false w textCache).1 /\
  Content_without_html (Other.HackerNewsExtractor.extract true w textCache).1
  = Content_without_html (Other.HackerNewsExtractor.extract false w textCache).1.
Proof.
  intros Hok.
  rewrite !(returns_value _ _ _ (returns_generic_content _ w) Hok).
  rewrite !(returns_value _ _ _ (returns_reddit_content _ w) Hok).
  rewrite !(returns_value _ _ _ (returns_reddit2_content _ w COMMENT_ID) Hok).
  rewrite !(returns_value _ _ _ (returns_twitter_content _ w) Hok).
  rewrite !(returns_value _ _ _ (returns_hackernews_content _ w) Hok).
  rewrite !(returns_value _ _ _ (returns_hackernews2_content _ w) Hok).
  unfold Content_without_html. simpl.
  rewrite generic_without_html, reddit_without_html, reddit2_without_html,
    twitter_without_html, hackernews_without_html, hackernews2_without_html.
  done.
Qed.

Lemma includeHtml_changes_html_only_witness :
  cache_ok ∅ /\
  Content_without_html (RedditExtractor.extract true Examples.scenario_B ∅).1
  = Content_without_html (RedditExtractor.extract false Examples.scenario_B ∅).1.
Proof.
  split; [apply cache_ok_empty|].
  destruct (includeHtml_changes_html_only Examples.scenario_B
              SITE_SELECTORS.HACKER_NEWS.COMMENT_ID ∅ cache_ok_empty)
    as (_ & H & _).
  exact H.
Defined.

(** ** Where the items come from, and in which order *)

Lemma flat_map_drawn {A B} (f : A -> list B) (g : B -> A) l :
  (forall a, f a = [] \/ exists b, f a = [b] /\ g b = a) ->
  (g <$> flat_map f l) `sublist_of` l.
Proof.
  intros H. induction l as [|a l IH]; [constructor|]. simpl. rewrite fmap_app.
  destruct (H a) as [->|(b & -> & <-)]; simpl.
  - by apply sublist_cons.
  - by apply sublist_skip.
Qed.

Lemma if_singleton_drawn {A B} (g : B -> A) (c : bool) (b : B) (a : A) :
  g b = a ->
  (if c then [b] else []) = [] \/ exists b', (if c then [b] else []) = [b'] /\ g b' = a.
Proof. intros H. destruct c; [right; by exists b|by left]. Qed.

Lemma List_filter_sublist {A} (p : A -> bool) l : List.filter p l `sublist_of` l.
Proof.
  induction l as [|a l IH]; [constructor|]. simpl.
  destruct (p a); [by apply sublist_skip|by apply sublist_cons].
Qed.

Lemma first_title_short includeHtml w links :
  (length (Pure.first_title includeHtml w links) <= 1)%nat.
Proof.
  induction links as [|link rest IH]; simpl; [lia|].
  destruct (_ && _); simpl; lia.
Qed.

Lemma hn_submission_short includeHtml w :
  (length (Pure.hn_submission includeHtml w) <= 1)%nat.
Proof.
  unfold Pure.hn_submission, Pure.hn_titles.
  destruct (querySelector w _) as [mainPost|]; [|apply first_title_short].
  destruct (isElementVisible mainPost); [|apply first_title_short].
  destruct (longer_than _ _); simpl; lia.
Qed.

Lemma hn_comment_drawn includeHtml l :
  drawn_from comment l (flat_map (Pure.hn_comment includeHtml) l).
Proof.
  split.
  - apply Forall_flat_map_all. intros el. by apply hn_comment_Forall.
  - apply flat_map_drawn. intros el. unfold Pure.hn_comment.
    destruct (Element_querySelector _ _); [|by left].
    by apply if_singleton_drawn.
Qed.

Lemma hn2_comment_drawn includeHtml l :
  drawn_from comment l (flat_map (Pure.hn2_comment includeHtml) l).
Proof.
  split.
  - apply Forall_flat_map_all. intros el. by apply hn2_comment_Forall.
  - apply flat_map_drawn. intros el. unfold Pure.hn2_comment.
    destruct (Element_querySelector _ _); [|by left].
    by apply if_singleton_drawn.
Qed.

Lemma hn2_story_drawn includeHtml l :
  drawn_from post l (flat_map (Pure.hn2_story includeHtml) l).
Proof.
  split.
  - apply Forall_flat_map_all. intros el. by apply hn2_story_Forall.
  - apply flat_map_drawn. intros el. unfold Pure.hn2_story.
    destruct (Element_querySelector _ _); [|by left].
    by apply if_singleton_drawn.
Qed.

Lemma reddit_drawn includeHtml kind l :
  drawn_from kind l (flat_map (Pure.reddit_admit includeHtml kind) l).
Proof.
  split.
  - apply Forall_flat_map_all. intros el. by apply Forall_if_singleton.
  - apply flat_map_drawn. intros el. by apply if_singleton_drawn.
Qed.

Lemma generic_drawn includeHtml l :
  drawn_from post l (flat_map (Pure.generic_admit includeHtml) l).
Proof.
  split.
  - apply Forall_flat_map_all. intros el. by apply Forall_if_singleton.
  - apply flat_map_drawn. intros el. by apply if_singleton_drawn.
Qed.

Lemma drawn_from_sublist kind l l' its :
  l `sublist_of` l' -> drawn_from kind l its -> drawn_from kind l' its.
Proof. intros Hl [Hkind Hsub]. split; [done|]. by etrans. Qed.

(** X18. Reddit, in both revisions: the items are the comments followed by
    the posts; the comments are made from some of the [[slot="comment"]]
    elements and the posts from some of the [[slot="text-body"]] elements,
    one item for an element at most, in document order, the element of the
    item being the matched element itself. *)
Theorem reddit_comments_then_posts includeHtml w COMMENT_ID textCache :
  cache_ok textCache ->
  (exists comments posts,
     items (RedditExtractor.extract includeHtml w textCache).1 = comments ++ posts /\
     drawn_from comment (querySelectorAll w SITE_SELECTORS.REDDIT.COMMENTS) comments /\
     drawn_from post (querySelectorAll w SITE_SELECTORS.REDDIT.POST) posts) /\
  (exists comments posts,
     items (Other.RedditExtractor.extract includeHtml w COMMENT_ID textCache).1
     = comments ++ posts /\
     drawn_from comment (querySelectorAll w SITE_SELECTORS.REDDIT.COMMENTS) comments /\
     drawn_from post (querySelectorAll w SITE_SELECTORS.REDDIT.POST) posts).
Proof.
  intros Hok.
  rewrite (returns_value _ _ _ (returns_reddit includeHtml w) Hok).
  rewrite (returns_value _ _ _ (returns_reddit2 includeHtml w COMMENT_ID) Hok).
  split.
  - eexists _, _. split; [reflexivity|]. split; apply reddit_drawn.
  - eexists _, _. split; [reflexivity|].
    split; (split;
      [ apply Forall_flat_map_all; intros el; by apply Forall_if_singleton
      | apply flat_map_drawn; intros el; by apply if_singleton_drawn ]).
Qed.

Lemma reddit_comments_then_posts_witness :
  cache_ok ∅ /\
  exists comments posts,
    items (RedditExtractor.extract false Examples.scenario_B ∅).1 = comments ++ posts /\
    drawn_from comment
      (querySelectorAll Examples.scenario_B SITE_SELECTORS.REDDIT.COMMENTS) comments /\
    drawn_from post
      (querySelectorAll Examples.scenario_B SITE_SELECTORS.REDDIT.POST) posts.
Proof.
  split; [apply cache_ok_empty|].
  destruct (reddit_comments_then_posts false Examples.scenario_B
              SITE_SELECTORS.HACKER_NEWS.COMMENT_ID ∅ cache_ok_empty) as [H _].
  exact H.
Defined.

(** X19. The generic and the Twitter strategy take their items from one
    source only: when a content selector matches, every item of the generic
    strategy is made from the elements of the first one that does, otherwise
    from the [p] elements; the items of the Twitter strategy are made either
    from the elements of the first tweet selector that matches or from the
    [article] elements.  In each case there is one item for an element at
    most, in document order, of kind [post]. *)
Theorem single_source_strategies includeHtml w textCache :
  cache_ok textCache ->
  (firstMatching w GenericExtractor.contentSelectors <> [] ->
   drawn_from post (firstMatching w GenericExtractor.contentSelectors)
     (items (GenericExtractor.extract includeHtml w textCache).1)) /\
  (firstMatching w GenericExtractor.contentSelectors = [] ->
   drawn_from post
     (List.filter isElementVisible (querySelectorAll w (Compound [ByTag (js "p")])))
     (items (GenericExtractor.extract includeHtml w textCache).1)) /\
  (drawn_from post (firstMatching w TwitterExtractor.tweetSelectors)
     (items (TwitterExtractor.extract includeHtml w textCache).1) \/
   drawn_from post
     (List.filter isElementVisible
        (querySelectorAll w (Compound [ByTag (js "article")])))
     (items (TwitterExtractor.extract includeHtml w textCache).1)).
Proof.
  intros Hok.
  rewrite (returns_value _ _ _ (returns_generic includeHtml w) Hok).
  rewrite (returns_value _ _ _ (returns_twitter includeHtml w) Hok).
  unfold Pure.generic, Pure.generic_candidates.
  split; [|split].
  - intros Hfound.
    destruct (firstMatching w GenericExtractor.contentSelectors); [done|].
    apply generic_drawn.
  - intros ->. simpl.
    eapply drawn_from_sublist; [|apply generic_drawn].
    induction (querySelectorAll w _) as [|p l IH]; [constructor|]. simpl.
    destruct (isElementVisible p); simpl; [|done].
    destruct (_ <? _)%nat; [by apply sublist_skip|by apply sublist_cons].
  - unfold Pure.twitter. destruct (_ =? _)%nat; [right|left].
    + unfold Pure.twitter_fallback. split.
      * apply Forall_flat_map_all. intros el. by apply Forall_if_singleton.
      * induction (querySelectorAll w _) as [|a l IH]; [constructor|]. simpl.
        rewrite fmap_app. unfold Pure.article_admit at 1.
        destruct (isElementVisible a); simpl; [|done].
        destruct (_ && _); simpl; [by apply sublist_skip|by apply sublist_cons].
    + unfold Pure.twitter_primary. split.
      * apply Forall_flat_map_all. intros el. by apply Forall_if_singleton.
      * apply flat_map_drawn. intros el. by apply if_singleton_drawn.
Qed.

Lemma single_source_strategies_witness :
  cache_ok ∅ /\
  firstMatching Examples.scenario_A GenericExtractor.contentSelectors <> [] /\
  drawn_from post (firstMatching Examples.scenario_A GenericExtractor.contentSelectors)
    (items (GenericExtractor.extract false Examples.scenario_A ∅).1).
Proof.
  split; [apply cache_ok_empty|].
  assert (H : firstMatching Examples.scenario_A GenericExtractor.contentSelectors <> [])
    by (vm_compute; discriminate).
  split; [exact H|].
  destruct (single_source_strategies false Examples.scenario_A ∅ cache_ok_empty)
    as [Hfirst _].
  exact (Hfirst H).
Defined.

(** X20. Hacker News: the items are at most one item of kind [post], which
    comes first, followed by the comments, which are made from some of the
    [.comment-tree .comtr] rows, one for a row at most, in document order,
    the element of the item being the row. *)
Theorem hackernews_post_then_comments includeHtml w textCache :
  cache_ok textCache ->
  exists main comments,
    items (HackerNewsExtractor.extract includeHtml w textCache).1 = main ++ comments /\
    (length main <= 1)%nat /\
    Forall (fun it => type it = post) main /\
    drawn_from comment
      (querySelectorAll w SITE_SELECTORS.HACKER_NEWS.COMMENT_TREE) comments.
Proof.
  intros Hok.
  rewrite (returns_value _ _ _ (returns_hackernews includeHtml w) Hok).
  eexists _, _. split; [reflexivity|]. split; [apply hn_submission_short|].
  split; [by apply hn_submission_Forall|apply hn_comment_drawn].
Qed.

Lemma hackernews_post_then_comments_witness :
  cache_ok ∅ /\
  exists main comments,
    items (HackerNewsExtractor.extract false Examples.scenario_C ∅).1
    = main ++ comments /\
    (length main <= 1)%nat /\
    Forall (fun it => type it = post) main /\
    drawn_from comment
      (querySelectorAll Examples.scenario_C SITE_SELECTORS.HACKER_NEWS.COMMENT_TREE)
      comments.
Proof.
  split; [apply cache_ok_empty|].
  apply (hackernews_post_then_comments false Examples.scenario_C ∅ cache_ok_empty).
Defined.

(** X21. The comments-first revision of the Hacker News strategy never mixes
    kinds: its items are either all comments, made from the comment rows, or
    all posts, made from the [.athing] rows; in both cases one item for a row
    at most, in document order. *)
Theorem hackernews_comments_or_stories includeHtml w textCache :
  cache_ok textCache ->
  drawn_from comment (querySelectorAll w SITE_SELECTORS.HACKER_NEWS.COMMENT_TREE)
    (items (Other.HackerNewsExtractor.extract includeHtml w textCache).1) \/
  drawn_from post (querySelectorAll w SITE_SELECTORS.HACKER_NEWS.STORY_ITEM)
    (items (Other.HackerNewsExtractor.extract includeHtml w textCache).1).
Proof.
  intros Hok.
  rewrite (returns_value _ _ _ (returns_hackernews2 includeHtml w) Hok).
  unfold Pure.hackernews2, Pure.hn2_comments.
  destruct (_ =? _)%nat; [right; apply hn2_story_drawn|left; apply hn2_comment_drawn].
Qed.

Lemma hackernews_comments_or_stories_witness :
  cache_ok ∅ /\
  (drawn_from comment
     (querySelectorAll Examples.scenario_C SITE_SELECTORS.HACKER_NEWS.COMMENT_TREE)
     (items (Other.HackerNewsExtractor.extract false Examples.scenario_C ∅).1) \/
   drawn_from post
     (querySelectorAll Examples.scenario_C SITE_SELECTORS.HACKER_NEWS.STORY_ITEM)
     (items (Other.HackerNewsExtractor.extract false Examples.scenario_C ∅).1)).
Proof.
  split; [apply cache_ok_empty|].
  apply (hackernews_comments_or_stories false Examples.scenario_C ∅ cache_ok_empty).
Defined.

(** X22. The selector loop shared by the generic and the Twitter strategy
    either finds nothing, and then no selector of the list matches, or
    returns all the matches of one selector, before which no selector of the
    list matches: elements matched by different selectors are never put
    together. *)
Theorem firstMatching_cases w selectors :
  (firstMatching w selectors = [] /\
   Forall (fun sel => querySelectorAll w sel = []) selectors) \/
  (exists before sel after,
     selectors = before ++ sel :: after /\
     Forall (fun sel' => querySelectorAll w sel' = []) before /\
     querySelectorAll w sel <> [] /\
     firstMatching w selectors = querySelectorAll w sel).
Proof.
  induction selectors as [|sel rest IH]; [left; by split|]. simpl.
  destruct (querySelectorAll w sel) as [|e es] eqn:Hsel; simpl.
  - destruct IH as [[Hnone Hall]|(before & sel' & after & -> & Hbefore & Hmatch & Hfirst)].
    + left. split; [done|]. by constructor.
    + right. exists (sel :: before), sel', after.
      split; [done|]. split; [by constructor|]. done.
  - right. exists [], sel, rest. split; [done|]. split; [constructor|].
    rewrite Hsel. done.
Qed.

(** ** The text of the items *)

Lemma longer_than_nonempty n (s : jsstring) : longer_than n s = true -> s <> [].
Proof. intros H ->. done. Qed.

Lemma text_of_fixed el : cleaned (text_of el) = text_of el.
Proof. apply cleaned_fixed. Qed.

Lemma readable_gate (c : bool) n el :
  c && longer_than n (text_of el) = true ->
  text_of el <> [] /\ cleaned (text_of el) = text_of el.
Proof.
  intros [_ H]%andb_true_iff.
  split; [by eapply longer_than_nonempty|apply text_of_fixed].
Qed.

Lemma readable_title (c : bool) el :
  c && (0 <? length (text_of el))%nat = true ->
  text_of el <> [] /\ cleaned (text_of el) = text_of el.
Proof.
  intros [_ H]%andb_true_iff. split; [|apply text_of_fixed].
  intros Hnil. by rewrite Hnil in H.
Qed.

(** X23. In every strategy, the text of every item is not empty and is in
    normal form (normalising it again gives the same text). *)
Theorem items_are_readable includeHtml w COMMENT_ID textCache :
  cache_ok textCache ->
  Forall readable (items (GenericExtractor.extract includeHtml w textCache).1) /\
  Forall readable (items (RedditExtractor.extract includeHtml w textCache).1) /\
  Forall readable
    (items (Other.RedditExtractor.extract includeHtml w COMMENT_ID textCache).1) /\
  Forall readable (items (TwitterExtractor.extract includeHtml w textCache).1) /\
  Forall readable (items (HackerNewsExtractor.extract includeHtml w textCache).1) /\
  Forall readable (items (Other.HackerNewsExtractor.extract includeHtml w textCache).1).
Proof.
  intros Hok.
  rewrite (returns_value _ _ _ (returns_generic includeHtml w) Hok).
  rewrite (returns_value _ _ _ (returns_reddit includeHtml w) Hok).
  rewrite (returns_value _ _ _ (returns_reddit2 includeHtml w COMMENT_ID) Hok).
  rewrite (returns_value _ _ _ (returns_twitter includeHtml w) Hok).
  rewrite (returns_value _ _ _ (returns_hackernews includeHtml w) Hok).
  rewrite (returns_value _ _ _ (returns_hackernews2 includeHtml w) Hok).
  split; [|split; [|split; [|split; [|split]]]].
  - apply Forall_flat_map_all. intros el. apply Forall_if_singleton. intros Hc.
    by apply (readable_gate true 20 el).
  - apply Forall_app. split; apply Forall_flat_map_all; intros el;
      apply Forall_if_singleton; intros Hc; by eapply readable_gate.
  - apply Forall_app. split; apply Forall_flat_map_all; intros el;
      apply Forall_if_singleton; intros Hc; by eapply readable_gate.
  - unfold Pure.twitter. destruct (_ =? _)%nat; apply Forall_flat_map_all;
      intros el; apply Forall_if_singleton; intros Hc.
    + apply andb_true_iff in Hc as [Hc _]. by eapply readable_gate.
    + by eapply readable_gate.
  - apply Forall_app. split.
    + unfold Pure.hn_submission, Pure.hn_titles.
      assert (Htitles : forall links,
                Forall readable (Pure.first_title includeHtml w links)).
      { induction links as [|link rest IH]; [done|]. simpl.
        destruct (_ && _) eqn:Hc; [|done].
        constructor; [by eapply readable_title|done]. }
      destruct (querySelector w _) as [mainPost|]; [|apply Htitles].
      destruct (isElementVisible mainPost); [|apply Htitles].
      apply Forall_if_singleton. intros Hc. by apply (readable_gate true 10).
    + apply Forall_flat_map_all. intros el. unfold Pure.hn_comment.
      destruct (Element_querySelector _ _); [|done].
      apply Forall_if_singleton. intros Hc. by eapply readable_gate.
  - unfold Pure.hackernews2, Pure.hn2_comments.
    destruct (_ =? _)%nat; apply Forall_flat_map_all; intros el.
    + unfold Pure.hn2_story. destruct (Element_querySelector _ _); [|done].
      apply Forall_if_singleton. intros Hc. by eapply readable_title.
    + unfold Pure.hn2_comment. destruct (Element_querySelector _ _); [|done].
      apply Forall_if_singleton. intros Hc. by eapply readable_gate.
Qed.

Lemma items_are_readable_witness :
  cache_ok ∅ /\
  Forall readable (items (GenericExtractor.extract false Examples.scenario_A ∅).1).
Proof.
  split; [apply cache_ok_empty|].
  destruct (items_are_readable false Examples.scenario_A
              SITE_SELECTORS.HACKER_NEWS.COMMENT_ID ∅ cache_ok_empty) as [H _].
  exact H.
Defined.

(** ** The selection interface *)

Section UIManager_properties.
Import UIManager.
Variable h : host.
Variable styling : option CheckboxStyling.

Lemma store_eq {V} r (v : V) f : store r v f r = v.
Proof. unfold store. by rewrite decide_True. Qed.

Lemma store_ne {V} r r' (v : V) f : r' <> r -> store r v f r' = f r'.
Proof. intros H. unfold store. by rewrite decide_False. Qed.

Lemma Map_get_elem {V} k (v : V) m :
  NoDup m.*1 -> (k, v) ∈ m -> Map_get k m = Some v.
Proof.
  induction m as [|[k' v'] m IH]; simpl; [by intros _ ?%elem_of_nil|].
  intros [Hk Hm]%NoDup_cons [[= -> ->]|Hin]%elem_of_cons.
  - by rewrite decide_True.
  - rewrite decide_False; [by apply IH|].
    intros ->. apply Hk. apply list_elem_of_fmap. by exists (k, v).
Qed.

Lemma Map_set_new {V} k (v : V) m : k ∉ m.*1 -> Map_set k v m = m ++ [(k, v)].
Proof.
  induction m as [|[k' v'] m IH]; simpl; [done|].
  intros [Hk Hm]%not_elem_of_cons. rewrite decide_False by done. by rewrite IH.
Qed.

Lemma filter_other (c : ref) l :
  Forall (fun child => (child < c)%nat) l ->
  List.filter (fun child => negb (child =? c)%nat) l = l.
Proof.
  induction 1 as [|x l Hx _ IH]; [done|]. simpl.
  destruct (Nat.eqb_spec x c); [lia|]. simpl. by rewrite IH.
Qed.

Lemma elem_of_filter_other (c x : ref) l :
  x ∈ List.filter (fun child => negb (child =? c)%nat) l <-> x ∈ l /\ x <> c.
Proof.
  rewrite !list_elem_of_In, List.filter_In.
  destruct (Nat.eqb_spec x c); simpl; naive_solver.
Qed.

(** What one round of the [forEach] of [displayCheckboxes] does for an item
    that has an element. *)
Lemma display_fields s item el :
  item_element (objects s item) = Some el ->
  let s' := display h styling s item in
  objects s' = objects s /\
  created s' = S (created s) /\
  checkboxes s' = Map_set el (item, created s) (checkboxes s) /\
  body s'
  = List.filter (fun child => negb (child =? created s)%nat) (body s) ++ [created s] /\
  listeners s' = listeners s /\
  calls s' = calls s /\
  (forall checkbox, checkbox <> created s -> elements s' checkbox = elements s checkbox) /\
  click_listeners (elements s' (created s)) = [item] /\
  Forall (fun i => i = item) (hover_listeners (elements s' (created s))) /\
  div_innerHTML (elements s' (created s))
  = (if item_selected (objects s item) then check_mark else []).
Proof.
  intros Hel. unfold display. rewrite Hel.
  unfold createCheckbox, createElement, positionCheckbox, appendChild.
  destruct styling as [st|]; simpl;
    (split; [done|]); (split; [done|]); (split; [done|]); (split; [done|]);
    (split; [done|]); (split; [done|]);
    (split; [intros checkbox Hne; by rewrite !store_ne by done|]);
    rewrite !store_eq; unfold updateCheckboxVisual;
    destruct (item_selected (objects s item)); simpl; repeat split; by repeat constructor.
Qed.

Lemma destroy_body_elem (l : list (ref * (ref * ref))) s child :
  child ∈ body (fold_left (fun s (entry : ref * (ref * ref)) => removeChild entry.2.2 s) l s)
  <-> child ∈ body s /\ child ∉ (fun entry : ref * (ref * ref) => entry.2.2) <$> l.
Proof.
  revert s. induction l as [|e l IH]; intros s; simpl.
  - split; [intros ?; split; [done|apply not_elem_of_nil]|by intros [? _]].
  - rewrite IH. simpl. rewrite elem_of_filter_other, not_elem_of_cons. naive_solver.
Qed.

Lemma destroy_body_sublist (l : list (ref * (ref * ref))) s :
  body (fold_left (fun s (entry : ref * (ref * ref)) => removeChild entry.2.2 s) l s)
  `sublist_of` body s.
Proof.
  revert s. induction l as [|e l IH]; intros s; simpl; [done|].
  etrans; [apply IH|]. simpl. apply List_filter_sublist.
Qed.

Lemma destroy_other (l : list (ref * (ref * ref))) s :
  let s' := fold_left (fun s (entry : ref * (ref * ref)) => removeChild entry.2.2 s) l s in
  objects s' = objects s /\ elements s' = elements s /\ created s' = created s /\
  checkboxes s' = checkboxes s /\ listeners s' = listeners s /\ calls s' = calls s.
Proof.
  revert s. induction l as [|e l IH]; intros s; simpl; [done|].
  destruct (IH (removeChild e.2.2 s)) as (-> & -> & -> & -> & -> & ->). done.
Qed.

(** X24. [destroy] empties the map and takes the check box of every entry
    out of the page, and nothing else: the other children of the body stay,
    in their order, the items keep their selection, the callbacks stay
    registered. *)
Theorem destroy_detaches_registered s :
  checkboxes (destroy s) = [] /\
  (forall child,
     child ∈ body (destroy s) <->
     child ∈ body s /\
     child ∉ (fun entry : ref * (ref * ref) => entry.2.2) <$> checkboxes s) /\
  body (destroy s) `sublist_of` body s /\
  objects (destroy s) = objects s /\
  listeners (destroy s) = listeners s /\
  calls (destroy s) = calls s.
Proof.
  unfold destroy. simpl.
  destruct (destroy_other (checkboxes s) s) as (Ho & _ & _ & _ & Hl & Hc).
  split; [done|]. split; [apply destroy_body_elem|].
  split; [apply destroy_body_sublist|]. done.
Qed.

Lemma destroy_well_formed s : well_formed s -> well_formed (destroy s).
Proof.
  intros [Hbody _]. split; [|constructor].
  unfold destroy. simpl.
  destruct (destroy_other (checkboxes s) s) as (_ & _ & Hc & _).
  unfold well_formed in *. simpl in *. rewrite Hc.
  eapply Forall_forall. intros child Hin%destroy_body_elem.
  eapply Forall_forall in Hbody; [exact Hbody|]. by destruct Hin.
Qed.

Lemma destroy_shown s : shown (destroy s).
Proof. split; [constructor|]. split; constructor. Qed.

(** One more item on display. *)
Lemma display_step s item el :
  item_element (objects s item) = Some el ->
  el ∉ (checkboxes s).*1 ->
  shown s -> well_formed s ->
  let s' := display h styling s item in
  checkboxes s' = checkboxes s ++ [(el, (item, created s))] /\
  body s' = body s ++ [created s] /\
  objects s' = objects s /\
  listeners s' = listeners s /\
  calls s' = calls s /\
  shown s' /\ well_formed s'.
Proof.
  intros Hel Hnew (Hkeys & Hboxes & Hentries) [Hbody Hmade].
  destruct (display_fields s item el Hel)
    as (Ho & Hc & Hm & Hb & Hl & Hcalls & Hother & Hclick & Hhover & Hmark).
  simpl. rewrite Map_set_new in Hm by done. rewrite filter_other in Hb by done.
  split; [done|]. split; [done|]. split; [done|]. split; [done|]. split; [done|].
  split; [split; [|split]|split].
  - rewrite Hm, fmap_app. apply NoDup_app. split; [done|].
    split; [|apply NoDup_singleton]. simpl. intros k Hk ->%list_elem_of_singleton. done.
  - rewrite Hm, fmap_app. apply NoDup_app. split; [done|].
    split; [|apply NoDup_singleton]. simpl.
    intros c Hin ->%list_elem_of_singleton.
    apply list_elem_of_fmap in Hin as (e & He & Hin).
    eapply Forall_forall in Hmade; [|exact Hin]. simpl in Hmade. lia.
  - rewrite Hm. apply Forall_app. split.
    + eapply Forall_forall. intros e Hin.
      pose proof (proj1 (Forall_forall _ _) Hentries e Hin) as (He & Hhtml & Hcl & Hhov).
      pose proof (proj1 (Forall_forall _ _) Hmade e Hin) as Hlt. simpl in Hlt.
      rewrite Ho, Hother by lia. done.
    + constructor; [|done]. simpl. rewrite Ho. by rewrite Hel, Hmark, Hclick.
  - rewrite Hb, Hc. apply Forall_app. split.
    + eapply Forall_impl; [exact Hbody|]. simpl. lia.
    + constructor; [lia|done].
  - rewrite Hm, Hc. apply Forall_app. split.
    + eapply Forall_impl; [exact Hmade|]. simpl. lia.
    + constructor; [simpl; lia|done].
Qed.

Lemma targets_objects s s' items : objects s' = objects s -> targets s' items = targets s items.
Proof. intros H. unfold targets. by rewrite H. Qed.

Lemma display_all items : forall s,
  shown s -> well_formed s ->
  NoDup (targets s items).*1 ->
  (forall k, k ∈ (targets s items).*1 -> k ∉ (checkboxes s).*1) ->
  let s' := fold_left (display h styling) items s in
  exists new,
    checkboxes s' = checkboxes s ++ new /\
    (fun entry : ref * (ref * ref) => (entry.1, entry.2.1)) <$> new = targets s items /\
    body s' = body s ++ ((fun entry : ref * (ref * ref) => entry.2.2) <$> new) /\
    objects s' = objects s /\
    listeners s' = listeners s /\
    calls s' = calls s /\
    shown s' /\ well_formed s'.
Proof.
  induction items as [|item items IH]; intros s Hshown Hwf Hnodup Hfree; simpl.
  { exists []. by rewrite !app_nil_r. }
  simpl in Hnodup, Hfree.
  destruct (item_element (objects s item)) as [el|] eqn:Hel.
  - simpl in Hnodup, Hfree. apply NoDup_cons in Hnodup as [Hel_new Hnodup].
    destruct (display_step s item el Hel) as (Hm & Hb & Ho & Hl & Hc & Hshown' & Hwf');
      [apply Hfree; left|done|done|].
    destruct (IH (display h styling s item)) as (new & Hm' & Hnew & Hb' & Ho' & Hl' & Hc' & ? & ?);
      [done|done|by rewrite (targets_objects _ _ _ Ho)| |].
    + intros k Hk. rewrite (targets_objects _ _ _ Ho) in Hk.
      rewrite Hm, fmap_app. apply not_elem_of_app. split; [apply Hfree; by right|].
      simpl. intros ->%list_elem_of_singleton. done.
    + exists ((el, (item, created s)) :: new).
      rewrite Hm', Hm, Hb', Hb, Ho', Ho, Hl', Hl, Hc', Hc, <- !app_assoc.
      rewrite !fmap_cons, Hnew, (targets_objects _ _ _ Ho). done.
  - assert (Hsame : display h styling s item = s) by (unfold display; by rewrite Hel).
    rewrite Hsame. apply IH; done.
Qed.

(** X25. When no two of the items share an element, [displayCheckboxes]
    leaves one entry for each item that has an element, in the order of the
    items and filed under that element; the check boxes of these entries are
    new children at the end of the body, in the same order, after what
    [destroy] left; each shows the mark exactly when its item is selected and
    toggles its item on a click.  No item is written. *)
Theorem displayCheckboxes_shows_each_item items s :
  well_formed s ->
  NoDup (targets s items).*1 ->
  let s' := displayCheckboxes h styling items s in
  (fun entry : ref * (ref * ref) => (entry.1, entry.2.1)) <$> checkboxes s'
  = targets s items /\
  body s'
  = body (destroy s) ++ ((fun entry : ref * (ref * ref) => entry.2.2) <$> checkboxes s') /\
  objects s' = objects s /\
  shown s' /\ well_formed s'.
Proof.
  intros Hwf Hnodup. unfold displayCheckboxes.
  assert (Ho : objects (destroy s) = objects s).
  { unfold destroy. simpl. by destruct (destroy_other (checkboxes s) s) as (-> & _). }
  destruct (display_all items (destroy s)) as (new & Hm & Hnew & Hb & Ho' & _ & _ & ? & ?);
    [apply destroy_shown|by apply destroy_well_formed
    |by rewrite (targets_objects _ _ _ Ho)|intros k _; apply not_elem_of_nil|].
  simpl in Hm. simpl. rewrite Hm, Hb, Ho', Ho, Hnew, (targets_objects _ _ _ Ho). done.
Qed.

Lemma NoDup_fmap_same {A B} (f : A -> B) (l : list A) x y :
  NoDup (f <$> l) -> x ∈ l -> y ∈ l -> f x = f y -> x = y.
Proof.
  induction l as [|a l IH]; simpl; [by intros _ ?%elem_of_nil|].
  intros [Ha Hl]%NoDup_cons [->|Hx]%elem_of_cons [->|Hy]%elem_of_cons Hf; [done|..].
  - exfalso. apply Ha. rewrite Hf. apply list_elem_of_fmap. by exists y.
  - exfalso. apply Ha. rewrite <- Hf. apply list_elem_of_fmap. by exists x.
  - by apply IH.
Qed.

(** What [toggleSelection] does to an item on display. *)
Lemma toggle_shown s k item cb :
  shown s -> (k, (item, cb)) ∈ checkboxes s ->
  let s' := toggleSelection h styling item s in
  item_selected (objects s' item) = negb (item_selected (objects s item)) /\
  item_element (objects s' item) = Some k /\
  (forall other, other <> item -> objects s' other = objects s other) /\
  checkboxes s' = checkboxes s /\
  body s' = body s /\
  listeners s' = listeners s /\
  calls s' = calls s ++ ((fun callback => (callback, getSelectedItems s')) <$> listeners s) /\
  shown s'.
Proof.
  intros (Hkeys & Hboxes & Hentries) Hin.
  pose proof (proj1 (Forall_forall _ _) Hentries _ Hin) as (Hel & Hhtml & Hclick & Hhover).
  simpl in Hel, Hhtml, Hclick, Hhover.
  pose proof (Map_get_elem _ _ _ Hkeys Hin) as Hget.
  set (s1 := set_selected item (negb (item_selected (objects s item))) s).
  set (s2 := match styling with
             | Some st =>
                 update_div cb
                   (with_style
                      (applyStylesPreservingLayout h
                         (if negb (item_selected (objects s item))
                          then getSelectedStyles st else getDefaultStyles st))) s1
             | None => s1
             end).
  set (s3 := update_div cb (updateCheckboxVisual (negb (item_selected (objects s item)))) s2).
  assert (Ho1 : objects s1 item
                = {| item_element := Some k;
                     item_selected := negb (item_selected (objects s item)) |}).
  { unfold s1. simpl. by rewrite store_eq, Hel. }
  assert (Hrun : toggleSelection h styling item s = dispatchEvent (getSelectedItems s3) s3).
  { unfold toggleSelection. cbv zeta. fold s1. rewrite Ho1.
    cbn beta iota delta [item_element item_selected].
    change (checkboxes s1) with (checkboxes s). by rewrite Hget. }
  rewrite Hrun. clear Hrun.
  assert (H2 : objects s2 = objects s1 /\ checkboxes s2 = checkboxes s /\
               body s2 = body s /\ listeners s2 = listeners s /\ calls s2 = calls s /\
               (forall c, c <> cb -> elements s2 c = elements s c) /\
               click_listeners (elements s2 cb) = click_listeners (elements s cb) /\
               hover_listeners (elements s2 cb) = hover_listeners (elements s cb)).
  { unfold s2. destruct styling as [st|]; simpl;
      (split; [done|]); (split; [done|]); (split; [done|]); (split; [done|]);
      (split; [done|]); (split; [intros c Hc; by rewrite ?store_ne by done|]);
      by rewrite ?store_eq. }
  destruct H2 as (Ho2 & Hm2 & Hb2 & Hl2 & Hc2 & Hother2 & Hclick2 & Hhover2).
  assert (Hmark : div_innerHTML (elements s3 cb)
                  = (if negb (item_selected (objects s item)) then check_mark else [])).
  { unfold s3. simpl. rewrite store_eq. unfold updateCheckboxVisual.
    by destruct (negb _). }
  assert (Hclick3 : click_listeners (elements s3 cb) = [item]).
  { unfold s3. simpl. rewrite store_eq. unfold updateCheckboxVisual.
    destruct (negb _); simpl; by rewrite Hclick2. }
  assert (Hhover3 : hover_listeners (elements s3 cb) = hover_listeners (elements s cb)).
  { unfold s3. simpl. rewrite store_eq. unfold updateCheckboxVisual.
    destruct (negb _); simpl; by rewrite Hhover2. }
  assert (Hother3 : forall c, c <> cb -> elements s3 c = elements s c).
  { intros c Hc. unfold s3. simpl. rewrite store_ne by done. by apply Hother2. }
  assert (H3 : objects s3 = objects s1 /\ checkboxes s3 = checkboxes s /\
               body s3 = body s /\ listeners s3 = listeners s /\ calls s3 = calls s).
  { unfold s3. simpl. by rewrite Ho2, Hm2, Hb2, Hl2, Hc2. }
  destruct H3 as (Ho3 & Hm3 & Hb3 & Hl3 & Hc3).
  assert (Hothers : forall other, other <> item -> objects s1 other = objects s other).
  { intros other Hne. unfold s1. simpl. by rewrite store_ne. }
  clearbody s3. clear Ho2 Hm2 Hb2 Hl2 Hc2 Hother2 Hclick2 Hhover2. clearbody s2 s1.
  unfold shown. simpl. rewrite Ho3, Ho1, Hm3, Hb3, Hl3, Hc3. simpl.
  split; [done|]. split; [done|]. split; [done|].
  split; [done|]. split; [done|]. split; [done|]. split; [done|].
  split; [done|]. split; [done|].
  eapply Forall_forall. intros e He.
  pose proof (proj1 (Forall_forall _ _) Hentries _ He) as (Hel' & Hhtml' & Hclick' & Hhover').
  destruct (decide (e.2.1 = item)) as [Hsame|Hdiff].
  - assert (e.1 = k) as Hk by (rewrite Hsame, Hel in Hel'; congruence).
    assert (e = (k, (item, cb))) as ->.
    { apply (NoDup_fmap_same fst (checkboxes s)); done. }
    simpl. rewrite ?Ho3, Ho1, Hmark, Hclick3, Hhover3. done.
  - assert (e.2.2 <> cb) as Hbox.
    { intros Heq. apply Hdiff.
      assert (e = (k, (item, cb))) as -> by
        (apply (NoDup_fmap_same (fun entry : ref * (ref * ref) => entry.2.2)
                  (checkboxes s)); done).
      done. }
    simpl. rewrite ?Ho3, Hother3, Hothers by done. done.
Qed.

(** X26. A click on the check box of an entry toggles the item of that entry
    and no other item, leaves the map and the page as they are, keeps every
    check box in step with its item, and calls each registered callback
    once, in the order of registration, with the selected items of the map
    after the toggle. *)
Theorem click_toggles_one_item s k item cb :
  shown s -> (k, (item, cb)) ∈ checkboxes s ->
  let s' := click h styling cb s in
  item_selected (objects s' item) = negb (item_selected (objects s item)) /\
  (forall other, other <> item -> objects s' other = objects s other) /\
  checkboxes s' = checkboxes s /\
  body s' = body s /\
  calls s' = calls s ++ ((fun callback => (callback, getSelectedItems s')) <$> listeners s) /\
  shown s'.
Proof.
  intros Hshown Hin.
  pose proof Hshown as (_ & _ & Hentries).
  pose proof (proj1 (Forall_forall _ _) Hentries _ Hin) as (_ & _ & Hclick & _).
  simpl in Hclick. unfold click. rewrite Hclick. simpl fold_left.
  destruct (toggle_shown s k item cb Hshown Hin) as (? & ? & ? & ? & ? & ? & ? & ?).
  done.
Qed.

(** X27. Two clicks on the same check box bring every item back to the
    selection it had, and every check box of the map back to the mark it
    showed; each callback has been called twice. *)
Theorem click_twice_restores s k item cb :
  shown s -> (k, (item, cb)) ∈ checkboxes s ->
  let s' := click h styling cb (click h styling cb s) in
  (forall i, item_selected (objects s' i) = item_selected (objects s i)) /\
  Forall (fun entry : ref * (ref * ref) =>
            div_innerHTML (elements s' entry.2.2) = div_innerHTML (elements s entry.2.2))
    (checkboxes s) /\
  length (calls s') = (length (calls s) + 2 * length (listeners s))%nat.
Proof.
  intros Hshown Hin.
  pose proof Hshown as (_ & _ & Hentries).
  pose proof (proj1 (Forall_forall _ _) Hentries _ Hin) as (_ & _ & Hclick & _).
  simpl in Hclick. unfold click at 2. rewrite Hclick. simpl fold_left.
  destruct (toggle_shown s k item cb Hshown Hin)
    as (Hsel & Hel & Hothers & Hm & Hb & Hl & Hc & Hshown').
  set (s1 := toggleSelection h styling item s) in *.
  assert (Hin1 : (k, (item, cb)) ∈ checkboxes s1) by by rewrite Hm.
  pose proof Hshown' as (_ & _ & Hentries1).
  pose proof (proj1 (Forall_forall _ _) Hentries1 _ Hin1) as (_ & _ & Hclick1 & _).
  cbn [fst snd] in Hclick1. unfold click. rewrite Hclick1. simpl fold_left.
  destruct (toggle_shown s1 k item cb Hshown' Hin1)
    as (Hsel2 & Hel2 & Hothers2 & Hm2 & Hb2 & Hl2 & Hc2 & Hshown2).
  set (s2 := toggleSelection h styling item s1) in *.
  assert (Hflags : forall i, item_selected (objects s2 i) = item_selected (objects s i)).
  { intros i. destruct (decide (i = item)) as [->|Hne].
    - by rewrite Hsel2, Hsel, negb_involutive.
    - by rewrite Hothers2, Hothers. }
  split; [done|]. split.
  - destruct Hshown2 as (_ & _ & Hentries2). rewrite Hm2, Hm in Hentries2.
    eapply Forall_forall. intros e He.
    pose proof (proj1 (Forall_forall _ _) Hentries _ He) as (_ & -> & _).
    pose proof (proj1 (Forall_forall _ _) Hentries2 _ He) as (_ & -> & _).
    by rewrite Hflags.
  - rewrite Hc2, Hc, Hl, !length_app, !length_fmap. lia.
Qed.

(** A check box of the map restyled and repainted for its item. *)
Lemma repaint_step css s k item cb :
  shown s -> (k, (item, cb)) ∈ checkboxes s ->
  let s' := update_div cb (updateCheckboxVisual (item_selected (objects s item)))
              (update_div cb (with_style (applyStylesPreservingLayout h css)) s) in
  objects s' = objects s /\ checkboxes s' = checkboxes s /\ body s' = body s /\
  listeners s' = listeners s /\ calls s' = calls s /\
  hover_listeners (elements s' cb) = hover_listeners (elements s cb) /\
  shown s'.
Proof.
  intros (Hkeys & Hboxes & Hentries) Hin.
  pose proof (proj1 (Forall_forall _ _) Hentries _ Hin) as (Hel & Hhtml & Hclick & Hhover).
  cbn [fst snd] in Hel, Hhtml, Hclick, Hhover.
  simpl. rewrite !store_eq.
  split; [done|]. split; [done|]. split; [done|]. split; [done|]. split; [done|].
  split; [unfold updateCheckboxVisual; by destruct (item_selected _)|].
  split; [done|]. split; [done|].
  eapply Forall_forall. intros e He. simpl.
  pose proof (proj1 (Forall_forall _ _) Hentries _ He) as (Hel' & Hhtml' & Hclick' & Hhover').
  destruct (decide (e.2.2 = cb)) as [Hsame|Hdiff].
  - assert (e = (k, (item, cb))) as -> by
      (apply (NoDup_fmap_same (fun entry : ref * (ref * ref) => entry.2.2)
                (checkboxes s)); done).
    simpl. rewrite !store_eq. unfold updateCheckboxVisual.
    destruct (item_selected (objects s item)); simpl; done.
  - rewrite !store_ne by done. done.
Qed.

Lemma repaint_fold (step : state -> ref -> state) k item cb :
  (forall s, shown s -> (k, (item, cb)) ∈ checkboxes s ->
     objects (step s item) = objects s /\ checkboxes (step s item) = checkboxes s /\
     body (step s item) = body s /\ listeners (step s item) = listeners s /\
     calls (step s item) = calls s /\ shown (step s item)) ->
  forall l s, Forall (fun i => i = item) l ->
    shown s -> (k, (item, cb)) ∈ checkboxes s ->
    objects (fold_left step l s) = objects s /\
    checkboxes (fold_left step l s) = checkboxes s /\
    body (fold_left step l s) = body s /\
    listeners (fold_left step l s) = listeners s /\
    calls (fold_left step l s) = calls s /\
    shown (fold_left step l s).
Proof.
  intros Hstep l. induction l as [|i l IH]; intros s Hl Hshown Hin; [done|].
  apply Forall_cons in Hl as [-> Hl]. simpl.
  destruct (Hstep s Hshown Hin) as (Ho & Hm & Hb & Hli & Hc & Hshown').
  destruct (IH (step s item) Hl Hshown') as (-> & -> & -> & -> & -> & ?);
    [by rewrite Hm|]. done.
Qed.



Lemma lookup_important (style : declarations) property value other :
  other <> property ->
  setProperty_important other value style !! property = style !! property.
Proof. intros H. unfold setProperty_important. by rewrite lookup_insert_ne. Qed.

Lemma lookup_assign_other (style : declarations) property value other :
  other <> property ->
  assign h other value style !! property = style !! property.
Proof.
  intros H. unfold assign. destruct (truthy value).
  - destruct (accepts h other value); [by rewrite lookup_insert_ne|done].
  - by rewrite lookup_delete_ne.
Qed.

(** X30. Whatever style text a styling function returns,
    [applyStylesPreservingLayout] leaves the check box absolutely positioned,
    laid out as a centred flex box, visible and opaque, each with
    [!important]; and a [top] and [left] that were set before, and that the
    browser takes back, are the same afterwards. *)
Theorem applyStylesPreservingLayout_forces_layout cssText style :
  accepts h (js "top") (getPropertyValue (js "top") style) = true ->
  accepts h (js "left") (getPropertyValue (js "left") style) = true ->
  let style' := applyStylesPreservingLayout h cssText style in
  style' !! js "position" = Some (js "absolute", true) /\
  style' !! js "display" = Some (js "flex", true) /\
  style' !! js "align-items" = Some (js "center", true) /\
  style' !! js "justify-content" = Some (js "center", true) /\
  style' !! js "visibility" = Some (js "visible", true) /\
  style' !! js "opacity" = Some (js "1", true) /\
  (truthy (getPropertyValue (js "top") style) = true ->
   style' !! js "top" = Some (getPropertyValue (js "top") style, false)) /\
  (truthy (getPropertyValue (js "left") style) = true ->
   style' !! js "left" = Some (getPropertyValue (js "left") style, false)).
Proof.
  intros Htop Hleft. unfold applyStylesPreservingLayout. cbv zeta.
  set (top := getPropertyValue (js "top") style) in *.
  set (left := getPropertyValue (js "left") style) in *.
  set (position := getPropertyValue (js "position") style).
  clearbody top left position.
  split; [|split; [|split; [|split; [|split; [|split; [|split]]]]]].
  - rewrite !lookup_important by (vm_compute; discriminate).
    unfold setProperty_important. by rewrite lookup_insert_eq.
  - rewrite !lookup_important by (vm_compute; discriminate).
    unfold setProperty_important. by rewrite lookup_insert_eq.
  - rewrite !lookup_important by (vm_compute; discriminate).
    unfold setProperty_important. by rewrite lookup_insert_eq.
  - rewrite !lookup_important by (vm_compute; discriminate).
    unfold setProperty_important. by rewrite lookup_insert_eq.
  - rewrite !lookup_important by (vm_compute; discriminate).
    unfold setProperty_important. by rewrite lookup_insert_eq.
  - unfold setProperty_important. by rewrite lookup_insert_eq.
  - intros Ht. rewrite Ht. rewrite !lookup_important by (vm_compute; discriminate).
    assert (Hother : forall value s,
              assign h (js "position") value s !! js "top" = s !! js "top")
      by (intros; apply lookup_assign_other; vm_compute; discriminate).
    assert (Hother' : forall value s,
              assign h (js "left") value s !! js "top" = s !! js "top")
      by (intros; apply lookup_assign_other; vm_compute; discriminate).
    destruct (truthy position); destruct (truthy left);
      rewrite ?Hother, ?Hother'; unfold assign; rewrite Ht, Htop;
      by rewrite lookup_insert_eq.
  - intros Hl. rewrite Hl. rewrite !lookup_important by (vm_compute; discriminate).
    assert (Hother : forall value s,
              assign h (js "position") value s !! js "left" = s !! js "left")
      by (intros; apply lookup_assign_other; vm_compute; discriminate).
    destruct (truthy position); rewrite ?Hother; unfold assign at 1;
      rewrite Hl, Hleft; by rewrite lookup_insert_eq.
Qed.

End UIManager_properties.

Lemma fresh_well_formed : UIManager.well_formed UIManager.fresh.
Proof. split; constructor. Qed.

Lemma two_on_display_shown : UIManager.shown UIManager.two_on_display.
Proof.
  destruct (display_all UIManager.plain_host None [0; 1]%nat (UIManager.destroy UIManager.fresh))
    as (new & _ & _ & _ & _ & _ & _ & H & _).
  - apply destroy_shown.
  - apply destroy_well_formed, fresh_well_formed.
  - vm_compute. apply NoDup_cons. split; [|apply NoDup_singleton].
    intros ?%list_elem_of_singleton. discriminate.
  - intros k _. apply not_elem_of_nil.
  - exact H.
Qed.

Lemma displayCheckboxes_shows_each_item_witness :
  UIManager.well_formed UIManager.fresh /\
  NoDup (UIManager.targets UIManager.fresh [0; 1]%nat).*1 /\
  UIManager.shown (UIManager.displayCheckboxes UIManager.plain_host None [0; 1]%nat
                     UIManager.fresh).
Proof.
  assert (Hnodup : NoDup (UIManager.targets UIManager.fresh [0; 1]%nat).*1).
  { vm_compute. apply NoDup_cons. split; [|apply NoDup_singleton].
    intros ?%list_elem_of_singleton. discriminate. }
  split; [apply fresh_well_formed|]. split; [exact Hnodup|].
  destruct (displayCheckboxes_shows_each_item UIManager.plain_host None [0; 1]%nat
              UIManager.fresh fresh_well_formed Hnodup) as (_ & _ & _ & H & _).
  exact H.
Defined.

Lemma first_on_display :
  (0, (0, 0))%nat ∈ UIManager.checkboxes UIManager.two_on_display.
Proof. vm_compute. by left. Qed.

Lemma click_toggles_one_item_witness :
  UIManager.shown UIManager.two_on_display /\
  (0, (0, 0))%nat ∈ UIManager.checkboxes UIManager.two_on_display /\
  UIManager.item_selected
    (UIManager.objects
       (UIManager.click UIManager.plain_host None 0%nat UIManager.two_on_display) 0%nat)
  = negb (UIManager.item_selected (UIManager.objects UIManager.two_on_display 0%nat)).
Proof.
  split; [apply two_on_display_shown|]. split; [apply first_on_display|].
  destruct (click_toggles_one_item UIManager.plain_host None UIManager.two_on_display
              0%nat 0%nat 0%nat two_on_display_shown first_on_display) as [H _].
  exact H.
Defined.

Lemma click_twice_restores_witness :
  UIManager.shown UIManager.two_on_display /\
  (0, (0, 0))%nat ∈ UIManager.checkboxes UIManager.two_on_display /\
  forall i,
    UIManager.item_selected
      (UIManager.objects
         (UIManager.click UIManager.plain_host None 0%nat
            (UIManager.click UIManager.plain_host None 0%nat UIManager.two_on_display)) i)
    = UIManager.item_selected (UIManager.objects UIManager.two_on_display i).
Proof.
  split; [apply two_on_display_shown|]. split; [apply first_on_display|].
  destruct (click_twice_restores UIManager.plain_host None UIManager.two_on_display
              0%nat 0%nat 0%nat two_on_display_shown first_on_display) as [H _].
  exact H.
Defined.

Lemma two_styled_on_display_shown : UIManager.shown UIManager.two_styled_on_display.
Proof.
  destruct (display_all UIManager.tint_host (Some UIManager.tints) [0; 1]%nat
              (UIManager.destroy UIManager.fresh))
    as (new & _ & _ & _ & _ & _ & _ & H & _).
  - apply destroy_shown.
  - apply destroy_well_formed, fresh_well_formed.
  - vm_compute. apply NoDup_cons. split; [|apply NoDup_singleton].
    intros ?%list_elem_of_singleton. discriminate.
  - intros k _. apply not_elem_of_nil.
  - exact H.
Qed.

Lemma first_styled_on_display :
  (0, (0, 0))%nat ∈ UIManager.checkboxes UIManager.two_styled_on_display.
Proof. vm_compute. by left. Qed.



Lemma applyStylesPreservingLayout_forces_layout_witness :
  UIManager.accepts UIManager.plain_host (js "top")
    (UIManager.getPropertyValue (js "top") UIManager.placed) = true /\
  UIManager.accepts UIManager.plain_host (js "left")
    (UIManager.getPropertyValue (js "left") UIManager.placed) = true /\
  UIManager.applyStylesPreservingLayout UIManager.plain_host (js "top: 0") UIManager.placed
    !! js "position"
  = Some (js "absolute", true).
Proof.
  split; [reflexivity|]. split; [reflexivity|].
  destruct (applyStylesPreservingLayout_forces_layout UIManager.plain_host (js "top: 0")
              UIManager.placed eq_refl eq_refl) as [H _].
  exact H.
Defined.
